(** * Sui-Circle frontend: file service, Seal encryption adapter,
      access-control service and upload orchestration

    A shallow embedding of the TypeScript services of the frontend
    (sealEncryptionService, accessControlService, fileService and the
    uploadSingleFile routine of the FileUpload component), together with
    the properties their specification states about them.

    Conventions.
    - A JavaScript string is the list of its UTF-16 code units.
    - A Uint8Array is a list of bytes.
    - Code that can throw lives in the [exn] monad; [try_catch] is the
      try/catch statement.
    - Network and file-system effects are explicit: a call to fetch
      appends the request to a log and takes its outcome from the
      environment. *)

From Stdlib Require Import List NArith ZArith QArith Bool Ascii String Lia.
From Stdlib Require Import Init.Byte.
From Stdlib Require DecimalN DecimalFacts.
Import ListNotations.

Local Close Scope Q_scope.
Local Open Scope list_scope.

Set Warnings "-register-all".

(* ================================================================== *)
(** * JavaScript strings *)
(* ================================================================== *)

Definition jsstring := list N.

Definition ch (a : ascii) : N := N_of_ascii a.

Definition str (s : string) : jsstring := map ch (list_ascii_of_string s).

Definition jseqb (a b : jsstring) : bool :=
  if list_eq_dec N.eq_dec a b then true else false.

(** [Array.prototype.includes] on an array of strings. *)
Definition includes (l : list jsstring) (x : jsstring) : bool :=
  existsb (jseqb x) l.

(** ECMAScript WhiteSpace and LineTerminator code units: the class [\s]
    of regular expressions and the characters removed by [trim]. *)
Definition is_js_space (c : N) : bool :=
  ((9 <=? c) && (c <=? 13) || (c =? 32) || (c =? 160) || (c =? 5760)
   || (8192 <=? c) && (c <=? 8202) || (c =? 8232) || (c =? 8233)
   || (c =? 8239) || (c =? 8287) || (c =? 12288) || (c =? 65279))%N.

(** Line terminators, which [.] does not match. *)
Definition is_line_terminator (c : N) : bool :=
  ((c =? 10) || (c =? 13) || (c =? 8232) || (c =? 8233))%N.

Fixpoint trimStart (s : jsstring) : jsstring :=
  match s with
  | c :: r => if is_js_space c then trimStart r else s
  | [] => []
  end.

Definition trim (s : jsstring) : jsstring :=
  rev (trimStart (rev (trimStart s))).

(** [s.split(sep)] for a separator of one code unit. *)
Fixpoint split_aux (sep : N) (s cur : jsstring) : list jsstring :=
  match s with
  | [] => [rev cur]
  | c :: r => if (c =? sep)%N then rev cur :: split_aux sep r []
              else split_aux sep r (c :: cur)
  end.

Definition split (sep : N) (s : jsstring) : list jsstring :=
  split_aux sep s [].

(** Truthiness of a string: the empty string is the only falsy one. *)
Definition truthy_str (s : jsstring) : bool :=
  match s with [] => false | _ => true end.

(** Decimal rendering of a natural number, as [Number.prototype.toString]
    does for non-negative integers below 1e21. *)
Fixpoint print_uint (d : Decimal.uint) : jsstring :=
  match d with
  | Decimal.Nil => []
  | Decimal.D0 r => ch "0" :: print_uint r
  | Decimal.D1 r => ch "1" :: print_uint r
  | Decimal.D2 r => ch "2" :: print_uint r
  | Decimal.D3 r => ch "3" :: print_uint r
  | Decimal.D4 r => ch "4" :: print_uint r
  | Decimal.D5 r => ch "5" :: print_uint r
  | Decimal.D6 r => ch "6" :: print_uint r
  | Decimal.D7 r => ch "7" :: print_uint r
  | Decimal.D8 r => ch "8" :: print_uint r
  | Decimal.D9 r => ch "9" :: print_uint r
  end.

Definition nat_toString (n : N) : jsstring := print_uint (N.to_uint n).

(* ================================================================== *)
(** * JavaScript numbers *)
(* ================================================================== *)

(** A Number is NaN, an infinity or a finite value; finite values are
    kept as exact rationals (every double is one). *)
Inductive number :=
| NaN
| Infinity (negative : bool)
| Finite (q : Q).

Definition truthy_num (n : number) : bool :=
  match n with
  | NaN => false
  | Infinity _ => true
  | Finite q => negb (Qnum q =? 0)%Z
  end.

(** [a <= b] on Numbers; any comparison with NaN is false. *)
Definition num_leb (a b : number) : bool :=
  match a, b with
  | NaN, _ | _, NaN => false
  | Infinity true, _ => true
  | _, Infinity false => true
  | Infinity false, _ => false
  | _, Infinity true => false
  | Finite p, Finite q => Qle_bool p q
  end.

Definition num_geb (a b : number) : bool := num_leb b a.

Definition num_of_Z (z : Z) : number := Finite (inject_Z z).

(* ================================================================== *)
(** * Regular expressions *)
(* ================================================================== *)

(** The fragment of the regular-expression language that the services
    use, matched by derivatives.  [regex_test r s] is [/^r$/.test(s)]. *)
Inductive regex :=
| Void
| Eps
| Class (p : N -> bool)
| Cat (r1 r2 : regex)
| Alt (r1 r2 : regex)
| Star (r : regex).

Definition Plus (r : regex) : regex := Cat r (Star r).

Fixpoint Lit (s : jsstring) : regex :=
  match s with
  | [] => Eps
  | c :: r => Cat (Class (N.eqb c)) (Lit r)
  end.

Fixpoint nullable (r : regex) : bool :=
  match r with
  | Void => false
  | Eps => true
  | Class _ => false
  | Cat r1 r2 => nullable r1 && nullable r2
  | Alt r1 r2 => nullable r1 || nullable r2
  | Star _ => true
  end.

Fixpoint deriv (c : N) (r : regex) : regex :=
  match r with
  | Void => Void
  | Eps => Void
  | Class p => if p c then Eps else Void
  | Cat r1 r2 =>
      if nullable r1 then Alt (Cat (deriv c r1) r2) (deriv c r2)
      else Cat (deriv c r1) r2
  | Alt r1 r2 => Alt (deriv c r1) (deriv c r2)
  | Star r1 => Cat (deriv c r1) (Star r1)
  end.

Fixpoint regex_test (r : regex) (s : jsstring) : bool :=
  match s with
  | [] => nullable r
  | c :: s' => regex_test (deriv c r) s'
  end.

(** The language of a regular expression. *)
Inductive lang : regex -> jsstring -> Prop :=
| lang_eps : lang Eps []
| lang_class p c : p c = true -> lang (Class p) [c]
| lang_cat r1 r2 s1 s2 :
    lang r1 s1 -> lang r2 s2 -> lang (Cat r1 r2) (s1 ++ s2)
| lang_alt_l r1 r2 s : lang r1 s -> lang (Alt r1 r2) s
| lang_alt_r r1 r2 s : lang r2 s -> lang (Alt r1 r2) s
| lang_star_nil r : lang (Star r) []
| lang_star_cons r s1 s2 :
    lang r s1 -> lang (Star r) s2 -> lang (Star r) (s1 ++ s2).

Definition in_range (lo hi : ascii) (c : N) : bool :=
  ((ch lo <=? c) && (c <=? ch hi))%N.

(** [[a-zA-Z0-9]] *)
Definition is_alnum (c : N) : bool :=
  in_range "a" "z" c || in_range "A" "Z" c || in_range "0" "9" c.

(** [[a-zA-Z0-9-]] *)
Definition is_alnum_dash (c : N) : bool :=
  is_alnum c || (c =? ch "-")%N.

(** [[^\s@]] *)
Definition not_space_at (c : N) : bool :=
  negb (is_js_space c || (c =? ch "@")%N).

(** [/^[^\s@]+@[^\s@]+\.[^\s@]+$/] *)
Definition emailRegex : regex :=
  Cat (Plus (Class not_space_at))
   (Cat (Lit (str "@"))
    (Cat (Plus (Class not_space_at))
     (Cat (Lit (str ".")) (Plus (Class not_space_at))))).

(** [/^[a-zA-Z0-9][a-zA-Z0-9-]*[a-zA-Z0-9]\.sui$/] *)
Definition suiNSRegex : regex :=
  Cat (Class is_alnum)
   (Cat (Star (Class is_alnum_dash))
    (Cat (Class is_alnum) (Lit (str ".sui")))).

(* ================================================================== *)
(** * Exceptions and effects *)
(* ================================================================== *)

(** A thrown value: an instance of [Error] with its message, or any
    other value. *)
Inductive thrown :=
| ErrorObj (message : jsstring)
| NonError.

Inductive exn (A : Type) :=
| Ok (a : A)
| Throw (e : thrown).

Arguments Ok {A} a.
Arguments Throw {A} e.

Definition bind {A B : Type} (m : exn A) (k : A -> exn B) : exn B :=
  match m with
  | Ok a => k a
  | Throw e => Throw e
  end.

Declare Scope exn_scope.
Delimit Scope exn_scope with exn.
Notation "x <- m ;; k" := (bind m (fun x => k))
  (at level 61, m at next level, right associativity) : exn_scope.

(** [try { body } catch (error) { handler }] where the handler returns. *)
Definition try_catch {A : Type} (body : exn A) (handler : thrown -> A) : A :=
  match body with
  | Ok a => a
  | Throw e => handler e
  end.

(** [error instanceof Error ? error.message : dflt] *)
Definition message_or (e : thrown) (dflt : jsstring) : jsstring :=
  match e with
  | ErrorObj m => m
  | NonError => dflt
  end.

(** Code that can throw and also reads and writes a state [S]: the
    service's fields, or the log of network requests. *)
Definition eff (S A : Type) : Type := S -> exn A * S.

Definition eret {S A : Type} (a : A) : eff S A := fun s => (Ok a, s).

Definition ethrow {S A : Type} (e : thrown) : eff S A := fun s => (Throw e, s).

Definition ebind {S A B : Type} (m : eff S A) (k : A -> eff S B) : eff S B :=
  fun s =>
    match m s with
    | (Ok a, s') => k a s'
    | (Throw e, s') => (Throw e, s')
    end.

Definition elift {S A : Type} (m : exn A) : eff S A := fun s => (m, s).

Definition etry {S A : Type} (body : eff S A) (handler : thrown -> eff S A)
  : eff S A :=
  fun s =>
    match body s with
    | (Ok a, s') => (Ok a, s')
    | (Throw e, s') => handler e s'
    end.

Declare Scope eff_scope.
Delimit Scope eff_scope with eff.
Notation "x <- m ;; k" := (ebind m (fun x => k))
  (at level 61, m at next level, right associativity) : eff_scope.

(* ================================================================== *)
(** * JavaScript values *)
(* ================================================================== *)

(** The values that [JSON.parse] and [response.json()] produce, and
    [undefined] for a missing property.  An object is the list of its
    own properties in insertion order; a later binding of a key shadows
    an earlier one. *)
Inductive jsval :=
| JUndefined
| JNull
| JBool (b : bool)
| JNum (n : number)
| JStr (s : jsstring)
| JArr (elems : list jsval)
| JObj (fields : list (jsstring * jsval)).

Definition truthy (v : jsval) : bool :=
  match v with
  | JUndefined | JNull => false
  | JBool b => b
  | JNum n => truthy_num n
  | JStr s => truthy_str s
  | JArr _ | JObj _ => true
  end.

(** [a || b] *)
Definition js_or (a b : jsval) : jsval := if truthy a then a else b.

Definition isArray (v : jsval) : bool :=
  match v with JArr _ => true | _ => false end.

Fixpoint lookup_last (fields : list (jsstring * jsval)) (key : jsstring)
  : option jsval :=
  match fields with
  | [] => None
  | (k, v) :: r =>
      match lookup_last r key with
      | Some v' => Some v'
      | None => if jseqb k key then Some v else None
      end
  end.

(** The element whose index prints as [key]. *)
Fixpoint index_get {A : Type} (l : list A) (i : N) (key : jsstring)
  : option A :=
  match l with
  | [] => None
  | x :: r => if jseqb (nat_toString i) key then Some x
              else index_get r (N.succ i) key
  end.

Definition length_key : jsstring := str "length".

Definition length_num {A : Type} (l : list A) : jsval :=
  JNum (num_of_Z (Z.of_nat (List.length l))).

Inductive engine_error :=
| JSON_SyntaxError (text : jsstring)
| Nullish_TypeError (base : jsval) (key : jsstring)
| Length_RangeError (n : number)
| String_RangeError.

(** What the development takes from the JavaScript engine without
    fixing it: the rounding of a decimal literal that is not a safe
    integer, the printing of a number that is not an integer below
    1e21, the conversions of strings and objects to numbers and of
    objects to strings (on objects either may throw), the messages of
    the engine's own errors, and the largest typed array and the longest
    string the engine allocates (no string has more than 2^53 - 1 code
    units). *)
Record Engine := {
  round_double : Q -> number;
  float_to_string : Q -> jsstring;
  string_to_number : jsstring -> number;
  object_to_number : jsval -> exn number;
  object_to_string : jsval -> exn jsstring;
  describe : engine_error -> jsstring;
  max_byte_length : N;
  max_string_length : N;
  max_string_length_safe : (max_string_length <= 2 ^ 53 - 1)%N
}.

(** An engine with unbounded precision, for concrete evaluation. *)
Definition ideal_engine : Engine := {|
  round_double := Finite;
  float_to_string := fun _ => str "0";
  string_to_number := fun _ => NaN;
  object_to_number := fun _ => Ok NaN;
  object_to_string := fun _ => Ok (str "[object Object]");
  describe := fun e =>
    match e with
    | JSON_SyntaxError _ => str "Unexpected token in JSON"
    | Nullish_TypeError _ _ => str "Cannot read properties of undefined"
    | Length_RangeError _ => str "Invalid typed array length"
    | String_RangeError => str "Invalid string length"
    end;
  max_byte_length := 9007199254740991;
  max_string_length := 9007199254740991;
  max_string_length_safe := N.le_refl _
|}.

(** The validator [isValidSuiAddress] of the Sui SDK, which the access
    control service imports: a string of 64 hexadecimal digits, or
    [0x] or [0X] followed by 64 hexadecimal digits. *)
Definition is_hex (c : N) : bool :=
  in_range "0" "9" c || in_range "a" "f" c || in_range "A" "F" c.

Definition sdk_isValidSuiAddress (s : jsstring) : bool :=
  match s with
  | z :: x :: r =>
      if ((z =? ch "0") && ((x =? ch "x") || (x =? ch "X")))%N
      then forallb is_hex r && (List.length r =? 64)%nat
      else forallb is_hex s && (List.length s =? 64)%nat
  | _ => forallb is_hex s && (List.length s =? 64)%nat
  end.

(* ================================================================== *)
(** * Bytes and UTF-8: [TextEncoder] and [TextDecoder] *)
(* ================================================================== *)

Definition byte_of_N (n : N) : byte :=
  match Byte.of_N (n mod 256) with
  | Some b => b
  | None => x00
  end.

Definition is_high_surrogate (c : N) : bool :=
  ((55296 <=? c) && (c <=? 56319))%N.

Definition is_low_surrogate (c : N) : bool :=
  ((56320 <=? c) && (c <=? 57343))%N.

(** The UTF-8 bytes of one code point. *)
Definition utf8_of_code_point (cp : N) : list N :=
  (if cp <? 128 then [cp]
   else if cp <? 2048 then [192 + cp / 64; 128 + cp mod 64]
   else if cp <? 65536 then
     [224 + cp / 4096; 128 + (cp / 64) mod 64; 128 + cp mod 64]
   else
     [240 + cp / 262144; 128 + (cp / 4096) mod 64;
      128 + (cp / 64) mod 64; 128 + cp mod 64])%N.

(** U+FFFD, which stands for an unpaired surrogate or a malformed
    byte sequence. *)
Definition replacement : N := 65533.

Fixpoint utf8_encode (s : jsstring) : list N :=
  match s with
  | [] => []
  | c :: r =>
      if is_high_surrogate c then
        match r with
        | d :: r' =>
            if is_low_surrogate d
            then utf8_of_code_point
                   (65536 + (c - 55296) * 1024 + (d - 56320))%N
                 ++ utf8_encode r'
            else utf8_of_code_point replacement ++ utf8_encode r
        | [] => utf8_of_code_point replacement
        end
      else if is_low_surrogate c
      then utf8_of_code_point replacement ++ utf8_encode r
      else utf8_of_code_point c ++ utf8_encode r
  end.

(** [new TextEncoder().encode(s)] *)
Definition TextEncoder_encode (s : jsstring) : list byte :=
  map byte_of_N (utf8_encode s).

(** The state of the UTF-8 decoder of the Encoding standard. *)
Record utf8_state := {
  u_code_point : N;
  u_seen : N;
  u_needed : N;
  u_lower : N;
  u_upper : N
}.

Definition utf8_init : utf8_state :=
  {| u_code_point := 0; u_seen := 0; u_needed := 0;
     u_lower := 128; u_upper := 191 |}.

(** The code units of one decoded code point. *)
Definition utf16_of_code_point (cp : N) : jsstring :=
  (if cp <? 65536 then [cp]
   else [55296 + (cp - 65536) / 1024; 56320 + (cp - 65536) mod 1024])%N.

(** A byte read when no continuation byte is awaited. *)
Definition utf8_lead (b : N) : jsstring * utf8_state :=
  (if b <=? 127 then ([b], utf8_init)
   else if (194 <=? b) && (b <=? 223) then
     ([], {| u_code_point := N.land b 31; u_seen := 0; u_needed := 1;
             u_lower := 128; u_upper := 191 |})
   else if (224 <=? b) && (b <=? 239) then
     ([], {| u_code_point := N.land b 15; u_seen := 0; u_needed := 2;
             u_lower := if b =? 224 then 160 else 128;
             u_upper := if b =? 237 then 159 else 191 |})
   else if (240 <=? b) && (b <=? 244) then
     ([], {| u_code_point := N.land b 7; u_seen := 0; u_needed := 3;
             u_lower := if b =? 240 then 144 else 128;
             u_upper := if b =? 244 then 143 else 191 |})
   else ([replacement], utf8_init))%N.

Definition utf8_step (st : utf8_state) (b : N) : jsstring * utf8_state :=
  (if u_needed st =? 0 then utf8_lead b
   else if negb ((u_lower st <=? b) && (b <=? u_upper st)) then
     let (out, st') := utf8_lead b in (replacement :: out, st')
   else
     let cp := u_code_point st * 64 + N.land b 63 in
     if u_seen st + 1 =? u_needed st
     then (utf16_of_code_point cp, utf8_init)
     else ([], {| u_code_point := cp; u_seen := u_seen st + 1;
                  u_needed := u_needed st;
                  u_lower := 128; u_upper := 191 |}))%N.

Fixpoint utf8_decode_from (st : utf8_state) (bytes : list byte) : jsstring :=
  match bytes with
  | [] => if (u_needed st =? 0)%N then [] else [replacement]
  | b :: r =>
      let (out, st') := utf8_step st (Byte.to_N b) in
      out ++ utf8_decode_from st' r
  end.

(** [new TextDecoder().decode(bytes)]: UTF-8, malformed input replaced
    and a leading byte order mark dropped. *)
Definition TextDecoder_decode (bytes : list byte) : jsstring :=
  match utf8_decode_from utf8_init bytes with
  | 65279%N :: r => r
  | s => s
  end.

Section Services.

Variable E : Engine.

(** The address validator of the Sui SDK. *)
Variable isValidSuiAddress : jsstring -> bool.

(* ================================================================== *)
(** * Property access and conversions *)
(* ================================================================== *)

(** [v[key]] for a key that is not a method of a built-in prototype
    (none of the keys the services read is one). *)
Definition get (v : jsval) (key : jsstring) : exn jsval :=
  match v with
  | JUndefined | JNull =>
      Throw (ErrorObj (describe E (Nullish_TypeError v key)))
  | JObj fs =>
      Ok (match lookup_last fs key with Some x => x | None => JUndefined end)
  | JArr l =>
      Ok (if jseqb key length_key then length_num l
          else match index_get l 0 key with
               | Some x => x
               | None => JUndefined
               end)
  | JStr s =>
      Ok (if jseqb key length_key then length_num s
          else match index_get s 0 key with
               | Some c => JStr [c]
               | None => JUndefined
               end)
  | JBool _ | JNum _ => Ok JUndefined
  end.

(** Truncation of a finite number towards zero. *)
Definition trunc (q : Q) : Z := Z.quot (Qnum q) (Zpos (Qden q)).

Definition is_integer (q : Q) : bool :=
  (Z.rem (Qnum q) (Zpos (Qden q)) =? 0)%Z.

(** [Number.prototype.toString]: integers below 1e21 in magnitude print
    as decimals. *)
Definition Number_toString (n : number) : jsstring :=
  match n with
  | NaN => str "NaN"
  | Infinity false => str "Infinity"
  | Infinity true => str "-Infinity"
  | Finite q =>
      if is_integer q && (Z.abs (trunc q) <? 10 ^ 21)%Z then
        if (trunc q <? 0)%Z
        then ch "-" :: nat_toString (Z.to_N (Z.abs (trunc q)))
        else nat_toString (Z.to_N (trunc q))
      else float_to_string E q
  end.

Definition ToString (v : jsval) : exn jsstring :=
  match v with
  | JUndefined => Ok (str "undefined")
  | JNull => Ok (str "null")
  | JBool true => Ok (str "true")
  | JBool false => Ok (str "false")
  | JNum n => Ok (Number_toString n)
  | JStr s => Ok s
  | JArr _ | JObj _ => object_to_string E v
  end.

Definition ToNumber (v : jsval) : exn number :=
  match v with
  | JUndefined => Ok NaN
  | JNull => Ok (num_of_Z 0)
  | JBool b => Ok (num_of_Z (if b then 1 else 0))
  | JNum n => Ok n
  | JStr s => Ok (string_to_number E s)
  | JArr _ | JObj _ => object_to_number E v
  end.

Definition ToUint8 (n : number) : byte :=
  match n with
  | Finite q => byte_of_N (Z.to_N (trunc q mod 256))
  | NaN | Infinity _ => x00
  end.

Definition max_safe_integer : Z := 2 ^ 53 - 1.

Definition range_error (n : number) : thrown :=
  ErrorObj (describe E (Length_RangeError n)).

(** [ToIndex]: an integer between 0 and 2^53 - 1, or a RangeError. *)
Definition ToIndex (n : number) : exn N :=
  match n with
  | NaN => Ok 0%N
  | Infinity _ => Throw (range_error n)
  | Finite q =>
      if ((trunc q <? 0) || (max_safe_integer <? trunc q))%Z
      then Throw (range_error n)
      else Ok (Z.to_N (trunc q))
  end.

(** [ToLength]: clamped to 0 .. 2^53 - 1. *)
Definition ToLength (n : number) : N :=
  match n with
  | NaN | Infinity true => 0%N
  | Infinity false => Z.to_N max_safe_integer
  | Finite q => Z.to_N (Z.min (trunc q) max_safe_integer)
  end.

(** A zero-filled buffer of [n] bytes. *)
Definition allocate (n : N) : exn (list byte) :=
  if (max_byte_length E <? n)%N
  then Throw (range_error (num_of_Z (Z.of_N n)))
  else Ok (repeat x00 (N.to_nat n)).

Fixpoint map_exn {A B : Type} (f : A -> exn B) (l : list A) : exn (list B) :=
  match l with
  | [] => Ok []
  | x :: r =>
      (y <- f x ;; ys <- map_exn f r ;; Ok (y :: ys))%exn
  end.

Definition indices (n : N) : list N :=
  map N.of_nat (seq 0 (N.to_nat n)).

(** [new Uint8Array(v)]: an array is read as an iterable, any other
    object as an array-like, and a primitive as a length. *)
Definition Uint8Array_from (v : jsval) : exn (list byte) :=
  match v with
  | JArr l =>
      (nums <- map_exn ToNumber l ;; Ok (map ToUint8 nums))%exn
  | JObj fs =>
      (len_v <- get v length_key ;;
       len_n <- ToNumber len_v ;;
       _ <- allocate (ToLength len_n) ;;
       nums <- map_exn
                 (fun k => x <- get v (nat_toString k) ;; ToNumber x)
                 (indices (ToLength len_n)) ;;
       Ok (map ToUint8 nums))%exn
  | _ =>
      (n <- ToNumber v ;; len <- ToIndex n ;; allocate len)%exn
  end.

(** [new Error(v)]: the message is [ToString(v)], which may itself
    throw. *)
Definition throw_Error {A : Type} (v : jsval) : exn A :=
  (m <- ToString v ;; Throw (ErrorObj m))%exn.

(* ================================================================== *)
(** * JSON.stringify *)
(* ================================================================== *)

Definition hex_digit (n : N) : N :=
  (if n <? 10 then ch "0" + n else ch "a" + (n - 10))%N.

(** [\uXXXX] with lower-case hexadecimal digits. *)
Definition unicode_escape (c : N) : jsstring :=
  (ch "\" :: ch "u" ::
   [hex_digit (c / 4096 mod 16); hex_digit (c / 256 mod 16);
    hex_digit (c / 16 mod 16); hex_digit (c mod 16)])%N.

Definition dquote : N := 34.
Definition backslash : N := 92.

(** The escape that [QuoteJSONString] has for one code unit, if any;
    surrogates are handled by [quote_body]. *)
Definition json_escape (c : N) : option jsstring :=
  (if c =? 8 then Some [backslash; ch "b"]
   else if c =? 9 then Some [backslash; ch "t"]
   else if c =? 10 then Some [backslash; ch "n"]
   else if c =? 12 then Some [backslash; ch "f"]
   else if c =? 13 then Some [backslash; ch "r"]
   else if c =? dquote then Some [backslash; dquote]
   else if c =? backslash then Some [backslash; backslash]
   else if c <? 32 then Some (unicode_escape c)
   else None)%N.

Fixpoint quote_body (s : jsstring) : jsstring :=
  match s with
  | [] => []
  | c :: r =>
      match json_escape c with
      | Some e => e ++ quote_body r
      | None =>
          if is_high_surrogate c then
            match r with
            | d :: r' =>
                if is_low_surrogate d then c :: d :: quote_body r'
                else unicode_escape c ++ quote_body r
            | [] => unicode_escape c
            end
          else if is_low_surrogate c then unicode_escape c ++ quote_body r
          else c :: quote_body r
      end
  end.

Definition JSON_quote (s : jsstring) : jsstring :=
  dquote :: quote_body s ++ [dquote].

Fixpoint join (sep : jsstring) (l : list jsstring) : jsstring :=
  match l with
  | [] => []
  | [x] => x
  | x :: r => x ++ sep ++ join sep r
  end.

Fixpoint omit_none {A : Type} (l : list (option A)) : list A :=
  match l with
  | [] => []
  | Some x :: r => x :: omit_none r
  | None :: r => omit_none r
  end.

(** [JSON.stringify(v)] for a value that is not [undefined] at the top:
    an array element that is [undefined] prints as [null], a property
    whose value is [undefined] is left out, and NaN and the infinities
    print as [null]. *)
Fixpoint JSON_stringify (v : jsval) : jsstring :=
  match v with
  | JUndefined | JNull => str "null"
  | JBool true => str "true"
  | JBool false => str "false"
  | JNum (Finite q) => Number_toString (Finite q)
  | JNum _ => str "null"
  | JStr s => JSON_quote s
  | JArr l => ch "[" :: join (str ",") (map JSON_stringify l) ++ [ch "]"]
  | JObj fs =>
      ch "{" ::
      join (str ",")
        (omit_none
           (map (fun kv =>
                   match kv with
                   | (_, JUndefined) => None
                   | (k, x) =>
                       Some (JSON_quote k ++ ch ":" :: JSON_stringify x)
                   end) fs))
      ++ [ch "}"]
  end.

(** [JSON.stringify(v)] as the engine runs it: a RangeError when the
    text is longer than the longest string. *)
Definition JSON_stringify_checked (v : jsval) : exn jsstring :=
  let text := JSON_stringify v in
  if (max_string_length E <? N.of_nat (List.length text))%N
  then Throw (ErrorObj (describe E String_RangeError))
  else Ok text.

(* ================================================================== *)
(** * JSON.parse *)
(* ================================================================== *)

Definition is_json_ws (c : N) : bool :=
  ((c =? 32) || (c =? 9) || (c =? 10) || (c =? 13))%N.

Fixpoint skip_ws (s : jsstring) : jsstring :=
  match s with
  | c :: r => if is_json_ws c then skip_ws r else s
  | [] => []
  end.

Definition digit_cons (c : N) : option (Decimal.uint -> Decimal.uint) :=
  (if c =? ch "0" then Some Decimal.D0
   else if c =? ch "1" then Some Decimal.D1
   else if c =? ch "2" then Some Decimal.D2
   else if c =? ch "3" then Some Decimal.D3
   else if c =? ch "4" then Some Decimal.D4
   else if c =? ch "5" then Some Decimal.D5
   else if c =? ch "6" then Some Decimal.D6
   else if c =? ch "7" then Some Decimal.D7
   else if c =? ch "8" then Some Decimal.D8
   else if c =? ch "9" then Some Decimal.D9
   else None)%N.

(** The longest run of decimal digits at the head of [s]. *)
Fixpoint scan_digits (s : jsstring) : Decimal.uint * jsstring :=
  match s with
  | [] => (Decimal.Nil, [])
  | c :: r =>
      match digit_cons c with
      | Some d => let (u, rest) := scan_digits r in (d u, rest)
      | None => (Decimal.Nil, s)
      end
  end.

(** A number literal of the JSON grammar. *)
Record literal := {
  lit_negative : bool;
  lit_int : Decimal.uint;
  lit_frac : option Decimal.uint;
  lit_exp : option (bool * Decimal.uint)
}.

Definition signed (negative : bool) (n : N) : Z :=
  if negative then (- Z.of_N n)%Z else Z.of_N n.

(** The rational that a literal denotes. *)
Definition literal_value (l : literal) : Q :=
  let int_part := inject_Z (Z.of_N (N.of_uint (lit_int l))) in
  let frac_part :=
    match lit_frac l with
    | Some f =>
        Qdiv (inject_Z (Z.of_N (N.of_uint f)))
             (inject_Z (10 ^ Z.of_nat (Decimal.nb_digits f)))
    | None => inject_Z 0
    end in
  let scale :=
    match lit_exp l with
    | Some (neg, e) => Qpower (inject_Z 10) (signed neg (N.of_uint e))
    | None => inject_Z 1
    end in
  let magnitude := Qmult (Qplus int_part frac_part) scale in
  if lit_negative l then Qopp magnitude else magnitude.

(** The Number of a literal: exact for an integer literal of magnitude
    at most 2^53, rounded by the engine otherwise. *)
Definition literal_number (l : literal) : number :=
  match lit_frac l, lit_exp l with
  | None, None =>
      let n := N.of_uint (lit_int l) in
      if (n <=? 2 ^ 53)%N
      then num_of_Z (signed (lit_negative l) n)
      else round_double E (literal_value l)
  | _, _ => round_double E (literal_value l)
  end.

Definition scan_fraction (s : jsstring)
  : option (option Decimal.uint * jsstring) :=
  match s with
  | c :: r =>
      if (c =? ch ".")%N then
        match scan_digits r with
        | (Decimal.Nil, _) => None
        | (f, rest) => Some (Some f, rest)
        end
      else Some (None, s)
  | [] => Some (None, [])
  end.

Definition scan_exponent (s : jsstring)
  : option (option (bool * Decimal.uint) * jsstring) :=
  match s with
  | c :: r =>
      if ((c =? ch "e") || (c =? ch "E"))%N then
        let (neg, r1) :=
          match r with
          | d :: r' =>
              if (d =? ch "-")%N then (true, r')
              else if (d =? ch "+")%N then (false, r')
              else (false, r)
          | [] => (false, [])
          end in
        match scan_digits r1 with
        | (Decimal.Nil, _) => None
        | (e, rest) => Some (Some (neg, e), rest)
        end
      else Some (None, s)
  | [] => Some (None, [])
  end.

Definition parse_number (s : jsstring) : option (jsval * jsstring) :=
  let (neg, s1) :=
    match s with
    | c :: r => if (c =? ch "-")%N then (true, r) else (false, s)
    | [] => (false, [])
    end in
  let (int, s2) := scan_digits s1 in
  match int with
  | Decimal.Nil => None
  | Decimal.D0 (Decimal.D0 _ | Decimal.D1 _ | Decimal.D2 _ | Decimal.D3 _
               | Decimal.D4 _ | Decimal.D5 _ | Decimal.D6 _ | Decimal.D7 _
               | Decimal.D8 _ | Decimal.D9 _) => None
  | _ =>
      match scan_fraction s2 with
      | None => None
      | Some (frac, s3) =>
          match scan_exponent s3 with
          | None => None
          | Some (exp, s4) =>
              Some (JNum (literal_number
                            {| lit_negative := neg; lit_int := int;
                               lit_frac := frac; lit_exp := exp |}), s4)
          end
      end
  end.

Definition hex_value (c : N) : option N :=
  (if in_range "0" "9" c then Some (c - ch "0")
   else if in_range "a" "f" c then Some (c - ch "a" + 10)
   else if in_range "A" "F" c then Some (c - ch "A" + 10)
   else None)%N.

Definition hex4_value (a b c d : N) : option N :=
  match hex_value a, hex_value b, hex_value c, hex_value d with
  | Some x, Some y, Some z, Some w =>
      Some (x * 4096 + y * 256 + z * 16 + w)%N
  | _, _, _, _ => None
  end.

Definition simple_escape (c : N) : option N :=
  (if c =? dquote then Some dquote
   else if c =? backslash then Some backslash
   else if c =? ch "/" then Some (ch "/")
   else if c =? ch "b" then Some 8
   else if c =? ch "f" then Some 12
   else if c =? ch "n" then Some 10
   else if c =? ch "r" then Some 13
   else if c =? ch "t" then Some 9
   else None)%N.

(** The contents of a string literal after its opening quote, up to
    and including the closing quote. *)
Fixpoint parse_string_body (s : jsstring) : option (jsstring * jsstring) :=
  match s with
  | [] => None
  | c :: r =>
      if (c =? dquote)%N then Some ([], r)
      else if (c =? backslash)%N then
        match r with
        | e :: r1 =>
            if (e =? ch "u")%N then
              match r1 with
              | h1 :: h2 :: h3 :: h4 :: r2 =>
                  match hex4_value h1 h2 h3 h4, parse_string_body r2 with
                  | Some u, Some (t, rest) => Some (u :: t, rest)
                  | _, _ => None
                  end
              | _ => None
              end
            else
              match simple_escape e, parse_string_body r1 with
              | Some x, Some (t, rest) => Some (x :: t, rest)
              | _, _ => None
              end
        | [] => None
        end
      else if (c <? 32)%N then None
      else
        match parse_string_body r with
        | Some (t, rest) => Some (c :: t, rest)
        | None => None
        end
  end.

Fixpoint strip_prefix (p s : jsstring) : option jsstring :=
  match p, s with
  | [], _ => Some s
  | a :: p', b :: s' => if (a =? b)%N then strip_prefix p' s' else None
  | _ :: _, [] => None
  end.

Definition parse_keyword (s : jsstring) : option (jsval * jsstring) :=
  match strip_prefix (str "true") s with
  | Some r => Some (JBool true, r)
  | None =>
      match strip_prefix (str "false") s with
      | Some r => Some (JBool false, r)
      | None =>
          match strip_prefix (str "null") s with
          | Some r => Some (JNull, r)
          | None => None
          end
      end
  end.

(** A JSON value at the head of [s], after optional white space.  Each
    recursive call spends one unit of [fuel]. *)
Fixpoint parse_value (fuel : nat) (s : jsstring)
  : option (jsval * jsstring) :=
  match fuel with
  | O => None
  | S f =>
      match skip_ws s with
      | [] => None
      | c :: r =>
          if (c =? ch "{")%N then
            match skip_ws r with
            | d :: r' =>
                if (d =? ch "}")%N then Some (JObj [], r')
                else
                  match parse_members f r with
                  | Some (fs, rest) => Some (JObj fs, rest)
                  | None => None
                  end
            | [] => None
            end
          else if (c =? ch "[")%N then
            match skip_ws r with
            | d :: r' =>
                if (d =? ch "]")%N then Some (JArr [], r')
                else
                  match parse_elements f r with
                  | Some (vs, rest) => Some (JArr vs, rest)
                  | None => None
                  end
            | [] => None
            end
          else if (c =? dquote)%N then
            match parse_string_body r with
            | Some (t, rest) => Some (JStr t, rest)
            | None => None
            end
          else
            match parse_keyword (c :: r) with
            | Some res => Some res
            | None => parse_number (c :: r)
            end
      end
  end

with parse_elements (fuel : nat) (s : jsstring)
  : option (list jsval * jsstring) :=
  match fuel with
  | O => None
  | S f =>
      match parse_value f s with
      | Some (v, r) =>
          match skip_ws r with
          | c :: r' =>
              if (c =? ch ",")%N then
                match parse_elements f r' with
                | Some (vs, rest) => Some (v :: vs, rest)
                | None => None
                end
              else if (c =? ch "]")%N then Some ([v], r')
              else None
          | [] => None
          end
      | None => None
      end
  end

with parse_members (fuel : nat) (s : jsstring)
  : option (list (jsstring * jsval) * jsstring) :=
  match fuel with
  | O => None
  | S f =>
      match skip_ws s with
      | q :: r =>
          if (q =? dquote)%N then
            match parse_string_body r with
            | Some (k, r1) =>
                match skip_ws r1 with
                | c :: r2 =>
                    if (c =? ch ":")%N then
                      match parse_value f r2 with
                      | Some (v, r3) =>
                          match skip_ws r3 with
                          | d :: r4 =>
                              if (d =? ch ",")%N then
                                match parse_members f r4 with
                                | Some (fs, rest) => Some ((k, v) :: fs, rest)
                                | None => None
                                end
                              else if (d =? ch "}")%N then Some ([(k, v)], r4)
                              else None
                          | [] => None
                          end
                      | None => None
                      end
                    else None
                | [] => None
                end
            | None => None
            end
          else None
      | [] => None
      end
  end.

(** Fuel that no text exhausts: a value spends at most two units for
    each code unit it reads (lemma [parse_fuel_enough]). *)
Definition parse_fuel (text : jsstring) : nat := 2 * List.length text + 2.

(** [JSON.parse(text)] *)
Definition JSON_parse (text : jsstring) : exn jsval :=
  match parse_value (parse_fuel text) text with
  | Some (v, rest) =>
      match skip_ws rest with
      | [] => Ok v
      | _ :: _ => Throw (ErrorObj (describe E (JSON_SyntaxError text)))
      end
  | None => Throw (ErrorObj (describe E (JSON_SyntaxError text)))
  end.

(* ================================================================== *)
(** * sealEncryptionService *)
(* ================================================================== *)

Record EncryptionMetadata := {
  originalSize : N;
  encryptionAlgorithm : jsstring;
  timestamp : N
}.

Record EncryptionResult := {
  enc_success : bool;
  encryptedData : option (list byte);
  publicKey : option jsstring;
  secretKey : option jsstring;
  enc_error : option jsstring;
  metadata : option EncryptionMetadata
}.

Record DecryptionResult := {
  dec_success : bool;
  decryptedData : option (list byte);
  dec_error : option jsstring
}.

(** The result of [_generateKeyPair]. *)
Record KeyPairResult := {
  kp_success : bool;
  kp_publicKey : option jsstring;
  kp_secretKey : option jsstring;
  kp_error : option jsstring
}.

(** The result of [_encryptData] and of [_decryptData]:
    [{success, encryptedData?, error?}] and
    [{success, decryptedData?, error?}]. *)
Record DataResult := {
  data_success : bool;
  data_bytes : option (list byte);
  data_error : option jsstring
}.

Definition data_ok (bytes : list byte) : DataResult :=
  {| data_success := true; data_bytes := Some bytes; data_error := None |}.

Definition data_failed (msg : jsstring) : DataResult :=
  {| data_success := false; data_bytes := None; data_error := Some msg |}.

Definition enc_failed (msg : jsstring) : EncryptionResult :=
  {| enc_success := false; encryptedData := None; publicKey := None;
     secretKey := None; enc_error := Some msg; metadata := None |}.

Definition dec_failed (msg : jsstring) : DecryptionResult :=
  {| dec_success := false; decryptedData := None; dec_error := Some msg |}.

(** A template-literal hole holding an optional string. *)
Definition template_opt (o : option jsstring) : jsstring :=
  match o with
  | Some s => s
  | None => str "undefined"
  end.

Inductive seal_library :=
| SealModule
| MockSeal.

(** The fields of the service and the module variable [SealLibrary].
    A stored promise is kept as the outcome it settled with. *)
Record ServiceState := {
  isInitialized : bool;
  initializationPromise : option (exn unit);
  SealLibrary : option seal_library
}.

Definition new_service : ServiceState :=
  {| isInitialized := false; initializationPromise := None;
     SealLibrary := None |}.

(** A time value: milliseconds since the epoch, at most 8.64e15. *)
Record TimeValue := {
  millis : N;
  millis_in_range : (millis <= 8640000000000000)%N
}.

(** A [File]: its name, size and type, and what reading it yields. *)
Record File := {
  file_name : jsstring;
  file_size : N;
  file_type : jsstring;
  arrayBuffer : exn (list byte)
}.

(** What one call takes from its surroundings: the outcome of the
    dynamic import of the Seal module, the clock at each [Date.now()],
    and the base-36 digits of the fraction of [Math.random()]. *)
Record Env := {
  import_seal : exn unit;
  now_keygen : TimeValue;
  random_digits : list N;
  now_encrypt : TimeValue;
  now_result : TimeValue
}.

Definition set_library (l : seal_library) : eff ServiceState unit :=
  fun st =>
    (Ok tt, {| isInitialized := isInitialized st;
               initializationPromise := initializationPromise st;
               SealLibrary := Some l |}).

Definition set_initialized : eff ServiceState unit :=
  fun st =>
    (Ok tt, {| isInitialized := true;
               initializationPromise := initializationPromise st;
               SealLibrary := SealLibrary st |}).

Definition set_promise (p : exn unit) : eff ServiceState unit :=
  fun st =>
    (Ok tt, {| isInitialized := isInitialized st;
               initializationPromise := Some p;
               SealLibrary := SealLibrary st |}).

Definition _initializeSeal (env : Env) : eff ServiceState unit :=
  etry
    (_ <- etry (_ <- elift (import_seal env) ;; set_library SealModule)
               (fun _ => set_library MockSeal) ;;
     set_initialized)%eff
    (fun error =>
       ethrow (ErrorObj (str "Seal initialization failed: "
                         ++ message_or error (str "Unknown error")))).

Definition initialize (env : Env) : eff ServiceState unit :=
  fun st =>
    if isInitialized st then (Ok tt, st)
    else
      match initializationPromise st with
      | Some p => (p, st)
      | None =>
          let (outcome, st1) := _initializeSeal env st in
          let (_, st2) := set_promise outcome st1 in
          (outcome, st2)
      end.

Definition isReady (st : ServiceState) : bool :=
  isInitialized st &&
  match SealLibrary st with Some _ => true | None => false end.

Definition digit36 (d : N) : N :=
  (if d mod 36 <? 10 then ch "0" + d mod 36 else ch "a" + (d mod 36 - 10))%N.

Fixpoint toString36_aux (fuel : nat) (n : N) (acc : jsstring) : jsstring :=
  match fuel with
  | O => acc
  | S f =>
      if (n / 36 =? 0)%N then digit36 n :: acc
      else toString36_aux f (n / 36)%N (digit36 n :: acc)
  end.

(** [n.toString(36)] for a non-negative integer. *)
Definition toString36 (n : N) : jsstring :=
  toString36_aux (S (N.size_nat n)) n [].

(** [Math.random().toString(36)] *)
Definition random_toString36 (digits : list N) : jsstring :=
  match digits with
  | [] => str "0"
  | _ => str "0." ++ map digit36 digits
  end.

Definition substr_from (k : nat) (s : jsstring) : jsstring := skipn k s.

Definition _generateKeyPair (env : Env) : KeyPairResult :=
  try_catch
    (let keyId := toString36 (millis (now_keygen env))
                  ++ substr_from 2 (random_toString36 (random_digits env)) in
     let publicKey := str "seal_public_" ++ keyId in
     let secretKey := str "seal_secret_" ++ keyId in
     Ok {| kp_success := true; kp_publicKey := Some publicKey;
           kp_secretKey := Some secretKey; kp_error := None |})
    (fun error =>
       {| kp_success := false; kp_publicKey := None; kp_secretKey := None;
          kp_error := Some (message_or error (str "Key generation failed")) |}).

(** An optional string as a value: absent is [undefined]. *)
Definition opt_str (o : option jsstring) : jsval :=
  match o with
  | Some s => JStr s
  | None => JUndefined
  end.

Definition num_of_N (n : N) : number := num_of_Z (Z.of_N n).

(** [Array.from(data)] *)
Definition Array_from (data : list byte) : jsval :=
  JArr (map (fun b => JNum (num_of_N (Byte.to_N b))) data).

(** The object [encryptionMetadata] of [_encryptData]: the envelope
    that stands for the cipher text. *)
Definition encryptionMetadata (env : Env) (data : list byte)
  (publicKey : option jsstring) : jsval :=
  JObj [ (str "algorithm", JStr (str "Seal-BFV"));
         (str "publicKey", opt_str publicKey);
         (str "originalSize", JNum (num_of_N (N.of_nat (List.length data))));
         (str "timestamp", JNum (num_of_N (millis (now_encrypt env))));
         (str "encryptedChunks", JArr [Array_from data]) ].

Definition _encryptData (env : Env) (data : list byte)
  (publicKey : option jsstring) : DataResult :=
  try_catch
    (text <- JSON_stringify_checked (encryptionMetadata env data publicKey) ;;
     Ok (data_ok (TextEncoder_encode text)))%exn
    (fun error => data_failed (message_or error (str "Encryption failed"))).

Definition _decryptData (encryptedData : list byte) : DataResult :=
  try_catch
    (let metadataJson := TextDecoder_decode encryptedData in
     metadata <- JSON_parse metadataJson ;;
     chunks <- get metadata (str "encryptedChunks") ;;
     chunk <- get chunks (str "0") ;;
     decryptedData <- Uint8Array_from chunk ;;
     Ok (data_ok decryptedData))%exn
    (fun error => data_failed (message_or error (str "Decryption failed"))).

Definition encryptFile (env : Env) (file : File)
  : eff ServiceState EncryptionResult :=
  etry
    (_ <- initialize env ;;
     fun st =>
       if negb (isReady st)
       then eret (enc_failed (str "Seal encryption service not ready")) st
       else
         (fileData <- elift (arrayBuffer file) ;;
          let keyPair := _generateKeyPair env in
          if negb (kp_success keyPair)
          then eret (enc_failed (str "Failed to generate encryption keys: "
                                 ++ template_opt (kp_error keyPair)))
          else
            let encryptionResult :=
              _encryptData env fileData (kp_publicKey keyPair) in
            if negb (data_success encryptionResult)
            then eret (enc_failed (str "Failed to encrypt file data: "
                                   ++ template_opt (data_error encryptionResult)))
            else
              eret {| enc_success := true;
                      encryptedData := data_bytes encryptionResult;
                      publicKey := kp_publicKey keyPair;
                      secretKey := kp_secretKey keyPair;
                      enc_error := None;
                      metadata :=
                        Some {| originalSize := file_size file;
                                encryptionAlgorithm := str "Seal-BFV";
                                timestamp := millis (now_result env) |} |})%eff
         st)%eff
    (fun error =>
       eret (enc_failed (message_or error (str "Unknown encryption error")))).

Definition decryptFile (env : Env) (encryptedData : list byte)
  (_secretKey : jsstring) : eff ServiceState DecryptionResult :=
  etry
    (_ <- initialize env ;;
     fun st =>
       if negb (isReady st)
       then eret (dec_failed (str "Seal encryption service not ready")) st
       else
         let decryptionResult := _decryptData encryptedData in
         if negb (data_success decryptionResult)
         then eret (dec_failed (str "Failed to decrypt data: "
                                ++ template_opt (data_error decryptionResult))) st
         else
           eret {| dec_success := true;
                   decryptedData := data_bytes decryptionResult;
                   dec_error := None |} st)%eff
    (fun error =>
       eret (dec_failed (message_or error (str "Unknown decryption error")))).

(* ================================================================== *)
(** * accessControlService *)
(* ================================================================== *)

Record AccessControlRule := {
  conditionType : jsstring;
  allowedEmails : option (list jsstring);
  allowedAddresses : option (list jsstring);
  allowedSuiNS : option (list jsstring);
  accessStartTime : option number;
  accessEndTime : option number;
  maxAccessDuration : option number;
  requireAllConditions : option bool;
  maxAccessCount : option number
}.

Record ValidationResult := {
  valid : bool;
  validation_error : option jsstring
}.

Definition invalid (msg : jsstring) : ValidationResult :=
  {| valid := false; validation_error := Some msg |}.

Definition isValidEmail (email : jsstring) : bool :=
  regex_test emailRegex email.

Definition isValidSuiNS (suiNS : jsstring) : bool :=
  regex_test suiNSRegex suiNS
  && (4 <=? List.length suiNS)%nat && (List.length suiNS <=? 64)%nat.

(** Truthiness of an optional number field: absent, NaN and 0 are
    falsy. *)
Definition truthy_field (o : option number) : bool :=
  match o with
  | Some n => truthy_num n
  | None => false
  end.

(** [xs && xs.length > 0] *)
Definition populated (o : option (list jsstring)) : bool :=
  match o with
  | Some (_ :: _) => true
  | _ => false
  end.

Definition field_list (o : option (list jsstring)) : list jsstring :=
  match o with
  | Some l => l
  | None => []
  end.

Definition zero : number := num_of_Z 0.

(** [a && b && a >= b], [a && a <= 0] *)
Definition both_set_and_ge (a b : option number) : bool :=
  match a, b with
  | Some x, Some y => truthy_num x && truthy_num y && num_geb x y
  | _, _ => false
  end.

Definition set_and_not_positive (a : option number) : bool :=
  match a with
  | Some x => truthy_num x && num_leb x zero
  | None => false
  end.

Definition condition_types : list jsstring :=
  [str "email"; str "wallet"; str "time"; str "hybrid"].

Definition validateAccessRule (rule : AccessControlRule) : ValidationResult :=
  if negb (includes condition_types (conditionType rule))
  then invalid (str "Invalid condition type")
  else
  match find (fun email => negb (isValidEmail email))
             (if populated (allowedEmails rule)
              then field_list (allowedEmails rule) else []) with
  | Some email => invalid (str "Invalid email address: " ++ email)
  | None =>
  match find (fun address => negb (isValidSuiAddress address))
             (if populated (allowedAddresses rule)
              then field_list (allowedAddresses rule) else []) with
  | Some address => invalid (str "Invalid Sui address: " ++ address)
  | None =>
  match find (fun suiNS => negb (isValidSuiNS suiNS))
             (if populated (allowedSuiNS rule)
              then field_list (allowedSuiNS rule) else []) with
  | Some suiNS => invalid (str "Invalid SuiNS name: " ++ suiNS)
  | None =>
  if both_set_and_ge (accessStartTime rule) (accessEndTime rule)
  then invalid (str "Access start time must be before end time")
  else if set_and_not_positive (maxAccessDuration rule)
  then invalid (str "Max access duration must be positive")
  else if set_and_not_positive (maxAccessCount rule)
  then invalid (str "Max access count must be positive")
  else if jseqb (conditionType rule) (str "hybrid") then
    let hasEmail := populated (allowedEmails rule) in
    let hasAddress := populated (allowedAddresses rule) in
    let hasTime := truthy_field (accessStartTime rule)
                   || truthy_field (accessEndTime rule)
                   || truthy_field (maxAccessDuration rule) in
    if negb hasEmail && negb hasAddress && negb hasTime
    then invalid (str "Hybrid access control must specify at least one access method")
    else {| valid := true; validation_error := None |}
  else {| valid := true; validation_error := None |}
  end end end.

Record ParsedBulkData := {
  emails : list jsstring;
  addresses : list jsstring;
  suiNSNames : list jsstring;
  errors : list jsstring
}.

Inductive bulk_file_type :=
| csv
| xlsx.

Definition empty_bulk : ParsedBulkData :=
  {| emails := []; addresses := []; suiNSNames := []; errors := [] |}.

(** [if (!xs.includes(x)) xs.push(x)] *)
Definition push_new (xs : list jsstring) (x : jsstring) : list jsstring :=
  if includes xs x then xs else xs ++ [x].

(** The body of the inner [forEach] of [parseBulkData], for one cell of
    the row at position [index]. *)
Definition process_cell (index : nat) (result : ParsedBulkData)
  (cell : jsstring) : ParsedBulkData :=
  let trimmedCell := trim cell in
  if negb (truthy_str trimmedCell) then result
  else if isValidEmail trimmedCell then
    {| emails := push_new (emails result) trimmedCell;
       addresses := addresses result;
       suiNSNames := suiNSNames result;
       errors := errors result |}
  else if isValidSuiAddress trimmedCell then
    {| emails := emails result;
       addresses := push_new (addresses result) trimmedCell;
       suiNSNames := suiNSNames result;
       errors := errors result |}
  else if isValidSuiNS trimmedCell then
    {| emails := emails result;
       addresses := addresses result;
       suiNSNames := push_new (suiNSNames result) trimmedCell;
       errors := errors result |}
  else
    {| emails := emails result;
       addresses := addresses result;
       suiNSNames := suiNSNames result;
       errors := errors result
                 ++ [str "Row " ++ nat_toString (N.of_nat (index + 1))
                     ++ str ": Invalid format - " ++ trimmedCell] |}.

Definition process_row (result : ParsedBulkData) (row : nat * list jsstring)
  : ParsedBulkData :=
  fold_left (process_cell (fst row)) (snd row) result.

Definition line_feed : N := 10.

(** The rows of a CSV text: its lines that are not blank, each split at
    the commas into trimmed cells. *)
Definition csv_rows (content : jsstring) : list (list jsstring) :=
  let lines := filter (fun line => truthy_str (trim line))
                      (split line_feed content) in
  map (fun line => map trim (split (ch ",") line)) lines.

Definition with_index {A : Type} (l : list A) : list (nat * A) :=
  combine (seq 0 (List.length l)) l.

Definition parseBulkData (content : jsstring) (fileType : bulk_file_type)
  : ParsedBulkData :=
  let rows := match fileType with
              | csv => csv_rows content
              | xlsx => []
              end in
  fold_left process_row (with_index rows) empty_bulk.

(* ================================================================== *)
(** * The network *)
(* ================================================================== *)

Inductive RequestBody :=
| NoBody
| FormData (entries : list (jsstring * File)).

Record Request := {
  url : jsstring;
  method : jsstring;
  req_headers : list (jsstring * jsstring);
  body : RequestBody
}.

(** A [Response]: its [ok] flag, what [json()] and [blob()] settle with,
    and [headers.get]. *)
Record Response := {
  ok : bool;
  json : exn jsval;
  blob : exn (list byte);
  headers_get : jsstring -> option jsstring
}.

(** What the backend answers to each request; a rejected fetch is a
    thrown value. *)
Definition Network := Request -> exn Response.

(** [await fetch(...)]: the request is logged and answered. *)
Definition fetch (net : Network) (req : Request) : eff (list Request) Response :=
  fun log => (net req, log ++ [req]).

(* ================================================================== *)
(** * fileService *)
(* ================================================================== *)

Definition API_BASE_URL : jsstring := str "https://backend-96n2.onrender.com".

Record FileMetadata := {
  cid : jsval;
  filename : jsval;
  fileSize : jsval;
  uploadTimestamp : jsval;
  uploader : jsval;
  isOwner : bool;
  contentType : jsval;
  isEncrypted : jsval;
  encryptionKeys : jsval
}.

Record FilesResponse := {
  files_success : bool;
  files : list FileMetadata;
  files_message : option jsstring
}.

Record DeleteResponse := {
  del_success : bool;
  del_message : jsval
}.

Record SharedDownload := {
  dl_success : bool;
  dl_error : option jsstring;
  dl_fileData : option (list byte);
  dl_filename : option jsstring;
  dl_contentType : option jsstring;
  dl_isEncrypted : option bool
}.

(** [if (token)]: [null] and the empty string are falsy. *)
Definition token_truthy (token : option jsstring) : bool :=
  match token with
  | Some t => truthy_str t
  | None => false
  end.

Definition bearer (token : option jsstring) : list (jsstring * jsstring) :=
  match token with
  | Some t => if truthy_str t then [(str "Authorization", str "Bearer " ++ t)]
              else []
  | None => []
  end.

Definition getAuthHeaders (token : option jsstring)
  : list (jsstring * jsstring) :=
  (str "Content-Type", str "application/json") :: bearer token.

(** [v[k1] || v[k2]] *)
Definition get_or (v : jsval) (k1 k2 : jsstring) : exn jsval :=
  (a <- get v k1 ;; if truthy a then Ok a else get v k2)%exn.

(** The callback of [backendFiles.map] in [getUserFiles]; [now] is the
    clock when the element is visited. *)
Definition format_file (now : TimeValue) (file : jsval) : exn FileMetadata :=
  (cid_v <- get_or file (str "cid") (str "fileCid") ;;
   filename_v <- get_or file (str "filename") (str "name") ;;
   fileSize_v <- get_or file (str "fileSize") (str "size") ;;
   stamp <- get_or file (str "uploadTimestamp") (str "timestamp") ;;
   uploader_v <- get file (str "uploader") ;;
   contentType_v <- get file (str "contentType") ;;
   isEncrypted_v <- get file (str "isEncrypted") ;;
   encryptionKeys_v <- get file (str "encryptionKeys") ;;
   Ok {| cid := cid_v;
         filename := filename_v;
         fileSize := fileSize_v;
         uploadTimestamp := js_or stamp (JNum (num_of_N (millis now)));
         uploader := js_or uploader_v (JStr (str "user"));
         isOwner := true;
         contentType := contentType_v;
         isEncrypted := isEncrypted_v;
         encryptionKeys := encryptionKeys_v |})%exn.

Definition elements (v : jsval) : list jsval :=
  match v with
  | JArr l => l
  | _ => []
  end.

(** The request of [getUserFiles]. *)
Definition files_request (token : option jsstring) (useTestMode : bool)
  : Request :=
  {| url := if useTestMode then API_BASE_URL ++ str "/files-test"
            else API_BASE_URL ++ str "/files";
     method := str "GET";
     req_headers := getAuthHeaders token;
     body := NoBody |}.

(** [data.files || data.data || data] *)
Definition backend_files (data : jsval) : exn jsval :=
  (f <- get data (str "files") ;;
   if truthy f then Ok f
   else d <- get data (str "data") ;; Ok (js_or d data))%exn.

Definition getUserFiles (net : Network) (clock : nat -> TimeValue)
  (token : option jsstring) (useTestMode : bool)
  : eff (list Request) FilesResponse :=
  etry
    (response <- fetch net (files_request token useTestMode) ;;
     data <- elift (json response) ;;
     if negb (ok response)
     then elift (m <- get data (str "message") ;;
                 throw_Error (js_or m (JStr (str "Failed to fetch files"))))%exn
     else
       backendFiles <- elift (backend_files data) ;;
       if negb (isArray backendFiles)
       then ethrow (ErrorObj (str "Invalid response format from server"))
       else
         formattedFiles <-
           elift (map_exn (fun ix => format_file (clock (fst ix)) (snd ix))
                          (with_index (elements backendFiles))) ;;
         eret {| files_success := true; files := formattedFiles;
                 files_message := None |})%eff
    (fun error =>
       eret {| files_success := false; files := [];
               files_message :=
                 Some (message_or error (str "Failed to fetch files")) |}).

Record EncryptionKeys := {
  keys_publicKey : option jsstring;
  keys_secretKey : option jsstring
}.

Record EncryptionData := {
  encryptedFile : File;
  data_encryptionKeys : EncryptionKeys
}.

Definition keys_object (k : EncryptionKeys) : jsval :=
  JObj [ (str "publicKey", opt_str (keys_publicKey k));
         (str "secretKey", opt_str (keys_secretKey k)) ].

(** The own enumerable properties that [{...v}] copies. *)
Definition spread (v : jsval) : list (jsstring * jsval) :=
  match v with
  | JObj fs => fs
  | JArr l => map (fun ix => (nat_toString (N.of_nat (fst ix)), snd ix))
                  (with_index l)
  | JStr s => map (fun ix => (nat_toString (N.of_nat (fst ix)), JStr [snd ix]))
                  (with_index s)
  | _ => []
  end.

(** [v[key] = x] on an object. *)
Definition assign (v : jsval) (key : jsstring) (x : jsval) : jsval :=
  match v with
  | JObj fs => JObj (fs ++ [(key, x)])
  | _ => v
  end.

Definition failure_object (msg : jsstring) : jsval :=
  JObj [ (str "success", JBool false); (str "message", JStr msg) ].

(** The request of [uploadFile]: the file to upload in a form, under
    the key [file]. *)
Definition upload_request (fileToUpload : File) (token : option jsstring)
  (useTestMode : bool) : Request :=
  {| url := if useTestMode then API_BASE_URL ++ str "/file/upload-test"
            else API_BASE_URL ++ str "/file/upload";
     method := str "POST";
     req_headers := bearer token;
     body := FormData [(str "file", fileToUpload)] |}.

Definition uploadFile (net : Network) (file : File) (token : option jsstring)
  (useTestMode : bool) (encryptionData : option EncryptionData)
  : eff (list Request) jsval :=
  etry
    (let fileToUpload := match encryptionData with
                         | Some d => encryptedFile d
                         | None => file
                         end in
     response <- fetch net (upload_request fileToUpload token useTestMode) ;;
     result <- elift (json response) ;;
     if negb (ok response)
     then elift (m <- get result (str "message") ;;
                 throw_Error (js_or m (JStr (str "Upload failed"))))%exn
     else
       match encryptionData with
       | Some d =>
           data <- elift (get result (str "data")) ;;
           if truthy data
           then eret (assign result (str "data")
                        (JObj (spread data
                               ++ [ (str "encryptionKeys",
                                     keys_object (data_encryptionKeys d));
                                    (str "isEncrypted", JBool true) ])))
           else eret result
       | None => eret result
       end)%eff
    (fun error =>
       eret (failure_object (message_or error (str "Upload failed")))).

Definition clearUserFiles (net : Network) (token : option jsstring)
  (useTestMode : bool) : eff (list Request) DeleteResponse :=
  etry
    (if negb (token_truthy token) && negb useTestMode
     then ethrow (ErrorObj (str "Authentication required to delete files"))
     else
       let endpoint := if useTestMode then API_BASE_URL ++ str "/files-test"
                       else API_BASE_URL ++ str "/files" in
       let headers := getAuthHeaders token in
       response <- fetch net {| url := endpoint; method := str "DELETE";
                                req_headers := headers; body := NoBody |} ;;
       data <- elift (json response) ;;
       if negb (ok response)
       then elift (m <- get data (str "message") ;;
                   throw_Error (js_or m (JStr (str "Failed to delete files"))))%exn
       else
         m <- elift (get data (str "message")) ;;
         eret {| del_success := true;
                 del_message :=
                   js_or m (JStr (str "Files deleted successfully")) |})%eff
    (fun error =>
       eret {| del_success := false;
               del_message :=
                 JStr (message_or error (str "Failed to delete files")) |}).

Definition deleteFile (net : Network) (cid : jsstring)
  (token : option jsstring) (useTestMode : bool)
  : eff (list Request) DeleteResponse :=
  etry
    (if negb (token_truthy token) && negb useTestMode
     then ethrow (ErrorObj (str "Authentication required to delete file"))
     else
       let endpoint :=
         if useTestMode
         then API_BASE_URL ++ str "/file/" ++ cid ++ str "/delete-test"
         else API_BASE_URL ++ str "/file/" ++ cid ++ str "/delete" in
       let headers := getAuthHeaders token in
       response <- fetch net {| url := endpoint; method := str "DELETE";
                                req_headers := headers; body := NoBody |} ;;
       data <- elift (json response) ;;
       if negb (ok response)
       then elift (m <- get data (str "message") ;;
                   throw_Error (js_or m (JStr (str "Failed to delete file"))))%exn
       else
         m <- elift (get data (str "message")) ;;
         eret {| del_success := true;
                 del_message :=
                   js_or m (JStr (str "File deleted successfully")) |})%eff
    (fun error =>
       eret {| del_success := false;
               del_message :=
                 JStr (message_or error (str "Failed to delete file")) |}).

(** [.]: any code unit but a line terminator. *)
Definition dot (c : N) : bool := negb (is_line_terminator c).

Fixpoint take_while (p : N -> bool) (s : jsstring) : jsstring :=
  match s with
  | c :: r => if p c then c :: take_while p r else []
  | [] => []
  end.

(** The longest [t] such that [t] followed by a double quote is a
    prefix of [run]. *)
Fixpoint up_to_last_quote (run : jsstring) : option jsstring :=
  match run with
  | [] => None
  | c :: r =>
      match up_to_last_quote r with
      | Some t => Some (c :: t)
      | None => if (c =? dquote)%N then Some [] else None
      end
  end.

Definition filename_prefix : jsstring := str "filename=" ++ [dquote].

(** A match of [/filename="(.+)"/] that starts at the head of [s]: the
    capture of the greedy group. *)
Definition filename_match_here (s : jsstring) : option jsstring :=
  match strip_prefix filename_prefix s with
  | Some rest =>
      match up_to_last_quote (take_while dot rest) with
      | Some (c :: t) => Some (c :: t)
      | _ => None
      end
  | None => None
  end.

(** [s.match(/filename="(.+)"/)]: group 1 of the leftmost match. *)
Fixpoint filename_match (s : jsstring) : option jsstring :=
  match filename_match_here s with
  | Some c => Some c
  | None =>
      match s with
      | [] => None
      | _ :: r => filename_match r
      end
  end.

(** The request of [downloadSharedFile]. *)
Definition download_request (shareId : jsstring) (token : option jsstring)
  : Request :=
  {| url := API_BASE_URL ++ str "/file/shared/" ++ shareId ++ str "/download";
     method := str "GET";
     req_headers := bearer token;
     body := NoBody |}.

Definition downloadSharedFile (net : Network) (shareId : jsstring)
  (token : option jsstring) : eff (list Request) SharedDownload :=
  etry
    (downloadResponse <- fetch net (download_request shareId token) ;;
     if negb (ok downloadResponse)
     then
       let errorData := try_catch (json downloadResponse)
                                  (fun _ => JObj []) in
       elift (m <- get errorData (str "message") ;;
              throw_Error (js_or m (JStr (str "Failed to download shared file"))))%exn
     else
       fileData <- elift (blob downloadResponse) ;;
       let contentDisposition :=
         headers_get downloadResponse (str "Content-Disposition") in
       let filename :=
         match contentDisposition with
         | Some h =>
             if truthy_str h then
               match filename_match h with
               | Some capture => capture
               | None => str "shared-file"
               end
             else str "shared-file"
         | None => str "shared-file"
         end in
       let contentType :=
         match headers_get downloadResponse (str "Content-Type") with
         | Some t => if truthy_str t then t
                     else str "application/octet-stream"
         | None => str "application/octet-stream"
         end in
       let isEncrypted :=
         match headers_get downloadResponse (str "X-File-Encrypted") with
         | Some v => jseqb v (str "true")
         | None => false
         end in
       eret {| dl_success := true; dl_error := None;
               dl_fileData := Some fileData;
               dl_filename := Some filename;
               dl_contentType := Some contentType;
               dl_isEncrypted := Some isEncrypted |})%eff
    (fun error =>
       eret {| dl_success := false;
               dl_error :=
                 Some (message_or error (str "Failed to download shared file"));
               dl_fileData := None; dl_filename := None;
               dl_contentType := None; dl_isEncrypted := None |}).

(* ================================================================== *)
(** * FileUpload: uploadSingleFile *)
(* ================================================================== *)

Record AttachedFile := {
  af_id : jsstring;
  af_name : jsstring;
  af_size : N;
  af_type : jsstring;
  af_file : File
}.

(** What the component closes over: the authentication context, the
    [isReady] flag of the encryption hook's state, and the hook's
    [encryptFile], given by what a call on a file settles with. *)
Record UploadContext := {
  useTestMode : bool;
  isAuthenticated : bool;
  token : option jsstring;
  encryptionState_isReady : bool;
  hook_encryptFile : File -> exn EncryptionResult
}.

(** The bytes of [new Blob([data])]; an absent part is converted to the
    string [undefined]. *)
Definition blob_bytes (data : option (list byte)) : list byte :=
  match data with
  | Some d => d
  | None => TextEncoder_encode (str "undefined")
  end.

Definition octet_stream : jsstring := str "application/octet-stream".

(** [new File([blob], name, {type})] *)
Definition new_File (bytes : list byte) (name type : jsstring) : File :=
  {| file_name := name; file_size := N.of_nat (List.length bytes);
     file_type := type; arrayBuffer := Ok bytes |}.

(** The locals [fileToUpload], [encryptionKeys] and [isEncrypted] after
    the encryption attempt. *)
Record Prepared := {
  fileToUpload : File;
  prepared_keys : option EncryptionKeys;
  prepared_isEncrypted : bool
}.

Definition unencrypted (attachedFile : AttachedFile) : Prepared :=
  {| fileToUpload := af_file attachedFile; prepared_keys := None;
     prepared_isEncrypted := false |}.

Definition prepare_upload (ctx : UploadContext) (attachedFile : AttachedFile)
  : Prepared :=
  if encryptionState_isReady ctx then
    try_catch
      (encryptionResult <- hook_encryptFile ctx (af_file attachedFile) ;;
       if enc_success encryptionResult then
         Ok {| fileToUpload :=
                 new_File (blob_bytes (encryptedData encryptionResult))
                          (file_name (af_file attachedFile) ++ str ".encrypted")
                          octet_stream;
               prepared_keys :=
                 Some {| keys_publicKey := publicKey encryptionResult;
                         keys_secretKey := secretKey encryptionResult |};
               prepared_isEncrypted := true |}
       else Ok (unencrypted attachedFile))%exn
      (fun _ => unencrypted attachedFile)
  else unencrypted attachedFile.

Definition encryption_data (p : Prepared) : option EncryptionData :=
  if prepared_isEncrypted p then
    match prepared_keys p with
    | Some keys => Some {| encryptedFile := fileToUpload p;
                           data_encryptionKeys := keys |}
    | None => None
    end
  else None.

Definition uploadSingleFile (ctx : UploadContext) (net : Network)
  (attachedFile : AttachedFile) : eff (list Request) jsval :=
  if negb (useTestMode ctx) && negb (isAuthenticated ctx)
  then ethrow (ErrorObj (str "Please log in to upload files"))
  else
    etry
      (let prepared := prepare_upload ctx attachedFile in
       let encryptionData := encryption_data prepared in
       result <- uploadFile net (af_file attachedFile) (token ctx)
                            (useTestMode ctx) encryptionData ;;
       elift (success <- get result (str "success") ;;
              if negb (truthy success)
              then m <- get result (str "message") ;;
                   throw_Error (js_or m (JStr (str "Upload failed")))
              else Ok result)%exn)%eff
      (fun error =>
         eret (failure_object (message_or error (str "Upload failed")))).

(* ================================================================== *)
(** * The vocabulary of the specification *)
(* ================================================================== *)

(** [hay.includes(needle)] *)
Fixpoint contains (needle hay : jsstring) : bool :=
  match strip_prefix needle hay with
  | Some _ => true
  | None =>
      match hay with
      | [] => false
      | _ :: r => contains needle r
      end
  end.

Definition jsstring_eq_dec : forall a b : jsstring, {a = b} + {a <> b} :=
  list_eq_dec N.eq_dec.

(** The cells of a CSV text that [parseBulkData] classifies: trimmed
    and not empty, in reading order. *)
Definition cell_tokens (content : jsstring) : list jsstring :=
  filter truthy_str (map trim (List.concat (csv_rows content))).

Definition occurrences (t : jsstring) (l : list jsstring) : nat :=
  count_occ jsstring_eq_dec l t.

(** An email as the specification reads the pattern: a local part, an
    at sign, a domain, a full stop and a last label, none empty and none
    holding white space or an at sign. *)
Definition email_shape (s : jsstring) : Prop :=
  exists local domain label,
    s = local ++ str "@" ++ domain ++ str "." ++ label
    /\ local <> [] /\ domain <> [] /\ label <> []
    /\ Forall (fun c => not_space_at c = true) (local ++ domain ++ label).

(** A SuiNS name as the specification reads the pattern: a label of two
    or more letters, digits and inner hyphens, and the suffix [.sui]. *)
Definition suins_shape (s : jsstring) : Prop :=
  exists first middle last,
    s = first :: middle ++ last :: str ".sui"
    /\ is_alnum first = true /\ is_alnum last = true
    /\ Forall (fun c => is_alnum_dash c = true) middle.

(** The numeric fields of a rule that are present are numbers other
    than 0 and NaN. *)
Definition set_field (o : option number) : Prop :=
  match o with
  | Some n => truthy_num n = true
  | None => True
  end.

Definition numeric_fields_set (rule : AccessControlRule) : Prop :=
  set_field (accessStartTime rule) /\ set_field (accessEndTime rule)
  /\ set_field (maxAccessDuration rule) /\ set_field (maxAccessCount rule).

(** The hybrid rule names no email, no address and no time bound. *)
Definition no_condition_family (rule : AccessControlRule) : Prop :=
  field_list (allowedEmails rule) = []
  /\ field_list (allowedAddresses rule) = []
  /\ accessStartTime rule = None /\ accessEndTime rule = None
  /\ maxAccessDuration rule = None.

(** The violations that the specification lists, with the SuiNS clause
    as the specification words it: a length outside 4..64, or no [.sui]
    suffix. *)
Definition listed_violation (rule : AccessControlRule) : Prop :=
  ~ In (conditionType rule) condition_types
  \/ Exists (fun e => isValidEmail e = false) (field_list (allowedEmails rule))
  \/ Exists (fun a => isValidSuiAddress a = false)
            (field_list (allowedAddresses rule))
  \/ Exists (fun n => (List.length n < 4)%nat \/ (64 < List.length n)%nat
                      \/ ~ (exists p, n = p ++ str ".sui"))
            (field_list (allowedSuiNS rule))
  \/ (exists s e, accessStartTime rule = Some s /\ accessEndTime rule = Some e
                  /\ num_geb s e = true)
  \/ (exists d, maxAccessDuration rule = Some d /\ num_leb d zero = true)
  \/ (exists c, maxAccessCount rule = Some c /\ num_leb c zero = true)
  \/ (conditionType rule = str "hybrid" /\ no_condition_family rule).

(** The same list with the SuiNS clause as the service checks it: a
    name that is not of the SuiNS shape or is longer than 64. *)
Definition rule_violation (rule : AccessControlRule) : Prop :=
  ~ In (conditionType rule) condition_types
  \/ Exists (fun e => isValidEmail e = false) (field_list (allowedEmails rule))
  \/ Exists (fun a => isValidSuiAddress a = false)
            (field_list (allowedAddresses rule))
  \/ Exists (fun n => ~ suins_shape n \/ (64 < List.length n)%nat)
            (field_list (allowedSuiNS rule))
  \/ (exists s e, accessStartTime rule = Some s /\ accessEndTime rule = Some e
                  /\ num_geb s e = true)
  \/ (exists d, maxAccessDuration rule = Some d /\ num_leb d zero = true)
  \/ (exists c, maxAccessCount rule = Some c /\ num_leb c zero = true)
  \/ (conditionType rule = str "hybrid" /\ no_condition_family rule).

(** [h] holds a match of [/filename="(.+)"/] after [before], with
    [capture] as the group. *)
Definition filename_match_at (h before capture : jsstring) : Prop :=
  capture <> []
  /\ Forall (fun c => dot c = true) capture
  /\ exists rest, h = before ++ filename_prefix ++ capture ++ dquote :: rest.

(** [capture] is group 1 of the first match: no match starts earlier,
    and at that start the greedy group is the longest one. *)
Definition first_filename_match (h capture : jsstring) : Prop :=
  exists before,
    filename_match_at h before capture
    /\ (forall before' capture',
          filename_match_at h before' capture' ->
          (List.length before <= List.length before')%nat)
    /\ (forall capture',
          filename_match_at h before capture' ->
          (List.length capture' <= List.length capture)%nat).

Definition no_filename_match (h : jsstring) : Prop :=
  forall before capture, ~ filename_match_at h before capture.

(** The encryption attempt of [uploadSingleFile] fails: the hook's
    [encryptFile] throws or reports no success. *)
Definition encryption_fails (ctx : UploadContext) (file : File) : Prop :=
  match hook_encryptFile ctx file with
  | Ok r => enc_success r = false
  | Throw _ => True
  end.

(** An encryption result is a success, or a failure reported as
    [{success: false, error}]. *)
Definition enc_reported (r : EncryptionResult) : Prop :=
  enc_success r = true \/ exists msg, r = enc_failed msg.

Definition dec_reported (r : DecryptionResult) : Prop :=
  dec_success r = true \/ exists msg, r = dec_failed msg.

(** The body of the list response of the specification's scenario:
    [{data: [{fileCid: "x", name: "a.txt", size: 10}]}]. *)
Definition scenario_list_body : jsval :=
  JObj [ (str "data",
          JArr [ JObj [ (str "fileCid", JStr (str "x"));
                        (str "name", JStr (str "a.txt"));
                        (str "size", JNum (num_of_Z 10)) ] ]) ].

(** The characters of a valid Sui address: hexadecimal digits and the
    [x] of the prefix. *)
Definition is_address_char (c : N) : bool :=
  is_hex c || (c =? ch "x")%N || (c =? ch "X")%N.

(** What one cell does to one of the three output arrays: the cell's
    token is pushed when it is selected and not yet there. *)
Definition collect (sel : jsstring -> bool) (acc : list jsstring)
  (cell : jsstring) : list jsstring :=
  if truthy_str (trim cell) && sel (trim cell)
  then push_new acc (trim cell) else acc.

(** The selections of the three arrays, in the order of the tests of
    [parseBulkData]. *)
Definition selects_email (t : jsstring) : bool := isValidEmail t.

Definition selects_address (t : jsstring) : bool :=
  negb (isValidEmail t) && isValidSuiAddress t.

Definition selects_suiNS (t : jsstring) : bool :=
  negb (isValidEmail t) && negb (isValidSuiAddress t) && isValidSuiNS t.

(** A code unit that [JSON.stringify] copies into a string literal as
    it is, in one byte of UTF-8. *)
Definition plain_char (c : N) : bool :=
  ((32 <=? c) && (c <? 127) && negb (c =? dquote) && negb (c =? backslash))%N.

(** What may follow a number in a JSON text: a comma or a closing
    bracket. *)
Definition ends_value (rest : jsstring) : Prop :=
  exists c r, rest = c :: r /\ (c = ch "," \/ c = ch "]" \/ c = ch "}").

Definition is_digit (c : N) : bool := in_range "0" "9" c.

(** The numbers of an array of naturals, and their text between the
    brackets. *)
Definition json_numbers (ns : list N) : list jsval :=
  map (fun n => JNum (num_of_N n)) ns.

Definition numbers_text (ns : list N) : jsstring :=
  join (str ",") (map nat_toString ns).

(** The text of one member of an object, followed by [rest]. *)
Definition member_text (key value_text rest : jsstring) : jsstring :=
  dquote :: key ++ dquote :: ch ":" :: value_text ++ rest.

Definition string_text (s : jsstring) : jsstring := dquote :: s ++ [dquote].

Definition bytes_values (data : list byte) : list N := map Byte.to_N data.

(** The text of the envelope of [_encryptData]. *)
Definition envelope_text (env : Env) (data : list byte) (pk : jsstring)
  : jsstring :=
  ch "{" ::
  member_text (str "algorithm") (string_text (str "Seal-BFV")) (ch "," ::
  member_text (str "publicKey") (string_text pk) (ch "," ::
  member_text (str "originalSize")
              (nat_toString (N.of_nat (List.length data))) (ch "," ::
  member_text (str "timestamp")
              (nat_toString (millis (now_encrypt env))) (ch "," ::
  member_text (str "encryptedChunks")
              (ch "[" :: ch "[" :: numbers_text (bytes_values data)
               ++ [ch "]"; ch "]"])
              [ch "}"])))).

(** A text of code units below 128, which UTF-8 writes one byte
    each. *)
Definition ascii_text (s : jsstring) : Prop :=
  Forall (fun c => (c < 128)%N) s.

(* ================================================================== *)
(** * Concrete inputs *)
(* ================================================================== *)

Definition time_value (n : N) (H : (n <=? 8640000000000000)%N = true)
  : TimeValue :=
  {| millis := n; millis_in_range := proj1 (N.leb_le _ _) H |}.

(** A call in which the Seal module fails to load, so that the mock
    library is used. *)
Definition sample_env : Env :=
  {| import_seal := Throw (ErrorObj (str "Failed to resolve module specifier"));
     now_keygen := time_value 1700000000000 eq_refl;
     random_digits := [4; 15; 35; 0; 22]%N;
     now_encrypt := time_value 1700000000001 eq_refl;
     now_result := time_value 1700000000002 eq_refl |}.

(** The UTF-8 bytes of "Hi", a space and U+1F510, a code point of four
    bytes. *)
Definition sample_data : list byte :=
  [x48; x69; x20; xf0; x9f; x94; x90].

Definition sample_file : File :=
  {| file_name := str "note.txt"; file_size := 7;
     file_type := str "text/plain"; arrayBuffer := Ok sample_data |}.

Definition sample_attached : AttachedFile :=
  {| af_id := str "1700000000000-0"; af_name := str "note.txt";
     af_size := 7; af_type := str "text/plain"; af_file := sample_file |}.

Definition no_headers : jsstring -> option jsstring := fun _ => None.

(** A backend that answers every request with 200 and the body of the
    list scenario. *)
Definition scenario_response : Response :=
  {| ok := true; json := Ok scenario_list_body; blob := Ok [];
     headers_get := no_headers |}.

(** A download whose Content-Disposition names two files. *)
Definition sample_disposition : jsstring :=
  str "attachment; " ++ filename_prefix ++ str "a.txt" ++ [dquote]
  ++ str "; x=" ++ [dquote] ++ str "b" ++ [dquote].

Definition sample_download : Response :=
  {| ok := true; json := Throw NonError; blob := Ok sample_data;
     headers_get := fun name =>
       if jseqb name (str "Content-Disposition") then Some sample_disposition
       else if jseqb name (str "X-File-Encrypted") then Some (str "true")
       else None |}.

(** An upload reply that itself carries [isEncrypted]. *)
Definition flagged_reply : jsval :=
  JObj [ (str "success", JBool true);
         (str "data", JObj [ (str "fileCid", JStr (str "x"));
                             (str "isEncrypted", JBool true) ]);
         (str "message", JStr (str "ok")) ].

Definition flagged_response : Response :=
  {| ok := true; json := Ok flagged_reply; blob := Ok [];
     headers_get := no_headers |}.

(** The component with an adapter that is not ready: signed out, and
    signed in. *)
Definition signed_out_context : UploadContext :=
  {| useTestMode := false; isAuthenticated := false; token := None;
     encryptionState_isReady := false;
     hook_encryptFile := fun _ =>
       Ok (enc_failed (str "Encryption service not ready. Please wait for initialization.")) |}.

Definition signed_in_context : UploadContext :=
  {| useTestMode := false; isAuthenticated := true;
     token := Some (str "jwt");
     encryptionState_isReady := false;
     hook_encryptFile := fun _ =>
       Ok (enc_failed (str "Encryption service not ready. Please wait for initialization.")) |}.

(** A wallet rule whose SuiNS name has the suffix and a length within
    4..64, but an underscore in its label. *)
Definition underscore_rule : AccessControlRule :=
  {| conditionType := str "wallet"; allowedEmails := None;
     allowedAddresses := None; allowedSuiNS := Some [str "a_b.sui"];
     accessStartTime := None; accessEndTime := None;
     maxAccessDuration := None; requireAllConditions := None;
     maxAccessCount := None |}.

(** An email rule with a duration of zero. *)
Definition zero_duration_rule : AccessControlRule :=
  {| conditionType := str "email"; allowedEmails := Some [str "a@b.co"];
     allowedAddresses := None; allowedSuiNS := None;
     accessStartTime := None; accessEndTime := None;
     maxAccessDuration := Some zero; requireAllConditions := None;
     maxAccessCount := None |}.

(** A hybrid rule with a time window that ends before it starts. *)
Definition reversed_window_rule : AccessControlRule :=
  {| conditionType := str "hybrid"; allowedEmails := None;
     allowedAddresses := None; allowedSuiNS := None;
     accessStartTime := Some (num_of_Z 2000);
     accessEndTime := Some (num_of_Z 1000);
     maxAccessDuration := None; requireAllConditions := None;
     maxAccessCount := None |}.

(** A CSV text that names an email twice, a SuiNS name twice and an
    address twice. *)
Definition sample_address : jsstring :=
  str "0x" ++ repeat (ch "a") 64.

Definition sample_csv : jsstring :=
  str "a@b.co, ab.sui ," ++ sample_address
  ++ [line_feed] ++ str " ab.sui,a@b.co,oops," ++ sample_address.

(** What a successful run of each parser consumes, and the fuel that
    repeats it. *)
Definition value_bound (fuel : nat) : Prop :=
  forall s v r,
    parse_value fuel s = Some (v, r) ->
    (List.length r < List.length s)%nat
    /\ forall fuel',
         (2 * (List.length s - List.length r) <= S fuel')%nat ->
         parse_value fuel' s = Some (v, r).

Definition elements_bound (fuel : nat) : Prop :=
  forall s vs r,
    parse_elements fuel s = Some (vs, r) ->
    (List.length r < List.length s)%nat
    /\ forall fuel',
         (2 * (List.length s - List.length r) <= fuel')%nat ->
         parse_elements fuel' s = Some (vs, r).

Definition members_bound (fuel : nat) : Prop :=
  forall s fs r,
    parse_members fuel s = Some (fs, r) ->
    (List.length r < List.length s)%nat
    /\ forall fuel',
         (2 * (List.length s - List.length r) <= fuel')%nat ->
         parse_members fuel' s = Some (fs, r).



(** A line that [parseBulkData] drops: it holds no line feed and
    nothing but white space. *)
Definition blank_line (line : jsstring) : Prop :=
  ~ In line_feed line /\ trim line = [].



(** The failure that [downloadSharedFile] returns. *)
Definition download_failed (msg : jsstring) : SharedDownload :=
  {| dl_success := false; dl_error := Some msg; dl_fileData := None;
     dl_filename := None; dl_contentType := None; dl_isEncrypted := None |}.

(** A value whose properties can be read: neither [null] nor
    [undefined]. *)
Definition not_nullish (v : jsval) : Prop := v <> JNull /\ v <> JUndefined.

(** [getStatus] *)
Record ServiceStatus := {
  status_isInitialized : bool;
  status_isReady : bool;
  status_libraryLoaded : bool
}.

Definition getStatus (st : ServiceState) : ServiceStatus :=
  {| status_isInitialized := isInitialized st;
     status_isReady := isReady st;
     status_libraryLoaded :=
       match SealLibrary st with Some _ => true | None => false end |}.

(** The states that the service reaches from its creation by calls of
    its public methods, each call run to its end before the next. *)
Inductive reachable : ServiceState -> Prop :=
| reach_new : reachable new_service
| reach_initialize env st r st' :
    reachable st -> initialize env st = (r, st') -> reachable st'
| reach_encryptFile env file st r st' :
    reachable st -> encryptFile env file st = (r, st') -> reachable st'
| reach_decryptFile env bytes key st r st' :
    reachable st -> decryptFile env bytes key st = (r, st') -> reachable st'.

(** The key identifier of [_generateKeyPair]. *)
Definition keyId (env : Env) : jsstring :=
  toString36 (millis (now_keygen env))
  ++ substr_from 2 (random_toString36 (random_digits env)).

(** An envelope that holds nothing but the chunk:
    [{"encryptedChunks":[[n1,...,nk]]}]. *)
Definition bare_envelope_text (ns : list N) : jsstring :=
  ch "{" ::
  member_text (str "encryptedChunks")
              (ch "[" :: ch "[" :: numbers_text ns ++ [ch "]"; ch "]"])
              [ch "}"].







(* ------------------------------------------------------------------ *)
(** encryptionTestUtils *)








(* ------------------------------------------------------------------ *)
(** useSealEncryption *)

(** The state of the hook; [error] is a string or [null]. *)
Record EncryptionState := {
  state_isInitializing : bool;
  state_isReady : bool;
  state_isEncrypting : bool;
  state_isDecrypting : bool;
  state_error : option jsstring
}.

Definition initial_state : EncryptionState :=
  {| state_isInitializing := false; state_isReady := false;
     state_isEncrypting := false; state_isDecrypting := false;
     state_error := None |}.

(** What a callback of the hook runs on: the state of the hook as the
    last update left it, and the service, which all components
    share. *)
Record HookWorld := {
  hook_state : EncryptionState;
  service_state : ServiceState
}.

(** [setState(prev => ...)] *)
Definition setState (update : EncryptionState -> EncryptionState)
  : eff HookWorld unit :=
  fun w => (Ok tt, {| hook_state := update (hook_state w);
                      service_state := service_state w |}).

(** A call of a method of [sealEncryptionService]. *)
Definition on_service {A : Type} (m : eff ServiceState A) : eff HookWorld A :=
  fun w =>
    let (r, st) := m (service_state w) in
    (r, {| hook_state := hook_state w; service_state := st |}).

(** [try { body } finally { cleanup }] *)
Definition efinally {S A : Type} (body : eff S A) (cleanup : eff S unit)
  : eff S A :=
  fun s =>
    let (r, s1) := body s in
    match cleanup s1 with
    | (Ok _, s2) => (r, s2)
    | (Throw e, s2) => (Throw e, s2)
    end.

(** [o || dflt] for an optional string. *)
Definition or_default (o : option jsstring) (dflt : jsstring) : jsstring :=
  match o with
  | Some s => if truthy_str s then s else dflt
  | None => dflt
  end.

Definition not_ready_message : jsstring :=
  str "Encryption service not ready. Please wait for initialization.".

(** [initializeService]; [state] is the state that the callback has
    closed over. *)
Definition initializeService (env : Env) (state : EncryptionState)
  : eff HookWorld unit :=
  if state_isReady state || state_isInitializing state then eret tt
  else
    (_ <- setState (fun prev =>
                      {| state_isInitializing := true;
                         state_isReady := state_isReady prev;
                         state_isEncrypting := state_isEncrypting prev;
                         state_isDecrypting := state_isDecrypting prev;
                         state_error := None |}) ;;
     etry
       (_ <- on_service (initialize env) ;;
        fun w =>
          setState (fun prev =>
                      {| state_isInitializing := false;
                         state_isReady := isReady (service_state w);
                         state_isEncrypting := state_isEncrypting prev;
                         state_isDecrypting := state_isDecrypting prev;
                         state_error := state_error prev |}) w)
       (fun error =>
          setState (fun prev =>
                      {| state_isInitializing := false;
                         state_isReady := false;
                         state_isEncrypting := state_isEncrypting prev;
                         state_isDecrypting := state_isDecrypting prev;
                         state_error :=
                           Some (message_or error
                                   (str "Failed to initialize encryption service"))
                      |})))%eff.

Definition set_error (msg : option jsstring) (prev : EncryptionState)
  : EncryptionState :=
  {| state_isInitializing := state_isInitializing prev;
     state_isReady := state_isReady prev;
     state_isEncrypting := state_isEncrypting prev;
     state_isDecrypting := state_isDecrypting prev;
     state_error := msg |}.

Definition set_encrypting (b : bool) (prev : EncryptionState)
  : EncryptionState :=
  {| state_isInitializing := state_isInitializing prev;
     state_isReady := state_isReady prev;
     state_isEncrypting := b;
     state_isDecrypting := state_isDecrypting prev;
     state_error := state_error prev |}.

Definition set_decrypting (b : bool) (prev : EncryptionState)
  : EncryptionState :=
  {| state_isInitializing := state_isInitializing prev;
     state_isReady := state_isReady prev;
     state_isEncrypting := state_isEncrypting prev;
     state_isDecrypting := b;
     state_error := state_error prev |}.

(** The [encryptFile] of the hook. *)
Definition useSealEncryption_encryptFile (env : Env) (state : EncryptionState)
  (file : File) : eff HookWorld EncryptionResult :=
  if negb (state_isReady state) then eret (enc_failed not_ready_message)
  else
    (_ <- setState (fun prev => set_error None (set_encrypting true prev)) ;;
     efinally
       (etry
          (result <- on_service (encryptFile env file) ;;
           _ <- (if negb (enc_success result)
                 then setState (set_error
                                  (Some (or_default (enc_error result)
                                           (str "Encryption failed"))))
                 else eret tt) ;;
           eret result)
          (fun error =>
             let errorMessage := message_or error (str "Encryption failed") in
             _ <- setState (set_error (Some errorMessage)) ;;
             eret (enc_failed errorMessage)))
       (setState (set_encrypting false)))%eff.

(** The [decryptFile] of the hook. *)
Definition useSealEncryption_decryptFile (env : Env) (state : EncryptionState)
  (encryptedData : list byte) (secretKey : jsstring)
  : eff HookWorld DecryptionResult :=
  if negb (state_isReady state) then eret (dec_failed not_ready_message)
  else
    (_ <- setState (fun prev => set_error None (set_decrypting true prev)) ;;
     efinally
       (etry
          (result <- on_service (decryptFile env encryptedData secretKey) ;;
           _ <- (if negb (dec_success result)
                 then setState (set_error
                                  (Some (or_default (dec_error result)
                                           (str "Decryption failed"))))
                 else eret tt) ;;
           eret result)
          (fun error =>
             let errorMessage := message_or error (str "Decryption failed") in
             _ <- setState (set_error (Some errorMessage)) ;;
             eret (dec_failed errorMessage)))
       (setState (set_decrypting false)))%eff.

(** [clearError] *)
Definition clearError : eff HookWorld unit := setState (set_error None).

(** The context of [uploadSingleFile] in a component that uses the
    hook: the hook's [encryptFile] is the callback of the render whose
    state is [state], run on the world [w]. *)
Definition component_context (mode authenticated : bool)
  (tok : option jsstring) (env : Env) (state : EncryptionState)
  (w : HookWorld) : UploadContext :=
  {| useTestMode := mode; isAuthenticated := authenticated; token := tok;
     encryptionState_isReady := state_isReady state;
     hook_encryptFile := fun file =>
       fst (useSealEncryption_encryptFile env state file w) |}.

(* ------------------------------------------------------------------ *)
(** accessControlService: the calls of the backend *)

(** The constant [API_BASE_URL] of the access control service, which
    is not the one of the file service. *)
Definition ACCESS_API_BASE_URL : jsstring := str "http://localhost:3000".

(** A request whose body, if any, is a JSON text. *)
Record ApiRequest := {
  api_url : jsstring;
  api_method : jsstring;
  api_headers : list (jsstring * jsstring);
  api_body : option jsstring
}.

Definition ApiNetwork := ApiRequest -> exn Response.

Definition api_fetch (net : ApiNetwork) (req : ApiRequest)
  : eff (list ApiRequest) Response :=
  fun log => (net req, log ++ [req]).


(** [v.data?.key] *)
Definition data_field (v : jsval) (key : jsstring) : exn jsval :=
  (d <- get v (str "data") ;;
   match d with
   | JUndefined | JNull => Ok JUndefined
   | _ => get d key
   end)%exn.

(** The results of the service: [{success, data?, message}]. *)
Record ApiResult := {
  api_success : bool;
  api_data : option jsval;
  api_message : jsval
}.

Definition api_failed (msg : jsstring) : ApiResult :=
  {| api_success := false; api_data := None; api_message := JStr msg |}.








Definition validateShareLink (net : ApiNetwork) (shareId : jsstring)
  : eff (list ApiRequest) ApiResult :=
  etry
    (let endpoint :=
       ACCESS_API_BASE_URL ++ str "/access-control/share/" ++ shareId in
     response <- api_fetch net
                   {| api_url := endpoint;
                      api_method := str "GET";
                      api_headers :=
                        [(str "Content-Type", str "application/json")];
                      api_body := None |} ;;
     data <- elift (json response) ;;
     if negb (ok response)
     then elift (m <- get data (str "message") ;;
                 throw_Error
                   (js_or m (JStr (str "Failed to validate share link"))))%exn
     else
       elift (cid_v <- data_field data (str "fileCid") ;;
              granted <- data_field data (str "accessGranted") ;;
              name <- data_field data (str "filename") ;;
              size <- data_field data (str "fileSize") ;;
              type <- data_field data (str "contentType") ;;
              encrypted <- data_field data (str "isEncrypted") ;;
              m <- get data (str "message") ;;
              Ok {| api_success := true;
                    api_data :=
                      Some (JObj [ (str "fileCid", cid_v);
                                   (str "accessGranted",
                                    js_or granted (JBool false));
                                   (str "filename", name);
                                   (str "fileSize", size);
                                   (str "contentType", type);
                                   (str "isEncrypted", encrypted) ]);
                    api_message :=
                      js_or m (JStr (str "Share link validated successfully"))
                 |})%exn)%eff
    (fun error =>
       eret (api_failed (message_or error
                           (str "Failed to validate share link")))).





(* ------------------------------------------------------------------ *)
(** fileService: downloadFile *)








(* ------------------------------------------------------------------ *)
(** FileUpload: the upload queue *)

(** An entry of [attachedFiles]: the attached file with its optional
    fields.  [uploaded] is the [success] of the last result, as the
    backend wrote it. *)
Record QueuedFile := {
  queued : AttachedFile;
  q_uploaded : jsval;
  q_uploading : bool;
  q_uploadResult : option jsval
}.

Inductive Toast :=
| toast_success (text : jsstring)
| toast_error (text : jsstring).

(** The optional callbacks of the component; a callback is code of the
    parent, which may throw. *)
Record FileUploadProps := {
  onUploadSuccess : option (jsval -> exn unit);
  onUploadError : option (jsval -> exn unit)
}.

(** What [handleUploadAll] runs on: the requests made, the state of
    the component, the toasts shown, and its two counters. *)
Record UploadRun := {
  run_requests : list Request;
  attachedFiles : list QueuedFile;
  globalUploading : bool;
  toasts : list Toast;
  successCount : nat;
  errorCount : nat
}.

Definition on_requests {A : Type} (m : eff (list Request) A)
  : eff UploadRun A :=
  fun r =>
    let (x, log) := m (run_requests r) in
    (x, {| run_requests := log; attachedFiles := attachedFiles r;
           globalUploading := globalUploading r; toasts := toasts r;
           successCount := successCount r; errorCount := errorCount r |}).

Definition setAttachedFiles (update : list QueuedFile -> list QueuedFile)
  : eff UploadRun unit :=
  fun r =>
    (Ok tt, {| run_requests := run_requests r;
               attachedFiles := update (attachedFiles r);
               globalUploading := globalUploading r; toasts := toasts r;
               successCount := successCount r; errorCount := errorCount r |}).

Definition setGlobalUploading (b : bool) : eff UploadRun unit :=
  fun r =>
    (Ok tt, {| run_requests := run_requests r;
               attachedFiles := attachedFiles r;
               globalUploading := b; toasts := toasts r;
               successCount := successCount r; errorCount := errorCount r |}).

Definition toast (t : Toast) : eff UploadRun unit :=
  fun r =>
    (Ok tt, {| run_requests := run_requests r;
               attachedFiles := attachedFiles r;
               globalUploading := globalUploading r;
               toasts := toasts r ++ [t];
               successCount := successCount r; errorCount := errorCount r |}).

Definition set_counts (s e : nat) : eff UploadRun unit :=
  fun r =>
    (Ok tt, {| run_requests := run_requests r;
               attachedFiles := attachedFiles r;
               globalUploading := globalUploading r; toasts := toasts r;
               successCount := s; errorCount := e |}).

(** [successCount++] and [errorCount++] *)
Definition count_success : eff UploadRun unit :=
  fun r => set_counts (S (successCount r)) (errorCount r) r.

Definition count_error : eff UploadRun unit :=
  fun r => set_counts (successCount r) (S (errorCount r)) r.

(** [callback?.(argument)] *)
Definition call_back (callback : option (jsval -> exn unit))
  (argument : jsval) : eff UploadRun unit :=
  match callback with
  | Some f => elift (f argument)
  | None => eret tt
  end.

(** [prev.map(f => f.id === id ? change(f) : f)] *)
Definition change_file (id : jsstring) (change : QueuedFile -> QueuedFile)
  (prev : list QueuedFile) : list QueuedFile :=
  map (fun f => if jseqb (af_id (queued f)) id then change f else f) prev.

Definition mark_uploading (f : QueuedFile) : QueuedFile :=
  {| queued := queued f; q_uploaded := q_uploaded f; q_uploading := true;
     q_uploadResult := q_uploadResult f |}.

Definition mark_done (uploaded result : jsval) (f : QueuedFile) : QueuedFile :=
  {| queued := queued f; q_uploaded := uploaded; q_uploading := false;
     q_uploadResult := Some result |}.

(** [for (const x of l) body] *)
Fixpoint for_each {S A : Type} (l : list A) (body : A -> eff S unit)
  : eff S unit :=
  match l with
  | [] => eret tt
  | x :: r => (_ <- body x ;; for_each r body)%eff
  end.

Definition file_count_text (prefix : string) (n : nat) : jsstring :=
  str prefix ++ nat_toString (N.of_nat n) ++ str " file(s)".

(** The body of the loop of [handleUploadAll], for one attached file.
    [result.success] is read once, where the source reads it in the
    state update and again in the test: the results of
    [uploadSingleFile] are objects, on which the read is the same each
    time. *)
Definition upload_attached (props : FileUploadProps) (ctx : UploadContext)
  (net : Network) (attachedFile : QueuedFile) : eff UploadRun unit :=
  if truthy (q_uploaded attachedFile) then eret tt
  else
    let id := af_id (queued attachedFile) in
    (_ <- setAttachedFiles (change_file id mark_uploading) ;;
     etry
       (result <- on_requests (uploadSingleFile ctx net (queued attachedFile)) ;;
        success <- elift (get result (str "success")) ;;
        _ <- setAttachedFiles (change_file id (mark_done success result)) ;;
        if truthy success
        then _ <- count_success ;;
             call_back (onUploadSuccess props) result
        else _ <- count_error ;;
             message <- elift (get result (str "message")) ;;
             call_back (onUploadError props) message)
       (fun error =>
          _ <- count_error ;;
          let errorMessage := message_or error (str "Upload failed") in
          _ <- setAttachedFiles
                 (change_file id
                    (mark_done (JBool false) (failure_object errorMessage))) ;;
          call_back (onUploadError props) (JStr errorMessage)))%eff.

(** [handleUploadAll]; [snapshot] is the [attachedFiles] that the
    callback closed over. *)
Definition handleUploadAll (props : FileUploadProps) (ctx : UploadContext)
  (net : Network) (snapshot : list QueuedFile) : eff UploadRun unit :=
  if (List.length snapshot =? 0)%nat
  then toast (toast_error (str "No files to upload"))
  else
    (_ <- setGlobalUploading true ;;
     _ <- set_counts 0 0 ;;
     _ <- for_each snapshot (upload_attached props ctx net) ;;
     _ <- setGlobalUploading false ;;
     fun r =>
       (_ <- (if (0 <? successCount r)%nat
              then toast (toast_success
                            (file_count_text "Successfully uploaded "
                                             (successCount r)))
              else eret tt) ;;
        if (0 <? errorCount r)%nat
        then toast (toast_error
                      (file_count_text "Failed to upload " (errorCount r)))
        else eret tt)%eff r)%eff.

(** The files of a queue that are still to be uploaded. *)
Definition pending (snapshot : list QueuedFile) : list QueuedFile :=
  filter (fun f => negb (truthy (q_uploaded f))) snapshot.

(** A callback that is absent, or that returns on every argument. *)
Definition returns (callback : option (jsval -> exn unit)) : Prop :=
  match callback with
  | Some f => forall x, f x = Ok tt
  | None => True
  end.

(** The carriage return that ends a line of a text written on
    Windows, before the line feed. *)
Definition carriage_return : N := 13.

(** [testEncryptionServiceStatus] *)
Record StatusResult := {
  check_success : bool;
  check_status : ServiceStatus;
  check_message : jsstring
}.

Definition testEncryptionServiceStatus (env : Env)
  : eff ServiceState StatusResult :=
  etry
    (fun st =>
       let status := getStatus st in
       (_ <- (if negb (status_isInitialized status) then initialize env
              else eret tt) ;;
        fun st' =>
          let finalStatus := getStatus st' in
          eret {| check_success := status_isReady finalStatus;
                  check_status := finalStatus;
                  check_message :=
                    if status_isReady finalStatus
                    then str "Encryption service is ready"
                    else str "Encryption service is not ready" |} st')%eff st)
    (fun error st =>
       eret {| check_success := false;
               check_status := getStatus st;
               check_message :=
                 str "Status check failed: "
                 ++ message_or error (str "Unknown error") |} st).

(* ================================================================== *)
(** * Concrete inputs, continued *)
(* ================================================================== *)

(** An email rule whose second address has no at sign. *)
Definition bad_email_rule : AccessControlRule :=
  {| conditionType := str "email";
     allowedEmails := Some [str "a@b.co"; str "nobody"; str "x@"];
     allowedAddresses := None; allowedSuiNS := None;
     accessStartTime := None; accessEndTime := None;
     maxAccessDuration := None; requireAllConditions := None;
     maxAccessCount := None |}.

(** A hybrid rule that holds the entries of [sample_csv]. *)
Definition bulk_rule : AccessControlRule :=
  {| conditionType := str "hybrid";
     allowedEmails := Some [str "a@b.co"];
     allowedAddresses := Some [sample_address];
     allowedSuiNS := Some [str "ab.sui"];
     accessStartTime := None; accessEndTime := None;
     maxAccessDuration := None; requireAllConditions := None;
     maxAccessCount := None |}.

(** The encryption data that [uploadSingleFile] hands to [uploadFile]. *)
Definition sample_encryption : EncryptionData :=
  {| encryptedFile :=
       {| file_name := str "note.txt.encrypted"; file_size := 3;
          file_type := str "application/octet-stream";
          arrayBuffer := Ok ["1"%byte; "2"%byte; "3"%byte] |};
     data_encryptionKeys :=
       {| keys_publicKey := Some (str "seal_public_k");
          keys_secretKey := Some (str "seal_secret_k") |} |}.

(** A reply 403 with a message. *)
Definition refused_download : Response :=
  {| ok := false;
     json := Ok (JObj [ (str "success", JBool false);
                        (str "message", JStr (str "Share link expired")) ]);
     blob := Ok []; headers_get := no_headers |}.

(** A reply 200 to the validation of a share link, without [data]. *)
Definition bare_share_reply : Response :=
  {| ok := true;
     json := Ok (JObj [ (str "success", JBool true) ]);
     blob := Ok []; headers_get := no_headers |}.

(** The hook's state once the service is ready, and a component that
    has just been mounted. *)
Definition ready_state : EncryptionState :=
  {| state_isInitializing := false; state_isReady := true;
     state_isEncrypting := false; state_isDecrypting := false;
     state_error := None |}.

Definition mounted : HookWorld :=
  {| hook_state := initial_state; service_state := new_service |}.

(** A queue of two files, the second of which is stored already. *)
Definition fresh_file : QueuedFile :=
  {| queued := sample_attached; q_uploaded := JBool false;
     q_uploading := false; q_uploadResult := None |}.

Definition stored_file : QueuedFile :=
  {| queued :=
       {| af_id := str "1700000000000-1"; af_name := str "note.txt";
          af_size := 7; af_type := str "text/plain";
          af_file := sample_file |};
     q_uploaded := JBool true; q_uploading := false;
     q_uploadResult := Some flagged_reply |}.

Definition run_of (queue : list QueuedFile) : UploadRun :=
  {| run_requests := []; attachedFiles := queue; globalUploading := false;
     toasts := []; successCount := 0; errorCount := 0 |}.

(** A component without callbacks, and one whose success callback
    throws. *)
Definition no_callbacks : FileUploadProps :=
  {| onUploadSuccess := None; onUploadError := None |}.

Definition failing_refresh : jsval -> exn unit :=
  fun _ => Throw (ErrorObj (str "refresh failed")).

Definition throwing_callbacks : FileUploadProps :=
  {| onUploadSuccess := Some failing_refresh; onUploadError := None |}.

(* ================================================================== *)
(** * fileService: the authentication gate *)
(* ================================================================== *)

(** C4.  With [useTestMode] false and no token, [clearUserFiles] and
    [deleteFile] return [{success: false}] with a message that contains
    "Authentication required", and send nothing: the log of requests is
    left as it was. *)
Theorem delete_requires_authentication :
  forall (net : Network) (cid : jsstring) (log : list Request),
    (exists msg,
        clearUserFiles net None false log
        = (Ok {| del_success := false; del_message := JStr msg |}, log)
        /\ contains (str "Authentication required") msg = true)
    /\ (exists msg,
           deleteFile net cid None false log
           = (Ok {| del_success := false; del_message := JStr msg |}, log)
           /\ contains (str "Authentication required") msg = true).
Proof.
  intros net cid log. split.
  - exists (str "Authentication required to delete files").
    split; reflexivity.
  - exists (str "Authentication required to delete file").
    split; reflexivity.
Qed.

(* ================================================================== *)
(** * fileService: the list of files *)
(* ================================================================== *)

Lemma throw_Error_throws :
  forall (A : Type) (v : jsval), exists e, @throw_Error A v = Throw e.
Proof.
  intros A v. unfold throw_Error. destruct (ToString v) as [m | e]; simpl; eauto.
Qed.

Lemma bind_throw_Error_throws :
  forall (A B : Type) (m : exn B) (f : B -> jsval),
    exists e, bind m (fun x => @throw_Error A (f x)) = Throw e.
Proof.
  intros A B m f. destruct m as [x | e]; simpl; [apply throw_Error_throws | eauto].
Qed.

Lemma getUserFiles_cases :
  forall net clock token mode log,
    exists r log',
      getUserFiles net clock token mode log = (Ok r, log')
      /\ (files_success r = true
          \/ exists msg, r = {| files_success := false; files := [];
                                files_message := Some msg |}).
Proof.
  intros net clock token mode log. unfold getUserFiles, etry.
  match goal with
  | |- context [match ?b log with _ => _ end] => destruct (b log) as [[r | e] log1] eqn:Hbody
  end.
  - exists r, log1. split; [reflexivity |].
    revert Hbody. unfold ebind, fetch, elift, eret, ethrow.
    destruct (net _) as [response | e]; [| discriminate].
    destruct (json response) as [data | e]; [| discriminate].
    destruct (negb (ok response)).
    + destruct (bind_throw_Error_throws FilesResponse jsval (get data (str "message"))
                  (fun m => js_or m (JStr (str "Failed to fetch files")))) as [e He].
      rewrite He. discriminate.
    + destruct (backend_files data) as [backendFiles | e]; [| discriminate].
      destruct (negb (isArray backendFiles)); [discriminate |].
      destruct (map_exn _ _) as [formatted | e]; [| discriminate].
      intros H. injection H as <- _. left. reflexivity.
  - eexists _, log1. split; [reflexivity |]. right. eexists. reflexivity.
Qed.

(** C9.  [getUserFiles] never throws, and whenever it reports a
    failure, [data.files] is the empty array.  It reports a failure
    when the fetch is rejected, when the status is outside 2xx, when
    the body cannot be read, and when the list of the body is not an
    array. *)
Theorem getUserFiles_failure_has_no_files :
  forall (net : Network) (clock : nat -> TimeValue) (token : option jsstring)
         (mode : bool) (log : list Request),
    exists r log',
      getUserFiles net clock token mode log = (Ok r, log')
      /\ (files_success r = false -> files r = [])
      /\ (forall e, net (files_request token mode) = Throw e ->
                    files_success r = false)
      /\ (forall response,
            net (files_request token mode) = Ok response ->
            (ok response = false
             \/ (exists e, json response = Throw e)
             \/ (exists data backendFiles,
                    json response = Ok data
                    /\ backend_files data = Ok backendFiles
                    /\ isArray backendFiles = false)) ->
            files_success r = false).
Proof.
  intros net clock token mode log.
  destruct (getUserFiles_cases net clock token mode log)
    as (r & log' & Hrun & Hcases).
  exists r, log'. split; [exact Hrun |]. split; [| split].
  - intros Hfail. destruct Hcases as [Hok | [msg ->]]; [congruence | reflexivity].
  - intros e Hnet. revert Hrun.
    unfold getUserFiles, etry, ebind, fetch. rewrite Hnet.
    intros H. injection H as <- _. reflexivity.
  - intros response Hnet Hpath. revert Hrun.
    unfold getUserFiles, etry, ebind, fetch, elift, ethrow, eret.
    rewrite Hnet.
    destruct Hpath as [Hstatus | [[e Hjson] | (data & v & Hjson & Hsrc & Harr)]].
    + rewrite Hstatus. simpl negb.
      destruct (json response) as [data | e].
      * destruct (bind_throw_Error_throws FilesResponse jsval
                    (get data (str "message"))
                    (fun m => js_or m (JStr (str "Failed to fetch files"))))
          as [e He].
        rewrite He. intros H. injection H as <- _. reflexivity.
      * intros H. injection H as <- _. reflexivity.
    + rewrite Hjson. intros H. injection H as <- _. reflexivity.
    + rewrite Hjson. destruct (negb (ok response)).
      * destruct (bind_throw_Error_throws FilesResponse jsval
                    (get data (str "message"))
                    (fun m => js_or m (JStr (str "Failed to fetch files"))))
          as [e He].
        rewrite He. intros H. injection H as <- _. reflexivity.
      * rewrite Hsrc, Harr. simpl negb.
        intros H. injection H as <- _. reflexivity.
Qed.

(** C5.  When the backend answers the list request with a 2xx status
    and the body [{data: [{fileCid: "x", name: "a.txt", size: 10}]}],
    [getUserFiles] returns [success: true] with one record whose [cid]
    is "x", whose [filename] is "a.txt", whose [fileSize] is 10 and
    whose [isOwner] is true. *)
Theorem getUserFiles_normalizes_scenario :
  forall (net : Network) (clock : nat -> TimeValue) (token : option jsstring)
         (mode : bool) (log : list Request) (response : Response),
    net (files_request token mode) = Ok response ->
    ok response = true ->
    json response = Ok scenario_list_body ->
    exists f log',
      getUserFiles net clock token mode log
      = (Ok {| files_success := true; files := [f]; files_message := None |},
         log')
      /\ cid f = JStr (str "x")
      /\ filename f = JStr (str "a.txt")
      /\ fileSize f = JNum (num_of_Z 10)
      /\ isOwner f = true.
Proof.
  intros net clock token mode log response Hnet Hok Hjson.
  unfold getUserFiles, etry, ebind, fetch, elift, eret.
  rewrite Hnet, Hjson, Hok. simpl.
  eexists. eexists. split; [reflexivity |].
  repeat split; reflexivity.
Qed.

(* ================================================================== *)
(** * Regular expressions: matching by derivatives is sound and complete *)
(* ================================================================== *)

Lemma nullable_lang : forall r, nullable r = true <-> lang r [].
Proof.
  intros r. split.
  - induction r; simpl; intros H; try discriminate.
    + constructor.
    + apply andb_true_iff in H. destruct H as [H1 H2].
      change (@nil N) with (@nil N ++ @nil N). constructor; auto.
    + apply orb_true_iff in H. destruct H as [H | H].
      * apply lang_alt_l; auto.
      * apply lang_alt_r; auto.
    + constructor.
  - intros H. remember (@nil N) as w eqn:Hw.
    induction H; simpl; subst; try reflexivity; try discriminate.
    + apply app_eq_nil in Hw. destruct Hw as [-> ->].
      rewrite IHlang1, IHlang2; reflexivity.
    + rewrite IHlang; reflexivity.
    + rewrite IHlang; [apply orb_true_r | reflexivity].
Qed.

Lemma deriv_sound :
  forall r c s, lang (deriv c r) s -> lang r (c :: s).
Proof.
  induction r; simpl; intros c s H.
  - inversion H.
  - inversion H.
  - destruct (p c) eqn:Hp; inversion H; subst. constructor. exact Hp.
  - destruct (nullable r1) eqn:Hn.
    + inversion H as [ | | | ? ? ? H1 | ? ? ? H1 | | ]; subst.
      * inversion H1; subst.
        change (c :: s1 ++ s2) with ((c :: s1) ++ s2).
        constructor; auto.
      * change (c :: s) with ([] ++ c :: s).
        constructor; [apply nullable_lang; exact Hn | auto].
    + inversion H; subst.
      change (c :: s1 ++ s2) with ((c :: s1) ++ s2).
      constructor; auto.
  - inversion H; subst.
    + apply lang_alt_l; auto.
    + apply lang_alt_r; auto.
  - inversion H; subst.
    change (c :: s1 ++ s2) with ((c :: s1) ++ s2).
    apply lang_star_cons; auto.
Qed.

Lemma deriv_complete :
  forall r w, lang r w -> forall c s, w = c :: s -> lang (deriv c r) s.
Proof.
  induction 1; intros c0 s0 Hw; simpl.
  - discriminate.
  - injection Hw as -> <-. rewrite H. constructor.
  - destruct s1 as [| a s1'].
    + simpl in Hw. subst s2.
      assert (Hn : nullable r1 = true) by (apply nullable_lang; assumption).
      rewrite Hn. apply lang_alt_r. apply IHlang2. reflexivity.
    + simpl in Hw. injection Hw as -> <-.
      assert (Hc : lang (Cat (deriv c0 r1) r2) (s1' ++ s2))
        by (constructor; [apply IHlang1; reflexivity | assumption]).
      destruct (nullable r1); [apply lang_alt_l |]; exact Hc.
  - apply lang_alt_l. apply IHlang. exact Hw.
  - apply lang_alt_r. apply IHlang. exact Hw.
  - discriminate.
  - destruct s1 as [| a s1'].
    + simpl in Hw. apply (IHlang2 c0 s0 Hw).
    + simpl in Hw. injection Hw as -> <-.
      constructor; [apply IHlang1; reflexivity | assumption].
Qed.

(** [regex_test] decides the language of the expression. *)
Lemma regex_test_lang :
  forall s r, regex_test r s = true <-> lang r s.
Proof.
  induction s as [| c s IH]; intros r; simpl.
  - apply nullable_lang.
  - rewrite IH. split.
    + apply deriv_sound.
    + intros H. apply (deriv_complete _ _ H). reflexivity.
Qed.

Lemma lang_Lit : forall w s, lang (Lit w) s <-> s = w.
Proof.
  induction w as [| c w IH]; intros s; simpl; split; intros H.
  - inversion H. reflexivity.
  - subst. constructor.
  - inversion H as [ | | ? ? ? ? H1 H2 | | | | ]; subst.
    inversion H1 as [ | ? ? Hc | | | | | ]; subst.
    apply N.eqb_eq in Hc. subst. apply IH in H2. subst. reflexivity.
  - subst. change (c :: w) with ([c] ++ w).
    constructor; [constructor; apply N.eqb_refl | apply IH; reflexivity].
Qed.

Lemma lang_Class : forall p s, lang (Class p) s <-> exists c, s = [c] /\ p c = true.
Proof.
  intros p s. split.
  - intros H. inversion H; subst. eauto.
  - intros (c & -> & Hc). constructor. exact Hc.
Qed.

Lemma lang_Cat :
  forall r1 r2 s,
    lang (Cat r1 r2) s <-> exists s1 s2, s = s1 ++ s2 /\ lang r1 s1 /\ lang r2 s2.
Proof.
  intros r1 r2 s. split.
  - intros H. inversion H; subst. eauto.
  - intros (s1 & s2 & -> & H1 & H2). constructor; assumption.
Qed.

Lemma lang_Star_Class :
  forall p s, lang (Star (Class p)) s <-> Forall (fun c => p c = true) s.
Proof.
  intros p s. split.
  - intros H. remember (Star (Class p)) as r eqn:Hr.
    induction H; try discriminate.
    + constructor.
    + injection Hr as ->. inversion H; subst. simpl.
      constructor; [assumption | apply IHlang2; reflexivity].
  - induction 1 as [| c s Hc _ IH].
    + constructor.
    + change (c :: s) with ([c] ++ s).
      apply lang_star_cons; [constructor; exact Hc | exact IH].
Qed.

Lemma lang_Plus_Class :
  forall p s,
    lang (Plus (Class p)) s <-> s <> [] /\ Forall (fun c => p c = true) s.
Proof.
  intros p s. unfold Plus. rewrite lang_Cat. split.
  - intros (s1 & s2 & -> & H1 & H2).
    apply lang_Class in H1. destruct H1 as (c & -> & Hc).
    apply lang_Star_Class in H2. split; [discriminate |].
    constructor; assumption.
  - intros [Hne Hall]. destruct s as [| c s]; [congruence |].
    inversion Hall; subst.
    exists [c], s. split; [reflexivity |].
    split; [constructor; assumption | apply lang_Star_Class; assumption].
Qed.

(* ================================================================== *)
(** * accessControlService: what the validators accept *)
(* ================================================================== *)

Lemma isValidEmail_shape :
  forall s, isValidEmail s = true <-> email_shape s.
Proof.
  intros s. unfold isValidEmail, emailRegex, email_shape.
  rewrite regex_test_lang. split.
  - intros H.
    apply lang_Cat in H. destruct H as (l & r1 & -> & Hl & H).
    apply lang_Cat in H. destruct H as (a & r2 & -> & Ha & H).
    apply lang_Cat in H. destruct H as (d & r3 & -> & Hd & H).
    apply lang_Cat in H. destruct H as (p & t & -> & Hp & Ht).
    apply lang_Lit in Ha. apply lang_Lit in Hp. subst a p.
    apply lang_Plus_Class in Hl. apply lang_Plus_Class in Hd.
    apply lang_Plus_Class in Ht.
    destruct Hl as [Hl1 Hl2]. destruct Hd as [Hd1 Hd2]. destruct Ht as [Ht1 Ht2].
    exists l, d, t. repeat split; try assumption.
    apply Forall_app. split; [assumption |].
    apply Forall_app. split; assumption.
  - intros (l & d & t & -> & Hl & Hd & Ht & Hall).
    apply Forall_app in Hall. destruct Hall as [Hl2 Hall].
    apply Forall_app in Hall. destruct Hall as [Hd2 Ht2].
    constructor; [apply lang_Plus_Class; split; assumption |].
    constructor; [apply lang_Lit; reflexivity |].
    constructor; [apply lang_Plus_Class; split; assumption |].
    constructor; [apply lang_Lit; reflexivity |].
    apply lang_Plus_Class; split; assumption.
Qed.

Lemma suiNSRegex_shape :
  forall s, regex_test suiNSRegex s = true <-> suins_shape s.
Proof.
  intros s. unfold suiNSRegex, suins_shape.
  rewrite regex_test_lang. split.
  - intros H.
    apply lang_Cat in H. destruct H as (f & r1 & -> & Hf & H).
    apply lang_Cat in H. destruct H as (m & r2 & -> & Hm & H).
    apply lang_Cat in H. destruct H as (l & x & -> & Hl & Hx).
    apply lang_Class in Hf. destruct Hf as (a & -> & Ha).
    apply lang_Class in Hl. destruct Hl as (b & -> & Hb).
    apply lang_Star_Class in Hm. apply lang_Lit in Hx. subst x.
    exists a, m, b. repeat split; assumption.
  - intros (a & m & b & -> & Ha & Hb & Hm).
    change (a :: m ++ b :: str ".sui")
      with ([a] ++ m ++ [b] ++ str ".sui").
    constructor; [constructor; assumption |].
    constructor; [apply lang_Star_Class; assumption |].
    constructor; [constructor; assumption | apply lang_Lit; reflexivity].
Qed.

Lemma suins_shape_length :
  forall s, suins_shape s -> (6 <= List.length s)%nat.
Proof.
  intros s (a & m & b & -> & _). simpl.
  rewrite length_app. simpl. lia.
Qed.

Lemma suins_shape_suffix :
  forall s, suins_shape s -> exists p, s = p ++ str ".sui".
Proof.
  intros s (a & m & b & -> & _).
  exists (a :: m ++ [b]). simpl. rewrite <- app_assoc. reflexivity.
Qed.

(** [isValidSuiNS] accepts the names of the SuiNS shape that are not
    longer than 64; the lower bound 4 of the service never decides. *)
Lemma isValidSuiNS_shape :
  forall s,
    isValidSuiNS s = true <-> suins_shape s /\ (List.length s <= 64)%nat.
Proof.
  intros s. unfold isValidSuiNS.
  rewrite !andb_true_iff, suiNSRegex_shape, !Nat.leb_le.
  split.
  - intros [[Hs _] Hlen]. split; assumption.
  - intros [Hs Hlen]. pose proof (suins_shape_length _ Hs).
    repeat split; try assumption. lia.
Qed.

(** A name that violates the length bounds or lacks the suffix is
    rejected. *)
Lemma isValidSuiNS_bounds_and_suffix :
  forall s,
    isValidSuiNS s = true ->
    (4 <= List.length s <= 64)%nat /\ exists p, s = p ++ str ".sui".
Proof.
  intros s H. apply isValidSuiNS_shape in H. destruct H as [Hs Hlen].
  pose proof (suins_shape_length _ Hs).
  split; [lia | apply suins_shape_suffix; assumption].
Qed.

Lemma isValidSuiNS_false :
  forall s,
    isValidSuiNS s = false <-> ~ suins_shape s \/ (64 < List.length s)%nat.
Proof.
  intros s. split.
  - intros H. destruct (le_lt_dec (List.length s) 64) as [Hle | Hgt].
    + left. intros Hs.
      assert (isValidSuiNS s = true) by (apply isValidSuiNS_shape; auto).
      congruence.
    + right. exact Hgt.
  - intros H. destruct (isValidSuiNS s) eqn:Hv; [| reflexivity].
    apply isValidSuiNS_shape in Hv. destruct Hv as [Hs Hlen].
    destruct H as [H | H]; [contradiction | lia].
Qed.

(* ================================================================== *)
(** * accessControlService: validateAccessRule *)
(* ================================================================== *)

Lemma jseqb_eq : forall a b, jseqb a b = true <-> a = b.
Proof.
  intros a b. unfold jseqb.
  destruct (list_eq_dec N.eq_dec a b); split; congruence.
Qed.

Lemma jseqb_refl : forall a, jseqb a a = true.
Proof. intros a. apply jseqb_eq. reflexivity. Qed.

Lemma includes_In : forall l x, includes l x = true <-> In x l.
Proof.
  intros l x. unfold includes. rewrite existsb_exists. split.
  - intros (y & Hy & Heq). apply jseqb_eq in Heq. subst. exact Hy.
  - intros H. exists x. split; [exact H | apply jseqb_refl].
Qed.

Lemma populated_field_list :
  forall o, (if populated o then field_list o else []) = field_list o.
Proof. intros [[| x l] |]; reflexivity. Qed.

Lemma populated_false : forall o, populated o = false <-> field_list o = [].
Proof. intros [[| x l] |]; simpl; split; congruence. Qed.

Lemma find_rejected :
  forall (ok : jsstring -> bool) (l : list jsstring),
    match find (fun x => negb (ok x)) l with
    | Some _ => Exists (fun x => ok x = false) l
    | None => ~ Exists (fun x => ok x = false) l
    end.
Proof.
  intros ok l. destruct (find _ l) as [x |] eqn:Hf.
  - apply find_some in Hf. destruct Hf as [Hin Hx].
    apply Exists_exists. exists x. split; [exact Hin |].
    apply negb_true_iff. exact Hx.
  - intros Hex. apply Exists_exists in Hex. destruct Hex as (x & Hin & Hx).
    pose proof (find_none _ _ Hf x Hin) as Hn. simpl in Hn.
    rewrite Hx in Hn. discriminate.
Qed.

Lemma both_set_and_ge_spec :
  forall a b,
    set_field a -> set_field b ->
    (both_set_and_ge a b = true
     <-> exists s e, a = Some s /\ b = Some e /\ num_geb s e = true).
Proof.
  intros [x |] [y |] Ha Hb; simpl in *; split.
  - rewrite Ha, Hb. simpl. intros H. eauto.
  - intros (s & e & Hs & He & H). injection Hs as <-. injection He as <-.
    rewrite Ha, Hb. exact H.
  - discriminate.
  - intros (s & e & _ & He & _). discriminate.
  - discriminate.
  - intros (s & e & Hs & _). discriminate.
  - discriminate.
  - intros (s & e & Hs & _). discriminate.
Qed.

Lemma set_and_not_positive_spec :
  forall a,
    set_field a ->
    (set_and_not_positive a = true
     <-> exists d, a = Some d /\ num_leb d zero = true).
Proof.
  intros [x |] Ha; simpl in *; split.
  - rewrite Ha. simpl. eauto.
  - intros (d & Hd & H). injection Hd as <-. rewrite Ha. exact H.
  - discriminate.
  - intros (d & Hd & _). discriminate.
Qed.

Lemma truthy_field_set :
  forall a, set_field a -> (truthy_field a = false <-> a = None).
Proof.
  intros [x |] Ha; simpl in *; split; congruence.
Qed.

Lemma no_family_spec :
  forall rule,
    numeric_fields_set rule ->
    (negb (populated (allowedEmails rule))
     && negb (populated (allowedAddresses rule))
     && negb (truthy_field (accessStartTime rule)
              || truthy_field (accessEndTime rule)
              || truthy_field (maxAccessDuration rule)) = true
     <-> no_condition_family rule).
Proof.
  intros rule (Hs & He & Hd & _). unfold no_condition_family.
  rewrite !andb_true_iff, !negb_true_iff, !orb_false_iff.
  rewrite !populated_false.
  rewrite (truthy_field_set _ Hs), (truthy_field_set _ He),
    (truthy_field_set _ Hd).
  tauto.
Qed.

(** The verdict of [validateAccessRule] on a rule whose numeric fields
    are set is decided by [rule_violation]. *)
Lemma validateAccessRule_false_iff :
  forall rule,
    numeric_fields_set rule ->
    (valid (validateAccessRule rule) = false <-> rule_violation rule).
Proof.
  intros rule Hset. pose proof Hset as (Hs & He & Hd & Hc).
  unfold validateAccessRule, rule_violation.
  rewrite !populated_field_list.
  pose proof (includes_In condition_types (conditionType rule)) as Hct.
  destruct (includes condition_types (conditionType rule)); simpl negb; cbv iota.
  2: { split; [intros _ | reflexivity]. left. intros Hin.
       apply Hct in Hin. discriminate. }
  pose proof (find_rejected isValidEmail (field_list (allowedEmails rule))) as Hem.
  destruct (find _ (field_list (allowedEmails rule))).
  { split; [intros _ | reflexivity]. right. left. exact Hem. }
  pose proof (find_rejected isValidSuiAddress
                (field_list (allowedAddresses rule))) as Had.
  destruct (find _ (field_list (allowedAddresses rule))).
  { split; [intros _ | reflexivity]. do 2 right. left. exact Had. }
  pose proof (find_rejected isValidSuiNS (field_list (allowedSuiNS rule))) as Hns.
  assert (Hns_iff :
            Exists (fun n => isValidSuiNS n = false) (field_list (allowedSuiNS rule))
            <-> Exists (fun n => ~ suins_shape n \/ (64 < List.length n)%nat)
                       (field_list (allowedSuiNS rule))).
  { rewrite !Exists_exists. split; intros (x & Hin & Hx); exists x;
      (split; [exact Hin | apply isValidSuiNS_false; exact Hx]). }
  destruct (find _ (field_list (allowedSuiNS rule))).
  { split; [intros _ | reflexivity]. do 3 right. left. apply Hns_iff. exact Hns. }
  pose proof (both_set_and_ge_spec _ _ Hs He) as Htime.
  destruct (both_set_and_ge (accessStartTime rule) (accessEndTime rule)).
  { split; [intros _ | reflexivity]. do 4 right. left. apply Htime. reflexivity. }
  pose proof (set_and_not_positive_spec _ Hd) as Hdur.
  destruct (set_and_not_positive (maxAccessDuration rule)).
  { split; [intros _ | reflexivity]. do 5 right. left. apply Hdur. reflexivity. }
  pose proof (set_and_not_positive_spec _ Hc) as Hcnt.
  destruct (set_and_not_positive (maxAccessCount rule)).
  { split; [intros _ | reflexivity]. do 6 right. left. apply Hcnt. reflexivity. }
  pose proof (jseqb_eq (conditionType rule) (str "hybrid")) as Hhy.
  pose proof (no_family_spec _ Hset) as Hfam.
  assert (Hrest :
            ~ (~ In (conditionType rule) condition_types
               \/ Exists (fun e => isValidEmail e = false)
                         (field_list (allowedEmails rule))
               \/ Exists (fun a => isValidSuiAddress a = false)
                         (field_list (allowedAddresses rule))
               \/ Exists (fun n => ~ suins_shape n \/ (64 < List.length n)%nat)
                         (field_list (allowedSuiNS rule))
               \/ (exists s e, accessStartTime rule = Some s
                               /\ accessEndTime rule = Some e
                               /\ num_geb s e = true)
               \/ (exists d, maxAccessDuration rule = Some d
                             /\ num_leb d zero = true)
               \/ (exists c, maxAccessCount rule = Some c
                             /\ num_leb c zero = true))).
  { intros [H | [H | [H | [H | [H | [H | H]]]]]].
    - apply H. apply Hct. reflexivity.
    - contradiction.
    - contradiction.
    - apply Hns. apply Hns_iff. exact H.
    - apply Htime in H. discriminate.
    - apply Hdur in H. discriminate.
    - apply Hcnt in H. discriminate. }
  destruct (jseqb (conditionType rule) (str "hybrid")).
  - cbv zeta.
    destruct (negb (populated (allowedEmails rule)) && _ && _).
    + split; [intros _ | reflexivity]. do 7 right.
      split; [apply Hhy; reflexivity | apply Hfam; reflexivity].
    + split; [discriminate |]. intros H.
      assert (Hlast : conditionType rule = str "hybrid" /\ no_condition_family rule)
        by tauto.
      destruct Hlast as [_ Hno]. apply Hfam in Hno. discriminate.
  - split; [discriminate |]. intros H.
    assert (Hlast : conditionType rule = str "hybrid" /\ no_condition_family rule)
      by tauto.
    destruct Hlast as [Hty _]. apply Hhy in Hty. discriminate.
Qed.

(** C2, as it holds of the code.  For every rule whose numeric fields,
    when present, are numbers other than 0 and NaN,
    [validateAccessRule] returns
    [valid: false] whenever the rule has an unknown [conditionType], a
    malformed email, a malformed address, a SuiNS name that is not of
    the SuiNS shape or is longer than 64 (names shorter than 4 or
    without the suffix are among them), [accessStartTime >=
    accessEndTime] when both are set, [maxAccessDuration <= 0],
    [maxAccessCount <= 0], or is hybrid with no email, no address and
    no time bound; and returns [valid: true] otherwise. *)
Theorem validateAccessRule_characterised :
  forall rule : AccessControlRule,
    numeric_fields_set rule ->
    (rule_violation rule -> valid (validateAccessRule rule) = false)
    /\ (~ rule_violation rule -> valid (validateAccessRule rule) = true).
Proof.
  intros rule Hset. pose proof (validateAccessRule_false_iff _ Hset) as Hiff.
  split.
  - apply Hiff.
  - intros Hno. destruct (valid (validateAccessRule rule)); [reflexivity |].
    exfalso. apply Hno. apply Hiff. reflexivity.
Qed.

(* ================================================================== *)
(** * accessControlService: parseBulkData *)
(* ================================================================== *)

Lemma process_cell_emails :
  forall i r c, emails (process_cell i r c) = collect selects_email (emails r) c.
Proof.
  intros i r c. unfold process_cell, collect, selects_email.
  destruct (truthy_str (trim c)); simpl; [| reflexivity].
  destruct (isValidEmail (trim c)); simpl; [reflexivity |].
  destruct (isValidSuiAddress (trim c)); simpl; [reflexivity |].
  destruct (isValidSuiNS (trim c)); reflexivity.
Qed.

Lemma process_cell_addresses :
  forall i r c,
    addresses (process_cell i r c) = collect selects_address (addresses r) c.
Proof.
  intros i r c. unfold process_cell, collect, selects_address.
  destruct (truthy_str (trim c)); simpl; [| reflexivity].
  destruct (isValidEmail (trim c)); simpl; [reflexivity |].
  destruct (isValidSuiAddress (trim c)); simpl; [reflexivity |].
  destruct (isValidSuiNS (trim c)); reflexivity.
Qed.

Lemma process_cell_suiNSNames :
  forall i r c,
    suiNSNames (process_cell i r c) = collect selects_suiNS (suiNSNames r) c.
Proof.
  intros i r c. unfold process_cell, collect, selects_suiNS.
  destruct (truthy_str (trim c)); simpl; [| reflexivity].
  destruct (isValidEmail (trim c)); simpl; [reflexivity |].
  destruct (isValidSuiAddress (trim c)); simpl; [reflexivity |].
  destruct (isValidSuiNS (trim c)); reflexivity.
Qed.

(** A field of the result after a whole text depends on the cells
    only through [collect]. *)
Lemma fold_rows_field :
  forall (field : ParsedBulkData -> list jsstring) (sel : jsstring -> bool),
    (forall i r c, field (process_cell i r c) = collect sel (field r) c) ->
    forall (rows : list (nat * list jsstring)) (r : ParsedBulkData),
      field (fold_left process_row rows r)
      = fold_left (collect sel) (List.concat (map snd rows)) (field r).
Proof.
  intros field sel Hstep rows.
  assert (Hrow : forall i row r,
             field (fold_left (process_cell i) row r)
             = fold_left (collect sel) row (field r)).
  { intros i row. induction row as [| c row IH]; intros r; simpl.
    - reflexivity.
    - rewrite IH, Hstep. reflexivity. }
  induction rows as [| [i row] rows IH]; intros r; simpl.
  - reflexivity.
  - rewrite IH. unfold process_row. simpl. rewrite Hrow.
    rewrite fold_left_app. reflexivity.
Qed.

Lemma with_index_snd :
  forall (A : Type) (l : list A), map snd (with_index l) = l.
Proof.
  intros A l. unfold with_index.
  assert (H : forall k, map snd (combine (seq k (List.length l)) l) = l).
  { induction l as [| x l IH]; intros k; simpl; [reflexivity |].
    rewrite IH. reflexivity. }
  apply H.
Qed.

Lemma push_new_NoDup :
  forall acc x, NoDup acc -> NoDup (push_new acc x).
Proof.
  intros acc x Hnd. unfold push_new.
  destruct (includes acc x) eqn:Hin; [exact Hnd |].
  apply NoDup_app; [exact Hnd | repeat constructor; intros [] | ].
  intros y Hy [<- | []]. apply includes_In in Hy. congruence.
Qed.

Lemma push_new_In :
  forall acc x y, In y (push_new acc x) <-> In y acc \/ y = x.
Proof.
  intros acc x y. unfold push_new.
  destruct (includes acc x) eqn:Hin.
  - apply includes_In in Hin. split; [auto |].
    intros [H | ->]; assumption.
  - rewrite in_app_iff. simpl. intuition congruence.
Qed.

(** After the cells, a field holds no token twice, and holds every
    selected token that a cell carries. *)
Lemma collect_fold :
  forall (sel : jsstring -> bool) (cells : list jsstring) (acc : list jsstring),
    NoDup acc ->
    NoDup (fold_left (collect sel) cells acc)
    /\ (forall t,
           In t (filter truthy_str (map trim cells)) -> sel t = true ->
           In t (fold_left (collect sel) cells acc))
    /\ (forall t, In t acc -> In t (fold_left (collect sel) cells acc)).
Proof.
  intros sel cells. induction cells as [| c cells IH]; intros acc Hnd; simpl.
  - split; [exact Hnd |]. split; [intros t [] | auto].
  - assert (Hnd' : NoDup (collect sel acc c)).
    { unfold collect. destruct (_ && _); [apply push_new_NoDup |]; exact Hnd. }
    destruct (IH _ Hnd') as (H1 & H2 & H3).
    split; [exact H1 |]. split.
    + intros t Hin Hsel.
      destruct (truthy_str (trim c)) eqn:Htr; simpl in Hin.
      * destruct Hin as [<- | Hin]; [| apply H2; assumption].
        apply H3. unfold collect. rewrite Htr, Hsel. simpl.
        apply push_new_In. right. reflexivity.
      * apply H2; assumption.
    + intros t Hin. apply H3. unfold collect.
      destruct (_ && _); [apply push_new_In; left |]; exact Hin.
Qed.

Lemma occurrences_once :
  forall (l : list jsstring) (t : jsstring),
    NoDup l -> In t l -> occurrences t l = 1%nat.
Proof.
  intros l t Hnd Hin. unfold occurrences.
  apply NoDup_count_occ' with (decA := jsstring_eq_dec); assumption.
Qed.

(** Each of the three arrays of [parseBulkData] holds a token of its
    selection once, if a cell carries it at all. *)
Lemma parseBulkData_field_once :
  forall (field : ParsedBulkData -> list jsstring) (sel : jsstring -> bool),
    (forall i r c, field (process_cell i r c) = collect sel (field r) c) ->
    field empty_bulk = [] ->
    forall content t,
      In t (cell_tokens content) -> sel t = true ->
      occurrences t (field (parseBulkData content csv)) = 1%nat.
Proof.
  intros field sel Hstep Hempty content t Hin Hsel.
  unfold parseBulkData.
  rewrite (fold_rows_field field sel Hstep), with_index_snd, Hempty.
  destruct (collect_fold sel (List.concat (csv_rows content)) [] (NoDup_nil _))
    as (Hnd & Hall & _).
  apply occurrences_once; [exact Hnd |].
  apply Hall; assumption.
Qed.

Lemma email_has_at :
  forall s, isValidEmail s = true -> In (ch "@") s.
Proof.
  intros s H. apply isValidEmail_shape in H.
  destruct H as (l & d & t & -> & _).
  apply in_or_app. right. left. reflexivity.
Qed.

Lemma suins_has_no_at :
  forall s, suins_shape s -> ~ In (ch "@") s.
Proof.
  intros s (a & m & b & -> & Ha & Hb & Hm) Hin.
  assert (Hdash : forall c, is_alnum_dash c = true -> c <> ch "@").
  { intros c Hc ->. vm_compute in Hc. discriminate. }
  assert (Haln : forall c, is_alnum c = true -> c <> ch "@").
  { intros c Hc ->. vm_compute in Hc. discriminate. }
  destruct Hin as [Hin | Hin]; [apply (Haln a Ha); congruence |].
  apply in_app_or in Hin. destruct Hin as [Hin | Hin].
  - rewrite Forall_forall in Hm. apply (Hdash _ (Hm _ Hin)). reflexivity.
  - destruct Hin as [Hin | Hin]; [apply (Haln b Hb); congruence |].
    vm_compute in Hin. intuition discriminate.
Qed.

Lemma suins_has_dot :
  forall s, suins_shape s -> In (ch ".") s.
Proof.
  intros s (a & m & b & -> & _).
  right. apply in_or_app. right. right. left. reflexivity.
Qed.

Lemma suiNS_is_no_email :
  forall s, isValidSuiNS s = true -> isValidEmail s = false.
Proof.
  intros s H. apply isValidSuiNS_shape in H. destruct H as [Hs _].
  destruct (isValidEmail s) eqn:He; [| reflexivity].
  exfalso. apply (suins_has_no_at _ Hs). apply email_has_at. exact He.
Qed.

Section AddressAlphabet.

(** What the development takes from the SDK's validator: a valid
    address is written with hexadecimal digits and the [x] of its
    prefix. *)
Hypothesis address_alphabet :
  forall s, isValidSuiAddress s = true -> forallb is_address_char s = true.

Lemma address_is_no_email :
  forall s, isValidSuiAddress s = true -> isValidEmail s = false.
Proof.
  intros s H. apply address_alphabet in H.
  destruct (isValidEmail s) eqn:He; [| reflexivity].
  apply email_has_at in He.
  rewrite forallb_forall in H. apply H in He.
  vm_compute in He. discriminate.
Qed.

Lemma suiNS_is_no_address :
  forall s, isValidSuiNS s = true -> isValidSuiAddress s = false.
Proof.
  intros s H. apply isValidSuiNS_shape in H. destruct H as [Hs _].
  destruct (isValidSuiAddress s) eqn:Ha; [| reflexivity].
  apply address_alphabet in Ha. apply suins_has_dot in Hs.
  rewrite forallb_forall in Ha. apply Ha in Hs.
  vm_compute in Hs. discriminate.
Qed.

(** A token that a cell carries is held once by the array of its
    kind. *)
Lemma parseBulkData_once :
  forall content t,
    In t (cell_tokens content) ->
    (isValidEmail t = true ->
     occurrences t (emails (parseBulkData content csv)) = 1%nat)
    /\ (isValidSuiAddress t = true ->
        occurrences t (addresses (parseBulkData content csv)) = 1%nat)
    /\ (isValidSuiNS t = true ->
        occurrences t (suiNSNames (parseBulkData content csv)) = 1%nat).
Proof.
  intros content t Hin. split; [| split]; intros Hv.
  - apply (parseBulkData_field_once emails selects_email
             process_cell_emails eq_refl content t Hin).
    exact Hv.
  - apply (parseBulkData_field_once addresses selects_address
             process_cell_addresses eq_refl content t Hin).
    unfold selects_address. rewrite (address_is_no_email t Hv), Hv.
    reflexivity.
  - apply (parseBulkData_field_once suiNSNames selects_suiNS
             process_cell_suiNSNames eq_refl content t Hin).
    unfold selects_suiNS.
    rewrite (suiNS_is_no_email t Hv), (suiNS_is_no_address t Hv), Hv.
    reflexivity.
Qed.

End AddressAlphabet.

(** C8.  For every CSV text in which the same valid email, Sui address
    or SuiNS name is the token of two or more cells, [parseBulkData]
    returns that token once in the array of its kind.  The SDK's
    validator is taken to accept only strings of hexadecimal digits
    and the [x] of the prefix. *)
Theorem parseBulkData_deduplicates :
  (forall s, isValidSuiAddress s = true -> forallb is_address_char s = true) ->
  forall (content t : jsstring),
    (2 <= occurrences t (cell_tokens content))%nat ->
    (isValidEmail t = true ->
     occurrences t (emails (parseBulkData content csv)) = 1%nat)
    /\ (isValidSuiAddress t = true ->
        occurrences t (addresses (parseBulkData content csv)) = 1%nat)
    /\ (isValidSuiNS t = true ->
        occurrences t (suiNSNames (parseBulkData content csv)) = 1%nat).
Proof.
  intros Halphabet content t Htwice.
  apply parseBulkData_once; [exact Halphabet |].
  unfold occurrences in Htwice.
  apply (count_occ_In jsstring_eq_dec). lia.
Qed.

(* ================================================================== *)
(** * fileService: the file name in Content-Disposition *)
(* ================================================================== *)

Lemma strip_prefix_Some :
  forall p s r, strip_prefix p s = Some r <-> s = p ++ r.
Proof.
  induction p as [| a p IH]; intros s r; simpl.
  - split; [intros H; injection H as ->; reflexivity | intros ->; reflexivity].
  - destruct s as [| b s].
    + split; discriminate.
    + destruct (N.eqb_spec a b) as [-> | Hne].
      * rewrite IH. split; [intros ->; reflexivity | intros H; injection H; auto].
      * split; [discriminate | intros H; injection H; congruence].
Qed.

Lemma app_same_length :
  forall (A : Type) (a a' b b' : list A),
    a ++ b = a' ++ b' -> List.length a = List.length a' -> a = a' /\ b = b'.
Proof.
  intros A a. induction a as [| x a IH]; intros [| y a'] b b' H Hlen;
    simpl in *; try discriminate.
  - split; [reflexivity | exact H].
  - injection H as -> H. injection Hlen as Hlen.
    destruct (IH _ _ _ H Hlen) as [-> ->]. split; reflexivity.
Qed.

Lemma take_while_split :
  forall p s, exists rest, s = take_while p s ++ rest.
Proof.
  intros p s. induction s as [| c s [rest IH]]; simpl.
  - exists []. reflexivity.
  - destruct (p c).
    + exists rest. simpl. rewrite <- IH. reflexivity.
    + exists (c :: s). reflexivity.
Qed.

Lemma take_while_all :
  forall p s, Forall (fun c => p c = true) (take_while p s).
Proof.
  intros p s. induction s as [| c s IH]; simpl; [constructor |].
  destruct (p c) eqn:Hc; constructor; assumption.
Qed.

(** A prefix whose code units all pass is a prefix of [take_while]. *)
Lemma take_while_prefix :
  forall p u s rest,
    s = u ++ rest -> Forall (fun c => p c = true) u ->
    exists rest', take_while p s = u ++ rest'.
Proof.
  intros p u. induction u as [| c u IH]; intros s rest -> Hall; simpl.
  - eexists. reflexivity.
  - inversion Hall as [| ? ? Hc Hu]; subst. rewrite Hc.
    destruct (IH (u ++ rest) rest eq_refl Hu) as [rest' ->].
    eexists. reflexivity.
Qed.

Lemma up_to_last_quote_Some :
  forall run t,
    up_to_last_quote run = Some t ->
    (exists post, run = t ++ dquote :: post)
    /\ (forall t' post',
           run = t' ++ dquote :: post' ->
           (List.length t' <= List.length t)%nat).
Proof.
  induction run as [| c run IH]; intros t H; simpl in H; [discriminate |].
  destruct (up_to_last_quote run) as [u |] eqn:Hu.
  - injection H as <-. destruct (IH u eq_refl) as [[post ->] Hmax].
    split; [exists post; reflexivity |].
    intros [| c' t'] post' Heq; simpl; [lia |].
    injection Heq as _ Heq. apply Hmax in Heq. lia.
  - destruct (N.eqb_spec c dquote) as [-> | Hne]; [| discriminate].
    injection H as <-. split; [exists run; reflexivity |].
    intros [| c' t'] post' Heq; simpl; [lia |].
    injection Heq as _ Heq. exfalso.
    clear IH. revert t' post' Heq Hu.
    induction run as [| d run IH]; intros t' post' Heq Hu.
    + destruct t'; discriminate.
    + simpl in Hu. destruct (up_to_last_quote run) eqn:Hr; [discriminate |].
      destruct (N.eqb_spec d dquote) as [-> | Hd]; [discriminate |].
      destruct t' as [| e t']; simpl in Heq.
      * injection Heq as Heq _. congruence.
      * injection Heq as _ Heq. apply (IH t' post' Heq eq_refl).
Qed.

Lemma up_to_last_quote_None :
  forall run,
    up_to_last_quote run = None ->
    forall t post, run <> t ++ dquote :: post.
Proof.
  induction run as [| d run IH]; intros Hu t post Heq.
  - destruct t; discriminate.
  - simpl in Hu. destruct (up_to_last_quote run) eqn:Hr; [discriminate |].
    destruct (N.eqb_spec d dquote) as [-> | Hd]; [discriminate |].
    destruct t as [| e t]; simpl in Heq.
    + injection Heq as Heq _. congruence.
    + injection Heq as _ Heq. apply (IH eq_refl t post Heq).
Qed.

Lemma dot_dquote : dot dquote = true.
Proof. reflexivity. Qed.

(** A match at the head of [s] reaches into the run of [.] code units
    that follows the prefix. *)
Lemma match_at_head_in_run :
  forall s rest capture,
    s = filename_prefix ++ rest ->
    filename_match_at s [] capture ->
    exists post, take_while dot rest = capture ++ dquote :: post.
Proof.
  intros s rest capture Hs (Hne & Hall & tail & Heq).
  rewrite app_nil_l, Hs in Heq. apply app_inv_head in Heq.
  assert (Hpre : rest = (capture ++ [dquote]) ++ tail)
    by (rewrite <- app_assoc; exact Heq).
  destruct (take_while_prefix dot (capture ++ [dquote]) rest tail Hpre)
    as [post Hpost].
  - apply Forall_app. split; [exact Hall |].
    constructor; [apply dot_dquote | constructor].
  - exists post. rewrite Hpost, <- app_assoc. reflexivity.
Qed.

Lemma filename_match_here_Some :
  forall s capture,
    filename_match_here s = Some capture ->
    filename_match_at s [] capture
    /\ (forall capture',
           filename_match_at s [] capture' ->
           (List.length capture' <= List.length capture)%nat).
Proof.
  intros s capture H. unfold filename_match_here in H.
  destruct (strip_prefix filename_prefix s) as [rest |] eqn:Hp; [| discriminate].
  apply strip_prefix_Some in Hp.
  destruct (up_to_last_quote (take_while dot rest)) as [[| c t] |] eqn:Hu;
    try discriminate.
  injection H as <-.
  destruct (up_to_last_quote_Some _ _ Hu) as [[post Hrun] Hmax].
  destruct (take_while_split dot rest) as [rest' Hrest].
  split.
  - split; [discriminate |]. split.
    + pose proof (take_while_all dot rest) as Hall.
      rewrite Hrun in Hall. apply Forall_app in Hall. apply Hall.
    + exists (post ++ rest'). rewrite app_nil_l, Hp.
      rewrite Hrest at 1. rewrite Hrun, <- app_assoc. reflexivity.
  - intros capture' Hm.
    destruct (match_at_head_in_run _ _ _ Hp Hm) as [post' Hpost'].
    apply (Hmax _ _ Hpost').
Qed.

Lemma filename_match_here_None :
  forall s capture,
    filename_match_here s = None -> ~ filename_match_at s [] capture.
Proof.
  intros s capture H Hm. unfold filename_match_here in H.
  destruct (strip_prefix filename_prefix s) as [rest |] eqn:Hp.
  - apply strip_prefix_Some in Hp.
    destruct (match_at_head_in_run _ _ _ Hp Hm) as [post Hpost].
    destruct Hm as (Hne & _).
    destruct (up_to_last_quote (take_while dot rest)) as [[| c t] |] eqn:Hu.
    + destruct (up_to_last_quote_Some _ _ Hu) as [_ Hmax].
      apply Hmax in Hpost. destruct capture; [congruence | simpl in Hpost; lia].
    + discriminate.
    + apply (up_to_last_quote_None _ Hu _ _ Hpost).
  - destruct Hm as (_ & _ & tail & Heq). rewrite app_nil_l in Heq.
    assert (Hs : strip_prefix filename_prefix s
                 = Some (capture ++ dquote :: tail))
      by (apply strip_prefix_Some; exact Heq).
    congruence.
Qed.

Lemma filename_match_at_cons :
  forall a s before capture,
    filename_match_at (a :: s) (a :: before) capture
    <-> filename_match_at s before capture.
Proof.
  intros a s before capture. unfold filename_match_at. split.
  - intros (Hne & Hall & rest & Heq). simpl in Heq. injection Heq as Heq.
    repeat split; try assumption. exists rest. exact Heq.
  - intros (Hne & Hall & rest & Heq).
    repeat split; try assumption. exists rest. rewrite Heq. reflexivity.
Qed.

Lemma filename_match_at_head :
  forall a s before capture,
    filename_match_at (a :: s) before capture ->
    before = [] \/ exists before', before = a :: before'.
Proof.
  intros a s [| b before] capture (_ & _ & rest & Heq); [left; reflexivity |].
  right. simpl in Heq. injection Heq as -> _. eexists. reflexivity.
Qed.

(** [filename_match] returns group 1 of the first match, and nothing
    when the header holds no match. *)
Lemma filename_match_spec :
  forall h,
    match filename_match h with
    | Some capture => first_filename_match h capture
    | None => no_filename_match h
    end.
Proof.
  induction h as [| a h IH].
  - simpl. destruct (filename_match_here []) as [c |] eqn:Hh.
    + discriminate.
    + intros before capture (_ & _ & rest & Heq).
      destruct before; discriminate.
  - simpl. destruct (filename_match_here (a :: h)) as [c |] eqn:Hh.
    + destruct (filename_match_here_Some _ _ Hh) as [Hm Hmax].
      exists []. split; [exact Hm |]. split; [intros; simpl; lia | exact Hmax].
    + destruct (filename_match h) as [c |].
      * destruct IH as (before & Hm & Hleft & Hgreedy).
        exists (a :: before).
        split; [exact (proj2 (filename_match_at_cons a _ _ _) Hm) |].
        split.
        -- intros before' capture' Hm'.
           destruct (filename_match_at_head _ _ _ _ Hm') as [-> | [b' ->]].
           ++ exfalso. apply (filename_match_here_None _ _ Hh Hm').
           ++ pose proof (proj1 (filename_match_at_cons _ _ _ _) Hm') as Hm0.
              pose proof (Hleft _ _ Hm0). simpl. lia.
        -- intros capture' Hm'. apply Hgreedy.
           exact (proj1 (filename_match_at_cons _ _ _ _) Hm').
      * intros before capture Hm.
        destruct (filename_match_at_head _ _ _ _ Hm) as [-> | [b' ->]].
        -- apply (filename_match_here_None _ _ Hh Hm).
        -- apply (IH _ _ (proj1 (filename_match_at_cons _ _ _ _) Hm)).
Qed.

(** A header has at most one first match. *)
Lemma first_filename_match_unique :
  forall h c1 c2,
    first_filename_match h c1 -> first_filename_match h c2 -> c1 = c2.
Proof.
  intros h c1 c2 (b1 & Hm1 & Hl1 & Hg1) (b2 & Hm2 & Hl2 & Hg2).
  assert (Hlen : List.length b1 = List.length b2).
  { pose proof (Hl1 _ _ Hm2). pose proof (Hl2 _ _ Hm1). lia. }
  assert (Hb : b1 = b2).
  { destruct Hm1 as (_ & _ & r1 & E1). destruct Hm2 as (_ & _ & r2 & E2).
    rewrite E1 in E2. apply (app_same_length _ _ _ _ _ E2 Hlen). }
  subst b2.
  assert (Hclen : List.length c1 = List.length c2).
  { pose proof (Hg1 _ Hm2). pose proof (Hg2 _ Hm1). lia. }
  destruct Hm1 as (_ & _ & r1 & E1). destruct Hm2 as (_ & _ & r2 & E2).
  rewrite E1 in E2. apply app_inv_head in E2. apply app_inv_head in E2.
  apply (app_same_length _ _ _ _ _ E2 Hclen).
Qed.

(** C10.  On every successful call of [downloadSharedFile], the
    returned file name is group 1 of the first match of
    [/filename="(.+)"/] in the Content-Disposition header, and
    "shared-file" when the header is absent or holds no match; and
    [isEncrypted] is true exactly when the X-File-Encrypted header is
    the string "true". *)
Theorem downloadSharedFile_filename_and_flag :
  forall (net : Network) (shareId : jsstring) (token : option jsstring)
         (log log' : list Request) (r : SharedDownload),
    downloadSharedFile net shareId token log = (Ok r, log') ->
    dl_success r = true ->
    exists response,
      net (download_request shareId token) = Ok response
      /\ (forall h capture,
            headers_get response (str "Content-Disposition") = Some h ->
            first_filename_match h capture ->
            dl_filename r = Some capture)
      /\ (headers_get response (str "Content-Disposition") = None
          \/ (exists h,
                 headers_get response (str "Content-Disposition") = Some h
                 /\ no_filename_match h) ->
          dl_filename r = Some (str "shared-file"))
      /\ (dl_isEncrypted r = Some true
          <-> headers_get response (str "X-File-Encrypted")
              = Some (str "true"))
      /\ (dl_isEncrypted r = Some true \/ dl_isEncrypted r = Some false).
Proof.
  intros net shareId token log log' r Hrun Hsucc.
  revert Hrun. unfold downloadSharedFile, etry, ebind, fetch, elift, eret.
  destruct (net (download_request shareId token)) as [response | e] eqn:Hnet.
  2: { intros H. injection H as <- _. discriminate. }
  destruct (negb (ok response)).
  { destruct (bind_throw_Error_throws SharedDownload jsval
                (get (try_catch (json response) (fun _ => JObj []))
                     (str "message"))
                (fun m => js_or m (JStr (str "Failed to download shared file"))))
      as [e He].
    rewrite He. intros H. injection H as <- _. discriminate. }
  destruct (blob response) as [fileData | e].
  2: { intros H. injection H as <- _. discriminate. }
  intros H. injection H as <- _. exists response.
  split; [reflexivity |]. simpl.
  split; [| split; [| split]].
  - intros h capture Hh Hfirst. rewrite Hh.
    pose proof (filename_match_spec h) as Hspec.
    destruct (filename_match h) as [c |].
    + assert (c = capture) as ->
          by (apply (first_filename_match_unique h); assumption).
      destruct h; [| reflexivity].
      destruct Hfirst as (before & (_ & _ & rest & Heq) & _).
      destruct before; discriminate.
    + destruct Hfirst as (before & Hm & _). destruct (Hspec _ _ Hm).
  - intros [Hnone | (h & Hh & Hno)].
    + rewrite Hnone. reflexivity.
    + rewrite Hh. pose proof (filename_match_spec h) as Hspec.
      destruct (filename_match h) as [c |].
      * destruct Hspec as (before & Hm & _). destruct (Hno _ _ Hm).
      * destruct (truthy_str h); reflexivity.
  - destruct (headers_get response (str "X-File-Encrypted")) as [v |].
    + split.
      * intros H. injection H as H. apply jseqb_eq in H. subst. reflexivity.
      * intros H. injection H as ->. reflexivity.
    + split; discriminate.
  - destruct (headers_get response (str "X-File-Encrypted")) as [v |];
      [destruct (jseqb v (str "true")) |]; auto.
Qed.

(* ================================================================== *)
(** * FileUpload: the fallback to an unencrypted upload *)
(* ================================================================== *)

(** Without a ready adapter or a successful encryption, the locals of
    [uploadSingleFile] stay as initialised. *)
Lemma prepare_upload_unencrypted :
  forall ctx attachedFile,
    encryptionState_isReady ctx = false
    \/ encryption_fails ctx (af_file attachedFile) ->
    prepare_upload ctx attachedFile = unencrypted attachedFile.
Proof.
  intros ctx attachedFile H. unfold prepare_upload.
  destruct (encryptionState_isReady ctx); [| reflexivity].
  destruct H as [H | H]; [discriminate |].
  unfold encryption_fails in H.
  destruct (hook_encryptFile ctx (af_file attachedFile)) as [r | e]; simpl.
  - rewrite H. reflexivity.
  - reflexivity.
Qed.

(** [uploadFile] without encryption data sends the file it is given,
    once, and returns the parsed reply as it is or the failure
    object. *)
Lemma uploadFile_plain :
  forall net file token mode log,
    exists result,
      uploadFile net file token mode None log
      = (Ok result, log ++ [upload_request file token mode])
      /\ ((exists response,
              net (upload_request file token mode) = Ok response
              /\ ok response = true /\ json response = Ok result)
          \/ exists msg, result = failure_object msg).
Proof.
  intros net file token mode log.
  unfold uploadFile, etry, ebind, fetch, elift, eret.
  destruct (net (upload_request file token mode)) as [response | e] eqn:Hnet.
  2: { eexists. split; [reflexivity |]. right. eexists. reflexivity. }
  destruct (json response) as [result | e] eqn:Hjson.
  2: { eexists. split; [reflexivity |]. right. eexists. reflexivity. }
  destruct (ok response) eqn:Hok; simpl negb; cbv iota.
  - exists result. split; [reflexivity |]. left.
    exists response. auto.
  - destruct (bind_throw_Error_throws jsval jsval
                (get result (str "message"))
                (fun m => js_or m (JStr (str "Upload failed")))) as [e He].
    rewrite He.
    eexists. split; [reflexivity |]. right. eexists. reflexivity.
Qed.

(** C3, as it holds of the code.  For every attached file, when the
    test mode is on or the user is authenticated, and the adapter is
    not ready or the
    encryption fails, [uploadSingleFile] sends one upload request, with
    the original file and no encryption data, and adds nothing to the
    reply: it returns the backend's reply as parsed, or the failure
    object [{success: false, message}]. *)
Theorem uploadSingleFile_falls_back :
  forall (ctx : UploadContext) (net : Network) (attachedFile : AttachedFile)
         (log : list Request),
    useTestMode ctx = true \/ isAuthenticated ctx = true ->
    encryptionState_isReady ctx = false
    \/ encryption_fails ctx (af_file attachedFile) ->
    exists result,
      uploadSingleFile ctx net attachedFile log
      = (Ok result,
         log ++ [upload_request (af_file attachedFile) (token ctx)
                                (useTestMode ctx)])
      /\ ((exists response,
              net (upload_request (af_file attachedFile) (token ctx)
                                  (useTestMode ctx)) = Ok response
              /\ ok response = true /\ json response = Ok result)
          \/ exists msg, result = failure_object msg).
Proof.
  intros ctx net attachedFile log Hauth Hfallback.
  unfold uploadSingleFile.
  assert (Hgate : negb (useTestMode ctx) && negb (isAuthenticated ctx) = false).
  { destruct Hauth as [-> | ->]; [reflexivity | apply andb_false_r]. }
  rewrite Hgate, (prepare_upload_unencrypted _ _ Hfallback).
  change (encryption_data (unencrypted attachedFile)) with (@None EncryptionData).
  destruct (uploadFile_plain net (af_file attachedFile) (token ctx)
              (useTestMode ctx) log) as (reply & Hup & Hreply).
  unfold etry, ebind, elift, eret. rewrite Hup.
  destruct (get reply (str "success")) as [success |] eqn:Hs; simpl.
  2: { eexists. split; [reflexivity |]. right. eexists. reflexivity. }
  destruct (truthy success); simpl.
  - exists reply. split; [reflexivity |].
    destruct Hreply as [Hserver | [msg ->]]; [left; exact Hserver |].
    right. exists msg. reflexivity.
  - destruct (bind_throw_Error_throws jsval jsval
                (get reply (str "message"))
                (fun m => js_or m (JStr (str "Upload failed")))) as [e He].
    rewrite He.
    eexists. split; [reflexivity |]. right. eexists. reflexivity.
Qed.

(* ================================================================== *)
(** * sealEncryptionService: failures are returned, the key is unused *)
(* ================================================================== *)

(** C7.  The result of [decryptFile] does not depend on the secret
    key: for every byte sequence and every two keys, the two calls
    return the same result (success flag, data and error) and leave the
    service in the same state. *)
Theorem decryptFile_ignores_secretKey :
  forall (env : Env) (encryptedData : list byte) (k1 k2 : jsstring)
         (st : ServiceState),
    decryptFile env encryptedData k1 st = decryptFile env encryptedData k2 st.
Proof.
  intros env encryptedData k1 k2 st. unfold decryptFile. reflexivity.
Qed.

Lemma _encryptData_cases :
  forall env data pk,
    (exists text,
        JSON_stringify_checked (encryptionMetadata env data pk) = Ok text
        /\ _encryptData env data pk = data_ok (TextEncoder_encode text))
    \/ exists msg, _encryptData env data pk = data_failed msg.
Proof.
  intros env data pk. unfold _encryptData.
  destruct (JSON_stringify_checked (encryptionMetadata env data pk))
    as [text | e]; simpl.
  - left. exists text. split; reflexivity.
  - right. eexists. reflexivity.
Qed.

(** C6.  [encryptFile] and [decryptFile] never throw: for every file
    (also one whose read fails), every byte sequence (also one that is
    no envelope), every key and every state of the service, each
    returns a result, and a result that is not a success is
    [{success: false, error}] with a string. *)
Theorem encryption_adapter_never_throws :
  forall (env : Env) (file : File) (encryptedData : list byte)
         (key : jsstring) (st : ServiceState),
    (exists r st',
        encryptFile env file st = (Ok r, st') /\ enc_reported r)
    /\ (exists r st',
           decryptFile env encryptedData key st = (Ok r, st')
           /\ dec_reported r).
Proof.
  intros env file encryptedData key st. split.
  - unfold encryptFile, etry, ebind, eret, elift.
    destruct (initialize env st) as [[[] | e] st1].
    2: { eexists. eexists. split; [reflexivity |]. right. eexists. reflexivity. }
    destruct (negb (isReady st1)).
    { eexists. eexists. split; [reflexivity |]. right. eexists. reflexivity. }
    destruct (arrayBuffer file) as [fileData | e].
    2: { eexists. eexists. split; [reflexivity |]. right. eexists. reflexivity. }
    destruct (negb (kp_success (_generateKeyPair env))).
    { eexists. eexists. split; [reflexivity |]. right. eexists. reflexivity. }
    destruct (negb (data_success
                      (_encryptData env fileData
                         (kp_publicKey (_generateKeyPair env))))).
    { eexists. eexists. split; [reflexivity |]. right. eexists. reflexivity. }
    eexists. eexists. split; [reflexivity |]. left. reflexivity.
  - unfold decryptFile, etry, ebind, eret.
    destruct (initialize env st) as [[[] | e] st1].
    2: { eexists. eexists. split; [reflexivity |]. right. eexists. reflexivity. }
    destruct (negb (isReady st1)).
    { eexists. eexists. split; [reflexivity |]. right. eexists. reflexivity. }
    destruct (negb (data_success (_decryptData encryptedData))).
    { eexists. eexists. split; [reflexivity |]. right. eexists. reflexivity. }
    eexists. eexists. split; [reflexivity |]. left. reflexivity.
Qed.

(* ================================================================== *)
(** * JSON: the envelope is read back as written *)
(* ================================================================== *)

Lemma plain_char_bounds :
  forall c, plain_char c = true ->
            (32 <= c < 127)%N /\ c <> dquote /\ c <> backslash.
Proof.
  intros c H. unfold plain_char in H.
  rewrite !andb_true_iff, !negb_true_iff in H.
  destruct H as [[[H1 H2] H3] H4].
  apply N.leb_le in H1. apply N.ltb_lt in H2.
  apply N.eqb_neq in H3. apply N.eqb_neq in H4. auto.
Qed.

Lemma json_escape_plain :
  forall c, plain_char c = true -> json_escape c = None.
Proof.
  intros c H. apply plain_char_bounds in H. destruct H as ([Hlo Hhi] & Hq & Hb).
  unfold json_escape.
  repeat match goal with
         | |- context [(c =? ?k)%N] =>
             destruct (N.eqb_spec c k) as [Heq | _];
             [exfalso; first [contradiction | subst c; vm_compute in Hlo; congruence] |]
         end.
  destruct (N.ltb_spec c 32); [lia | reflexivity].
Qed.

Lemma plain_not_surrogate :
  forall c, plain_char c = true ->
            is_high_surrogate c = false /\ is_low_surrogate c = false.
Proof.
  intros c H. apply plain_char_bounds in H. destruct H as ([Hlo Hhi] & _).
  unfold is_high_surrogate, is_low_surrogate. split.
  - destruct (N.leb_spec 55296 c); [lia | reflexivity].
  - destruct (N.leb_spec 56320 c); [lia | reflexivity].
Qed.

Lemma quote_body_plain :
  forall s, Forall (fun c => plain_char c = true) s -> quote_body s = s.
Proof.
  induction 1 as [| c s Hc _ IH]; simpl; [reflexivity |].
  rewrite (json_escape_plain _ Hc).
  destruct (plain_not_surrogate _ Hc) as [-> ->]. rewrite IH. reflexivity.
Qed.

Lemma parse_string_body_plain :
  forall s rest,
    Forall (fun c => plain_char c = true) s ->
    parse_string_body (s ++ dquote :: rest) = Some (s, rest).
Proof.
  intros s rest. induction 1 as [| c s Hc _ IH]; simpl.
  - reflexivity.
  - apply plain_char_bounds in Hc. destruct Hc as ([Hlo Hhi] & Hq & Hb).
    destruct (N.eqb_spec c dquote); [contradiction |].
    destruct (N.eqb_spec c backslash); [contradiction |].
    destruct (N.ltb_spec c 32); [lia |].
    rewrite IH. reflexivity.
Qed.

(** Digits. *)
Lemma digit_cons_ends_value :
  forall rest, ends_value rest ->
               match rest with
               | c :: _ => digit_cons c = None
               | [] => True
               end.
Proof.
  intros rest (c & r & -> & [-> | [-> | ->]]); reflexivity.
Qed.

Lemma scan_digits_print :
  forall u rest,
    match rest with c :: _ => digit_cons c = None | [] => True end ->
    scan_digits (print_uint u ++ rest) = (u, rest).
Proof.
  induction u; intros rest Hrest; simpl;
    try (rewrite (IHu rest Hrest); reflexivity).
  destruct rest as [| c r]; [reflexivity |].
  simpl. rewrite Hrest. reflexivity.
Qed.

Lemma to_uint_normal :
  forall n, Decimal.unorm (N.to_uint n) = N.to_uint n.
Proof.
  intros n. rewrite <- (DecimalN.Unsigned.to_of (N.to_uint n)).
  rewrite DecimalN.Unsigned.of_to. reflexivity.
Qed.

Lemma to_uint_not_nil : forall n, N.to_uint n <> Decimal.Nil.
Proof.
  intros [| p]; simpl; [discriminate |].
  apply DecimalPos.Unsigned.to_uint_nonnil.
Qed.

(** A printed number has no leading zero. *)
Lemma to_uint_no_leading_zero :
  forall n u, N.to_uint n = Decimal.D0 u -> u = Decimal.Nil.
Proof.
  intros n u H. pose proof (to_uint_normal n) as Hn. rewrite H in Hn.
  rewrite DecimalFacts.unorm_D0 in Hn.
  destruct u; try reflexivity;
    match type of Hn with
    | Decimal.unorm ?v = _ =>
        assert (Hnil : v <> Decimal.Nil) by discriminate;
        pose proof (DecimalFacts.nb_digits_unorm v Hnil) as Hlen;
        rewrite Hn in Hlen; simpl in Hlen; lia
    end.
Qed.

(** The first code unit of a printed number is a digit. *)
Lemma print_uint_head :
  forall u, u <> Decimal.Nil ->
            exists c r, print_uint u = c :: r /\ is_digit c = true.
Proof.
  intros u Hu. destruct u; [congruence | ..]; simpl; eexists; eexists;
    split; reflexivity.
Qed.

Lemma is_digit_cases :
  forall c, is_digit c = true ->
            c = 48%N \/ c = 49%N \/ c = 50%N \/ c = 51%N \/ c = 52%N
            \/ c = 53%N \/ c = 54%N \/ c = 55%N \/ c = 56%N \/ c = 57%N.
Proof.
  intros c H. unfold is_digit, in_range in H.
  apply andb_true_iff in H. destruct H as [H1 H2].
  apply N.leb_le in H1. apply N.leb_le in H2.
  change (ch "0") with 48%N in H1. change (ch "9") with 57%N in H2. lia.
Qed.

(** A value that starts with a digit is a number. *)
Lemma parse_value_digit :
  forall fuel c r,
    is_digit c = true ->
    parse_value (S fuel) (c :: r) = parse_number (c :: r).
Proof.
  intros fuel c r H. apply is_digit_cases in H.
  destruct H as [-> | [-> | [-> | [-> | [-> | [-> | [-> | [-> | [-> | ->]]]]]]]]];
    reflexivity.
Qed.

Lemma parse_number_nat :
  forall n rest,
    (n <= 2 ^ 53)%N -> ends_value rest ->
    parse_number (nat_toString n ++ rest) = Some (JNum (num_of_N n), rest).
Proof.
  intros n rest Hn Hrest. unfold parse_number, nat_toString.
  destruct (print_uint_head (N.to_uint n) (to_uint_not_nil n))
    as (c & r & Hhead & Hc).
  assert (Hminus : (c =? ch "-")%N = false).
  { apply is_digit_cases in Hc.
    destruct Hc as [-> | [-> | [-> | [-> | [-> | [-> | [-> | [-> | [-> | ->]]]]]]]]];
      reflexivity. }
  rewrite Hhead. simpl app. cbv iota. rewrite Hminus.
  change (c :: r ++ rest) with ((c :: r) ++ rest). rewrite <- Hhead.
  rewrite (scan_digits_print _ _ (digit_cons_ends_value _ Hrest)).
  assert (Hfrac : scan_fraction rest = Some (None, rest)).
  { destruct Hrest as (d & t & -> & [-> | [-> | ->]]); reflexivity. }
  assert (Hexp : scan_exponent rest = Some (None, rest)).
  { destruct Hrest as (d & t & -> & [-> | [-> | ->]]); reflexivity. }
  assert (Hval :
            literal_number {| lit_negative := false; lit_int := N.to_uint n;
                              lit_frac := None; lit_exp := None |}
            = num_of_N n).
  { unfold literal_number.
    cbn [lit_frac lit_exp lit_int lit_negative].
    rewrite DecimalN.Unsigned.of_to.
    rewrite (proj2 (N.leb_le n (2 ^ 53)) Hn). reflexivity. }
  pose proof (to_uint_not_nil n) as Hnil.
  pose proof (to_uint_no_leading_zero n) as Hzero.
  destruct (N.to_uint n) as [| u | u | u | u | u | u | u | u | u | u] eqn:Hu;
    try congruence;
    try (rewrite Hfrac, Hexp, Hval; reflexivity).
  rewrite (Hzero u eq_refl) in *. rewrite Hfrac, Hexp, Hval. reflexivity.
Qed.

Lemma parse_value_nat :
  forall fuel n rest,
    (n <= 2 ^ 53)%N -> ends_value rest ->
    parse_value (S fuel) (nat_toString n ++ rest)
    = Some (JNum (num_of_N n), rest).
Proof.
  intros fuel n rest Hn Hrest.
  destruct (print_uint_head (N.to_uint n) (to_uint_not_nil n))
    as (c & r & Hhead & Hc).
  pose proof (parse_number_nat n rest Hn Hrest) as Hnum.
  unfold nat_toString in *. rewrite Hhead in *. simpl app in *.
  rewrite (parse_value_digit fuel c _ Hc). exact Hnum.
Qed.

(** One step of each of the three parsers. *)
Lemma parse_value_array_eq :
  forall fuel s,
    parse_value (S fuel) (ch "[" :: s)
    = match skip_ws s with
      | d :: r' =>
          if (d =? ch "]")%N then Some (JArr [], r')
          else match parse_elements fuel s with
               | Some (vs, rest) => Some (JArr vs, rest)
               | None => None
               end
      | [] => None
      end.
Proof. reflexivity. Qed.

Lemma parse_value_object_eq :
  forall fuel s,
    parse_value (S fuel) (ch "{" :: s)
    = match skip_ws s with
      | d :: r' =>
          if (d =? ch "}")%N then Some (JObj [], r')
          else match parse_members fuel s with
               | Some (fs, rest) => Some (JObj fs, rest)
               | None => None
               end
      | [] => None
      end.
Proof. reflexivity. Qed.

Lemma parse_value_string_eq :
  forall fuel s,
    parse_value (S fuel) (dquote :: s)
    = match parse_string_body s with
      | Some (t, rest) => Some (JStr t, rest)
      | None => None
      end.
Proof. reflexivity. Qed.

Lemma parse_elements_eq :
  forall fuel s,
    parse_elements (S fuel) s
    = match parse_value fuel s with
      | Some (v, r) =>
          match skip_ws r with
          | c :: r' =>
              if (c =? ch ",")%N then
                match parse_elements fuel r' with
                | Some (vs, rest) => Some (v :: vs, rest)
                | None => None
                end
              else if (c =? ch "]")%N then Some ([v], r')
              else None
          | [] => None
          end
      | None => None
      end.
Proof. reflexivity. Qed.

Lemma parse_members_eq :
  forall fuel s,
    parse_members (S fuel) (dquote :: s)
    = match parse_string_body s with
      | Some (k, r1) =>
          match skip_ws r1 with
          | c :: r2 =>
              if (c =? ch ":")%N then
                match parse_value fuel r2 with
                | Some (v, r3) =>
                    match skip_ws r3 with
                    | d :: r4 =>
                        if (d =? ch ",")%N then
                          match parse_members fuel r4 with
                          | Some (fs, rest) => Some ((k, v) :: fs, rest)
                          | None => None
                          end
                        else if (d =? ch "}")%N then Some ([(k, v)], r4)
                        else None
                    | [] => None
                    end
                | None => None
                end
              else None
          | [] => None
          end
      | None => None
      end.
Proof. reflexivity. Qed.

Lemma skip_ws_digit :
  forall c r, is_digit c = true -> skip_ws (c :: r) = c :: r.
Proof.
  intros c r H. apply is_digit_cases in H.
  destruct H as [-> | [-> | [-> | [-> | [-> | [-> | [-> | [-> | [-> | ->]]]]]]]]];
    reflexivity.
Qed.

Lemma digit_not_bracket :
  forall c, is_digit c = true -> (c =? ch "]")%N = false.
Proof.
  intros c H. apply is_digit_cases in H.
  destruct H as [-> | [-> | [-> | [-> | [-> | [-> | [-> | [-> | [-> | ->]]]]]]]]];
    reflexivity.
Qed.

Lemma parse_elements_numbers :
  forall ns rest fuel,
    ns <> [] ->
    Forall (fun n => (n <= 2 ^ 53)%N) ns ->
    (List.length ns < fuel)%nat ->
    parse_elements fuel (numbers_text ns ++ ch "]" :: rest)
    = Some (json_numbers ns, rest).
Proof.
  induction ns as [| n ns IH]; intros rest fuel Hne Hall Hfuel; [congruence |].
  inversion Hall as [| ? ? Hn Hns]; subst.
  destruct fuel as [| [| fuel]]; simpl in Hfuel; try lia.
  rewrite parse_elements_eq.
  destruct ns as [| m ns'].
  - unfold numbers_text. simpl map. simpl join.
    rewrite (parse_value_nat fuel n (ch "]" :: rest) Hn).
    + reflexivity.
    + exists (ch "]"), rest. auto.
  - unfold numbers_text. simpl map.
    change (join (str ",") (nat_toString n :: nat_toString m :: map nat_toString ns'))
      with (nat_toString n ++ str "," ++ numbers_text (m :: ns')).
    rewrite <- !app_assoc.
    change (str "," ++ numbers_text (m :: ns') ++ ch "]" :: rest)
      with (ch "," :: (numbers_text (m :: ns') ++ ch "]" :: rest)).
    rewrite (parse_value_nat fuel n _ Hn).
    + change (skip_ws (ch "," :: numbers_text (m :: ns') ++ ch "]" :: rest))
        with (ch "," :: numbers_text (m :: ns') ++ ch "]" :: rest).
      change ((ch "," =? ch ",")%N) with true. cbv iota.
      rewrite (IH rest (S fuel)); [reflexivity | discriminate | exact Hns |].
      simpl in *. lia.
    + eexists. eexists. split; [reflexivity | auto].
Qed.

Lemma numbers_text_head :
  forall n ns, exists c r,
    numbers_text (n :: ns) = c :: r /\ is_digit c = true.
Proof.
  intros n ns.
  destruct (print_uint_head (N.to_uint n) (to_uint_not_nil n))
    as (c & r & Hhead & Hc).
  unfold numbers_text, nat_toString. simpl map.
  destruct ns as [| m ns']; simpl join; rewrite Hhead.
  - exists c, r. auto.
  - eexists c, _. split; [reflexivity | exact Hc].
Qed.

(** An array of numbers is read back. *)
Lemma parse_value_numbers :
  forall ns rest fuel,
    Forall (fun n => (n <= 2 ^ 53)%N) ns ->
    (List.length ns + 1 < fuel)%nat ->
    parse_value fuel (ch "[" :: numbers_text ns ++ ch "]" :: rest)
    = Some (JArr (json_numbers ns), rest).
Proof.
  intros ns rest fuel Hall Hfuel.
  destruct fuel as [| fuel]; [lia |].
  rewrite parse_value_array_eq.
  destruct ns as [| n ns].
  - reflexivity.
  - destruct (numbers_text_head n ns) as (c & r & Hhead & Hc).
    assert (Hskip : skip_ws (numbers_text (n :: ns) ++ ch "]" :: rest)
                    = c :: r ++ ch "]" :: rest).
    { rewrite Hhead. apply (skip_ws_digit c _ Hc). }
    rewrite Hskip, (digit_not_bracket c Hc).
    rewrite (parse_elements_numbers (n :: ns) rest fuel);
      [reflexivity | discriminate | exact Hall | simpl in *; lia].
Qed.

Lemma Number_toString_nat :
  forall n, (n < 10 ^ 21)%N -> Number_toString (num_of_N n) = nat_toString n.
Proof.
  intros n Hn. unfold Number_toString, num_of_N, num_of_Z, is_integer, trunc.
  cbn [inject_Z Qnum Qden].
  rewrite Z.rem_1_r, Z.quot_1_r. cbn [Z.eqb andb].
  assert (Habs : (Z.abs (Z.of_N n) <? 10 ^ 21)%Z = true).
  { apply Z.ltb_lt. rewrite Z.abs_eq by lia.
    change (10 ^ 21)%Z with (Z.of_N (10 ^ 21)). lia. }
  rewrite Habs.
  destruct (Z.ltb_spec (Z.of_N n) 0); [lia |].
  rewrite N2Z.id. reflexivity.
Qed.

Lemma byte_small : forall b : byte, (Byte.to_N b < 256)%N.
Proof. intros b. pose proof (Byte.to_N_bounded b). lia. Qed.

Lemma stringify_Array_from :
  forall data,
    JSON_stringify (Array_from data)
    = ch "[" :: numbers_text (bytes_values data) ++ [ch "]"].
Proof.
  intros data. unfold Array_from, numbers_text, bytes_values.
  cbn [JSON_stringify]. rewrite !map_map.
  f_equal. f_equal. f_equal.
  apply map_ext. intros b. cbn [JSON_stringify].
  unfold num_of_N, num_of_Z.
  change (Number_toString (Finite (inject_Z (Z.of_N (Byte.to_N b)))))
    with (Number_toString (num_of_N (Byte.to_N b))).
  apply Number_toString_nat.
  pose proof (byte_small b). apply N.lt_trans with 256%N; [assumption | reflexivity].
Qed.

Lemma stringify_nat :
  forall n, (n < 10 ^ 21)%N -> JSON_stringify (JNum (num_of_N n)) = nat_toString n.
Proof.
  intros n Hn. rewrite <- (Number_toString_nat n Hn). reflexivity.
Qed.

Lemma stringify_plain_string :
  forall s, Forall (fun c => plain_char c = true) s ->
            JSON_stringify (JStr s) = string_text s.
Proof.
  intros s Hs. cbn [JSON_stringify]. unfold JSON_quote, string_text.
  rewrite (quote_body_plain s Hs). reflexivity.
Qed.

Lemma stringify_object5 :
  forall k1 v1 k2 v2 k3 v3 k4 v4 k5 v5,
    v1 <> JUndefined -> v2 <> JUndefined -> v3 <> JUndefined ->
    v4 <> JUndefined -> v5 <> JUndefined ->
    JSON_stringify (JObj [(k1, v1); (k2, v2); (k3, v3); (k4, v4); (k5, v5)])
    = ch "{" ::
      ((JSON_quote k1 ++ ch ":" :: JSON_stringify v1) ++ str "," ++
       (JSON_quote k2 ++ ch ":" :: JSON_stringify v2) ++ str "," ++
       (JSON_quote k3 ++ ch ":" :: JSON_stringify v3) ++ str "," ++
       (JSON_quote k4 ++ ch ":" :: JSON_stringify v4) ++ str "," ++
       (JSON_quote k5 ++ ch ":" :: JSON_stringify v5)) ++ [ch "}"].
Proof.
  intros k1 v1 k2 v2 k3 v3 k4 v4 k5 v5 H1 H2 H3 H4 H5.
  destruct v1; try congruence; destruct v2; try congruence;
    destruct v3; try congruence; destruct v4; try congruence;
    destruct v5; try congruence; reflexivity.
Qed.

Lemma stringify_chunks :
  forall data,
    JSON_stringify (JArr [Array_from data])
    = ch "[" :: ch "[" :: numbers_text (bytes_values data) ++ [ch "]"; ch "]"].
Proof.
  intros data.
  change (JSON_stringify (JArr [Array_from data]))
    with (ch "[" :: JSON_stringify (Array_from data) ++ [ch "]"]).
  rewrite stringify_Array_from. simpl. rewrite <- app_assoc. reflexivity.
Qed.

(** The text that [JSON.stringify] gives for the envelope. *)
Lemma stringify_envelope :
  forall env data (pk : jsstring),
    Forall (fun c => plain_char c = true) pk ->
    (N.of_nat (List.length data) < 10 ^ 21)%N ->
    JSON_stringify (encryptionMetadata env data (Some pk))
    = envelope_text env data pk.
Proof.
  intros env data pk Hpk Hlen. unfold encryptionMetadata.
  rewrite stringify_object5 by (simpl; discriminate).
  cbn [opt_str].
  rewrite (stringify_plain_string pk Hpk).
  rewrite (stringify_nat _ Hlen).
  rewrite stringify_nat.
  2: { pose proof (millis_in_range (now_encrypt env)) as Hms.
       apply N.le_lt_trans with (1 := Hms). reflexivity. }
  rewrite stringify_chunks.
  unfold envelope_text, member_text, string_text, JSON_quote.
  cbn [JSON_stringify].
  unfold JSON_quote.
  change (quote_body (str "algorithm")) with (str "algorithm").
  change (quote_body (str "Seal-BFV")) with (str "Seal-BFV").
  change (quote_body (str "publicKey")) with (str "publicKey").
  change (quote_body (str "originalSize")) with (str "originalSize").
  change (quote_body (str "timestamp")) with (str "timestamp").
  change (quote_body (str "encryptedChunks")) with (str "encryptedChunks").
  f_equal.
  repeat (rewrite <- ?app_assoc, <- ?app_comm_cons).
  reflexivity.
Qed.

(** A member that another member follows. *)
Lemma parse_members_more :
  forall fuel key value_text v more fs rest,
    Forall (fun c => plain_char c = true) key ->
    parse_value fuel (value_text ++ ch "," :: more) = Some (v, ch "," :: more) ->
    parse_members fuel more = Some (fs, rest) ->
    parse_members (S fuel) (member_text key value_text (ch "," :: more))
    = Some ((key, v) :: fs, rest).
Proof.
  intros fuel key value_text v more fs rest Hkey Hval Hmore.
  unfold member_text. rewrite parse_members_eq.
  rewrite (parse_string_body_plain key _ Hkey).
  change (skip_ws (ch ":" :: value_text ++ ch "," :: more))
    with (ch ":" :: value_text ++ ch "," :: more).
  change ((ch ":" =? ch ":")%N) with true. cbv iota.
  rewrite Hval.
  change (skip_ws (ch "," :: more)) with (ch "," :: more).
  change ((ch "," =? ch ",")%N) with true. cbv iota.
  rewrite Hmore. reflexivity.
Qed.

(** The last member of an object. *)
Lemma parse_members_last :
  forall fuel key value_text v rest,
    Forall (fun c => plain_char c = true) key ->
    parse_value fuel (value_text ++ ch "}" :: rest) = Some (v, ch "}" :: rest) ->
    parse_members (S fuel) (member_text key value_text (ch "}" :: rest))
    = Some ([(key, v)], rest).
Proof.
  intros fuel key value_text v rest Hkey Hval.
  unfold member_text. rewrite parse_members_eq.
  rewrite (parse_string_body_plain key _ Hkey).
  change (skip_ws (ch ":" :: value_text ++ ch "}" :: rest))
    with (ch ":" :: value_text ++ ch "}" :: rest).
  change ((ch ":" =? ch ":")%N) with true. cbv iota.
  rewrite Hval. reflexivity.
Qed.

Lemma parse_value_plain_string :
  forall fuel s rest,
    Forall (fun c => plain_char c = true) s ->
    parse_value (S fuel) (string_text s ++ rest) = Some (JStr s, rest).
Proof.
  intros fuel s rest Hs. unfold string_text.
  change ((dquote :: s ++ [dquote]) ++ rest)
    with (dquote :: (s ++ [dquote]) ++ rest).
  rewrite <- app_assoc. simpl app.
  rewrite parse_value_string_eq, (parse_string_body_plain s rest Hs).
  reflexivity.
Qed.

Lemma plain_literal :
  forall s : string,
    forallb plain_char (str s) = true ->
    Forall (fun c => plain_char c = true) (str s).
Proof.
  intros s H. apply Forall_forall. apply forallb_forall. exact H.
Qed.

Lemma Array_from_numbers :
  forall data, Array_from data = JArr (json_numbers (bytes_values data)).
Proof.
  intros data. unfold Array_from, json_numbers, bytes_values.
  rewrite map_map. reflexivity.
Qed.

(** The envelope is read back as the object that was written. *)
Lemma parse_envelope :
  forall env data (pk : jsstring) fuel,
    Forall (fun c => plain_char c = true) pk ->
    (N.of_nat (List.length data) <= 2 ^ 53)%N ->
    (List.length data + 12 <= fuel)%nat ->
    parse_value fuel (envelope_text env data pk)
    = Some (encryptionMetadata env data (Some pk), []).
Proof.
  intros env data pk fuel Hpk Hlen Hfuel.
  do 9 (destruct fuel as [| fuel]; [lia |]).
  unfold envelope_text.
  rewrite parse_value_object_eq.
  change (skip_ws (member_text (str "algorithm") ?v ?r))
    with (member_text (str "algorithm") v r).
  unfold member_text at 1. cbv iota beta.
  change ((dquote =? ch "}")%N) with false. cbv iota.
  rewrite (parse_members_more (S (S (S (S (S (S (S fuel)))))))
             (str "algorithm") (string_text (str "Seal-BFV"))
             (JStr (str "Seal-BFV")) _
             [ (str "publicKey", JStr pk);
               (str "originalSize", JNum (num_of_N (N.of_nat (List.length data))));
               (str "timestamp", JNum (num_of_N (millis (now_encrypt env))));
               (str "encryptedChunks", JArr [Array_from data]) ] []).
  - reflexivity.
  - apply plain_literal. reflexivity.
  - apply parse_value_plain_string. apply plain_literal. reflexivity.
  - apply parse_members_more.
    + apply plain_literal. reflexivity.
    + apply parse_value_plain_string. exact Hpk.
    + apply parse_members_more.
      * apply plain_literal. reflexivity.
      * apply parse_value_nat; [exact Hlen |].
        eexists. eexists. split; [reflexivity | auto].
      * apply parse_members_more.
        -- apply plain_literal. reflexivity.
        -- apply parse_value_nat.
           ++ pose proof (millis_in_range (now_encrypt env)) as Hms.
              apply N.le_trans with (1 := Hms). discriminate.
           ++ eexists. eexists. split; [reflexivity | auto].
        -- apply parse_members_last.
           ++ apply plain_literal. reflexivity.
           ++ cbn [app].
              rewrite parse_value_array_eq.
              change (skip_ws (ch "[" :: ?x)) with (ch "[" :: x).
              replace ((ch "[" =? ch "]")%N) with false by reflexivity.
              rewrite parse_elements_eq.
              rewrite <- app_assoc.
              change (numbers_text (bytes_values data)
                      ++ [ch "]"; ch "]"] ++ [ch "}"])
                with (numbers_text (bytes_values data)
                      ++ ch "]" :: [ch "]"; ch "}"]).
              rewrite (parse_value_numbers (bytes_values data)
                         [ch "]"; ch "}"] (S fuel)).
              ** rewrite Array_from_numbers. reflexivity.
              ** unfold bytes_values. apply Forall_forall.
                 intros n Hin. apply in_map_iff in Hin.
                 destruct Hin as (b & <- & _).
                 pose proof (byte_small b).
                 apply N.le_trans with 256%N; [lia | discriminate].
              ** unfold bytes_values. rewrite length_map. lia.
Qed.

(* ================================================================== *)
(** * UTF-8: a text of ASCII survives encoding and decoding *)
(* ================================================================== *)

Lemma utf8_encode_ascii :
  forall s, ascii_text s -> utf8_encode s = s.
Proof.
  induction 1 as [| c s Hc _ IH]; simpl; [reflexivity |].
  assert (Hh : is_high_surrogate c = false).
  { unfold is_high_surrogate. destruct (N.leb_spec 55296 c); [lia | reflexivity]. }
  assert (Hl : is_low_surrogate c = false).
  { unfold is_low_surrogate. destruct (N.leb_spec 56320 c); [lia | reflexivity]. }
  rewrite Hh, Hl, IH. unfold utf8_of_code_point.
  destruct (N.ltb_spec c 128); [reflexivity | lia].
Qed.

Lemma to_N_byte_of_N :
  forall c, (c < 256)%N -> Byte.to_N (byte_of_N c) = c.
Proof.
  intros c Hc. unfold byte_of_N. rewrite N.mod_small by exact Hc.
  destruct (Byte.of_N c) as [b |] eqn:Hb.
  - apply Byte.to_of_N. exact Hb.
  - apply Byte.of_N_None_iff in Hb. lia.
Qed.

Lemma byte_of_N_to_N : forall b, byte_of_N (Byte.to_N b) = b.
Proof.
  intros b. unfold byte_of_N.
  rewrite N.mod_small by apply byte_small.
  rewrite Byte.of_to_N. reflexivity.
Qed.

Lemma utf8_decode_ascii :
  forall s, ascii_text s ->
            utf8_decode_from utf8_init (map byte_of_N s) = s.
Proof.
  induction 1 as [| c s Hc _ IH]; simpl; [reflexivity |].
  rewrite to_N_byte_of_N by lia.
  unfold utf8_step. cbn [u_needed utf8_init N.eqb].
  unfold utf8_lead.
  destruct (N.leb_spec c 127); [| lia].
  simpl. rewrite IH. reflexivity.
Qed.

(** [TextDecoder] gives back the ASCII text that [TextEncoder] was
    given. *)
Lemma decode_encode_ascii :
  forall s, ascii_text s -> TextDecoder_decode (TextEncoder_encode s) = s.
Proof.
  intros s Hs. unfold TextDecoder_decode, TextEncoder_encode.
  rewrite (utf8_encode_ascii s Hs), (utf8_decode_ascii s Hs).
  destruct Hs as [| c s Hc Hs]; [reflexivity |].
  destruct (N.eqb_spec c 65279) as [-> | Hne]; [lia |].
  destruct c as [| p]; [reflexivity |].
  repeat (destruct p as [p | p |]; try reflexivity; try lia).
Qed.

(* ================================================================== *)
(** * sealEncryptionService: the envelope *)
(* ================================================================== *)

Lemma plain_is_ascii :
  forall s, Forall (fun c => plain_char c = true) s -> ascii_text s.
Proof.
  intros s Hs. unfold ascii_text.
  apply Forall_impl with (2 := Hs). intros c Hc.
  apply plain_char_bounds in Hc. lia.
Qed.

Lemma print_uint_plain :
  forall u, Forall (fun c => plain_char c = true) (print_uint u).
Proof.
  induction u; simpl; constructor; try assumption; reflexivity.
Qed.

Lemma numbers_text_plain :
  forall ns, Forall (fun c => plain_char c = true) (numbers_text ns).
Proof.
  unfold numbers_text. induction ns as [| n ns IH]; simpl; [constructor |].
  destruct ns as [| m ns'].
  - apply print_uint_plain.
  - apply Forall_app. split; [apply print_uint_plain |].
    constructor; [reflexivity | exact IH].
Qed.

Lemma envelope_text_ascii :
  forall env data (pk : jsstring),
    Forall (fun c => plain_char c = true) pk ->
    ascii_text (envelope_text env data pk).
Proof.
  intros env data pk Hpk.
  pose proof (plain_is_ascii pk Hpk) as Hpk'.
  pose proof (plain_is_ascii _ (print_uint_plain
                                  (N.to_uint (N.of_nat (List.length data))))) as H1.
  pose proof (plain_is_ascii _ (print_uint_plain
                                  (N.to_uint (millis (now_encrypt env))))) as H2.
  pose proof (plain_is_ascii _ (numbers_text_plain (bytes_values data))) as H3.
  unfold ascii_text in *.
  unfold envelope_text, member_text, string_text, nat_toString.
  repeat first
    [ assumption
    | apply Forall_nil
    | apply Forall_cons; [reflexivity |]
    | apply Forall_app; split ].
Qed.

Lemma nat_toString_length : forall n, (1 <= List.length (nat_toString n))%nat.
Proof.
  intros n. unfold nat_toString.
  destruct (print_uint_head (N.to_uint n) (to_uint_not_nil n))
    as (c & r & -> & _).
  simpl. lia.
Qed.

Lemma numbers_text_length :
  forall ns, (List.length ns <= List.length (numbers_text ns))%nat.
Proof.
  induction ns as [| n ns IH]; [simpl; lia |].
  pose proof (nat_toString_length n) as Hn.
  destruct ns as [| m ns'].
  - unfold numbers_text. cbn [map join List.length]. exact Hn.
  - change (numbers_text (n :: m :: ns'))
      with (nat_toString n ++ str "," ++ numbers_text (m :: ns')).
    rewrite !length_app. cbn [List.length] in *.
    change (List.length (str ",")) with 1%nat. lia.
Qed.

(** The text of the envelope is longer than the data. *)
Lemma stringify_envelope_length :
  forall env data (pk : jsstring),
    (List.length data + 12
     <= List.length (JSON_stringify (encryptionMetadata env data (Some pk))))%nat.
Proof.
  intros env data pk. unfold encryptionMetadata.
  rewrite stringify_object5 by (simpl; discriminate).
  rewrite stringify_chunks.
  pose proof (numbers_text_length (bytes_values data)) as Hn.
  unfold bytes_values in Hn at 1. rewrite length_map in Hn.
  generalize dependent (numbers_text (bytes_values data)). intros numbers Hn.
  generalize (JSON_quote (str "algorithm") ++ ch ":" ::
              JSON_stringify (JStr (str "Seal-BFV"))).
  generalize (JSON_quote (str "publicKey") ++ ch ":" ::
              JSON_stringify (opt_str (Some pk))).
  generalize (JSON_quote (str "originalSize") ++ ch ":" ::
              JSON_stringify (JNum (num_of_N (N.of_nat (List.length data))))).
  generalize (JSON_quote (str "timestamp") ++ ch ":" ::
              JSON_stringify (JNum (num_of_N (millis (now_encrypt env))))).
  intros a4 a3 a2 a1.
  assert (Hkey : List.length (JSON_quote (str "encryptedChunks")) = 17%nat)
    by reflexivity.
  generalize dependent (JSON_quote (str "encryptedChunks")). intros key Hkey.
  cbn [List.length]. rewrite !length_app. cbn [List.length].
  rewrite !length_app. cbn [List.length]. lia.
Qed.

Lemma digit36_plain : forall d, plain_char (digit36 d) = true.
Proof.
  intros d. unfold digit36.
  pose proof (N.mod_upper_bound d 36) as Hb.
  assert (Hlt : (d mod 36 < 36)%N) by (apply Hb; discriminate).
  set (k := (d mod 36)%N) in *. clearbody k.
  unfold plain_char, dquote, backslash.
  change (ch "0") with 48%N. change (ch "a") with 97%N.
  destruct (N.ltb_spec k 10).
  - rewrite !andb_true_iff, !negb_true_iff.
    repeat split; first [apply N.leb_le | apply N.ltb_lt | apply N.eqb_neq]; lia.
  - rewrite !andb_true_iff, !negb_true_iff.
    repeat split; first [apply N.leb_le | apply N.ltb_lt | apply N.eqb_neq]; lia.
Qed.

Lemma toString36_aux_plain :
  forall fuel n acc,
    Forall (fun c => plain_char c = true) acc ->
    Forall (fun c => plain_char c = true) (toString36_aux fuel n acc).
Proof.
  induction fuel as [| fuel IH]; intros n acc Hacc; simpl; [exact Hacc |].
  destruct (n / 36 =? 0)%N.
  - constructor; [apply digit36_plain | exact Hacc].
  - apply IH. constructor; [apply digit36_plain | exact Hacc].
Qed.

(** The public key of [_generateKeyPair] is written with plain
    characters. *)
Lemma _generateKeyPair_plain :
  forall env,
    exists pk sk,
      _generateKeyPair env
      = {| kp_success := true; kp_publicKey := Some pk;
           kp_secretKey := Some sk; kp_error := None |}
      /\ Forall (fun c => plain_char c = true) pk.
Proof.
  intros env. unfold _generateKeyPair, try_catch.
  eexists. eexists. split; [reflexivity |].
  apply Forall_app. split; [apply plain_literal; reflexivity |].
  apply Forall_app. split.
  - apply toString36_aux_plain. constructor.
  - unfold substr_from, random_toString36.
    destruct (random_digits env) as [| d ds]; [constructor |].
    change (skipn 2 (str "0." ++ map digit36 (d :: ds)))
      with (map digit36 (d :: ds)).
    apply Forall_forall. intros c Hc. apply in_map_iff in Hc.
    destruct Hc as (x & <- & _). apply digit36_plain.
Qed.

Lemma ToUint8_byte :
  forall b, ToUint8 (num_of_N (Byte.to_N b)) = b.
Proof.
  intros b. unfold ToUint8, num_of_N, num_of_Z, trunc.
  cbn [inject_Z Qnum Qden]. rewrite Z.quot_1_r.
  pose proof (byte_small b) as Hb.
  rewrite Z.mod_small by lia.
  rewrite N2Z.id. apply byte_of_N_to_N.
Qed.

(** [new Uint8Array] of the array that [Array.from] made of the data
    is the data. *)
Lemma Uint8Array_from_Array_from :
  forall data, Uint8Array_from (Array_from data) = Ok data.
Proof.
  intros data. unfold Uint8Array_from, Array_from.
  assert (Hnums :
            map_exn ToNumber
              (map (fun b => JNum (num_of_N (Byte.to_N b))) data)
            = Ok (map (fun b => num_of_N (Byte.to_N b)) data)).
  { induction data as [| b data IH]; simpl; [reflexivity |].
    rewrite IH. reflexivity. }
  rewrite Hnums. simpl. rewrite map_map. f_equal.
  rewrite <- (map_id data) at 2. apply map_ext. apply ToUint8_byte.
Qed.

Lemma JSON_stringify_checked_Ok :
  forall v text,
    JSON_stringify_checked v = Ok text ->
    text = JSON_stringify v
    /\ (N.of_nat (List.length text) <= 2 ^ 53 - 1)%N.
Proof.
  intros v text H. unfold JSON_stringify_checked in H.
  destruct (N.ltb_spec (max_string_length E)
              (N.of_nat (List.length (JSON_stringify v)))) as [Hlt | Hle];
    [discriminate |].
  injection H as <-. split; [reflexivity |].
  apply N.le_trans with (1 := Hle). apply max_string_length_safe.
Qed.

(** [JSON.parse] of the text of the envelope is the envelope. *)
Lemma JSON_parse_envelope :
  forall env data (pk : jsstring),
    Forall (fun c => plain_char c = true) pk ->
    (N.of_nat (List.length data) <= 2 ^ 53)%N ->
    (List.length data + 12 <= List.length (envelope_text env data pk))%nat ->
    JSON_parse (envelope_text env data pk)
    = Ok (encryptionMetadata env data (Some pk)).
Proof.
  intros env data pk Hpk Hlen Htext. unfold JSON_parse.
  rewrite (parse_envelope env data pk _ Hpk Hlen).
  - reflexivity.
  - unfold parse_fuel. lia.
Qed.

(** [_decryptData] reads the data back from the bytes that
    [_encryptData] made of them. *)
Lemma _decryptData_envelope :
  forall env data (pk : jsstring) text,
    Forall (fun c => plain_char c = true) pk ->
    JSON_stringify_checked (encryptionMetadata env data (Some pk)) = Ok text ->
    _decryptData (TextEncoder_encode text) = data_ok data.
Proof.
  intros env data pk text Hpk Htext.
  apply JSON_stringify_checked_Ok in Htext. destruct Htext as [-> Hmax].
  pose proof (stringify_envelope_length env data pk) as Hlong.
  assert (Hlen : (N.of_nat (List.length data) <= 2 ^ 53)%N).
  { change (2 ^ 53 - 1)%N with 9007199254740991%N in Hmax.
    change (2 ^ 53)%N with 9007199254740992%N. lia. }
  assert (Hlen' : (N.of_nat (List.length data) < 10 ^ 21)%N).
  { apply N.le_lt_trans with (1 := Hlen). reflexivity. }
  rewrite (stringify_envelope env data pk Hpk Hlen') in *.
  unfold _decryptData.
  rewrite (decode_encode_ascii _ (envelope_text_ascii env data pk Hpk)).
  rewrite (JSON_parse_envelope env data pk Hpk Hlen Hlong).
  assert (Hchunks : get (encryptionMetadata env data (Some pk))
                        (str "encryptedChunks")
                    = Ok (JArr [Array_from data])) by reflexivity.
  assert (Hchunk : get (JArr [Array_from data]) (str "0")
                   = Ok (Array_from data)) by reflexivity.
  cbn [bind]. rewrite Hchunks. cbn [bind]. rewrite Hchunk. cbn [bind].
  rewrite Uint8Array_from_Array_from. reflexivity.
Qed.

Lemma isReady_initialize :
  forall env st, isReady st = true -> initialize env st = (Ok tt, st).
Proof.
  intros env st H. unfold isReady in H. apply andb_true_iff in H.
  destruct H as [H _]. unfold initialize. rewrite H. reflexivity.
Qed.

(** A service that was never used becomes ready on its first call,
    whether the Seal module loads or not. *)
Lemma initialize_new_service :
  forall env,
    exists st, initialize env new_service = (Ok tt, st) /\ isReady st = true.
Proof.
  intros env. unfold initialize, new_service.
  cbn [isInitialized initializationPromise].
  unfold _initializeSeal, etry, ebind, elift, set_library, set_initialized,
    set_promise.
  destruct (import_seal env); eexists; split; reflexivity.
Qed.

(** C1.  For every byte sequence, the empty one and text of any
    encoding among them: when [encryptFile] succeeds on a file that
    holds it, [decryptFile] on the returned [encryptedData], with any
    secret key, succeeds and returns exactly those bytes.  The
    decryption may run on the service that encrypted, on any ready
    service, or on one that was never used. *)
Theorem decrypt_after_encrypt :
  forall (env : Env) (file : File) (data : list byte)
         (st st1 : ServiceState) (r : EncryptionResult),
    arrayBuffer file = Ok data ->
    encryptFile env file st = (Ok r, st1) ->
    enc_success r = true ->
    isReady st1 = true
    /\ exists encrypted,
         encryptedData r = Some encrypted
         /\ forall (env' : Env) (key : jsstring) (st2 : ServiceState),
              isReady st2 = true \/ st2 = new_service ->
              exists st3,
                decryptFile env' encrypted key st2
                = (Ok {| dec_success := true; decryptedData := Some data;
                         dec_error := None |}, st3).
Proof.
  intros env file data st st1 r Hfile Hrun Hsucc.
  revert Hrun. unfold encryptFile, etry, ebind, eret, elift.
  destruct (initialize env st) as [[[] | e] st'].
  2: { intros H. injection H as <- _. discriminate. }
  destruct (isReady st') eqn:Hready; simpl negb; cbv iota.
  2: { intros H. injection H as <- _. discriminate. }
  rewrite Hfile.
  destruct (_generateKeyPair_plain env) as (pk & sk & Hkp & Hpk).
  rewrite Hkp. cbn [kp_success kp_publicKey kp_secretKey kp_error negb].
  destruct (_encryptData_cases env data (Some pk))
    as [(text & Htext & Henc) | (msg & Henc)]; rewrite Henc.
  2: { intros H. injection H as <- _. discriminate. }
  cbn [data_ok data_success data_bytes negb].
  intros H. injection H as <- <-.
  split; [exact Hready |].
  exists (TextEncoder_encode text). split; [reflexivity |].
  intros env' key st2 Hst2.
  assert (Hinit : exists st3, initialize env' st2 = (Ok tt, st3)
                              /\ isReady st3 = true).
  { destruct Hst2 as [H2 | ->].
    - exists st2. split; [apply isReady_initialize; exact H2 | exact H2].
    - apply initialize_new_service. }
  destruct Hinit as (st3 & Hinit & Hready3).
  exists st3. unfold decryptFile, etry, ebind, eret.
  rewrite Hinit, Hready3.
  rewrite (_decryptData_envelope env data pk text Hpk Htext).
  reflexivity.
Qed.


(* ================================================================== *)
(** * JSON.parse: the fuel is enough *)
(* ================================================================== *)

Lemma skip_ws_length :
  forall s, (List.length (skip_ws s) <= List.length s)%nat.
Proof.
  induction s as [| c s IH]; simpl; [lia |].
  destruct (is_json_ws c); simpl; lia.
Qed.

Lemma skip_ws_head :
  forall s c t, skip_ws s = c :: t -> is_json_ws c = false.
Proof.
  induction s as [| a s IH]; simpl; intros c t H; [discriminate |].
  destruct (is_json_ws a) eqn:Ha; [apply (IH _ _ H) |].
  injection H as <- _. exact Ha.
Qed.

Lemma skip_ws_idempotent : forall s, skip_ws (skip_ws s) = skip_ws s.
Proof.
  intros s. destruct (skip_ws s) as [| c t] eqn:Hs; [reflexivity |].
  simpl. rewrite (skip_ws_head _ _ _ Hs). reflexivity.
Qed.

Lemma parse_value_skip_ws :
  forall fuel s, parse_value fuel (skip_ws s) = parse_value fuel s.
Proof.
  intros [| fuel] s; simpl; [reflexivity |].
  rewrite skip_ws_idempotent. reflexivity.
Qed.

Lemma parse_members_skip_ws :
  forall fuel s, parse_members fuel (skip_ws s) = parse_members fuel s.
Proof.
  intros [| fuel] s; simpl; [reflexivity |].
  rewrite skip_ws_idempotent. reflexivity.
Qed.

Lemma scan_digits_length :
  forall s u rest,
    scan_digits s = (u, rest) ->
    (List.length rest <= List.length s)%nat
    /\ (u <> Decimal.Nil -> (List.length rest < List.length s)%nat).
Proof.
  induction s as [| c s IH]; simpl; intros u rest H.
  - injection H as <- <-. split; [simpl; lia | congruence].
  - destruct (digit_cons c) as [d |].
    + destruct (scan_digits s) as [u' rest'] eqn:Hs.
      injection H as <- <-. destruct (IH _ _ eq_refl) as [Hle _].
      split; intros; simpl; lia.
    + injection H as <- <-. split; [simpl; lia | congruence].
Qed.

Lemma scan_fraction_length :
  forall s frac rest,
    scan_fraction s = Some (frac, rest) ->
    (List.length rest <= List.length s)%nat.
Proof.
  intros [| c r] frac rest H; unfold scan_fraction in H.
  - injection H as _ <-. simpl. lia.
  - destruct (c =? ch ".")%N.
    + destruct (scan_digits r) as [u rest'] eqn:Hs.
      destruct (scan_digits_length _ _ _ Hs) as [Hle _].
      destruct u; try discriminate; injection H as _ <-; simpl; lia.
    + injection H as _ <-. simpl. lia.
Qed.

Lemma scan_exponent_length :
  forall s e rest,
    scan_exponent s = Some (e, rest) ->
    (List.length rest <= List.length s)%nat.
Proof.
  intros [| c r] e rest H; unfold scan_exponent in H.
  - injection H as _ <-. simpl. lia.
  - destruct ((c =? ch "e") || (c =? ch "E"))%N.
    + assert (Hsign : forall neg r1,
                 (List.length r1 <= List.length r)%nat ->
                 match scan_digits r1 with
                 | (Decimal.Nil, _) => None
                 | (e0, rest0) => Some (Some (neg, e0), rest0)
                 end = Some (e, rest) ->
                 (List.length rest <= List.length (c :: r))%nat).
      { intros neg r1 Hr1 H1.
        destruct (scan_digits r1) as [u rest'] eqn:Hs.
        destruct (scan_digits_length _ _ _ Hs) as [Hle _].
        destruct u; try discriminate; injection H1 as _ <-; simpl; lia. }
      destruct r as [| d r'].
      * apply (Hsign false []); [simpl; lia | exact H].
      * destruct (d =? ch "-")%N; [apply (Hsign true r'); [simpl; lia | exact H] |].
        destruct (d =? ch "+")%N; [apply (Hsign false r'); [simpl; lia | exact H] |].
        apply (Hsign false (d :: r')); [lia | exact H].
    + injection H as _ <-. simpl. lia.
Qed.

Lemma parse_number_length :
  forall s v rest,
    parse_number s = Some (v, rest) ->
    (List.length rest < List.length s)%nat.
Proof.
  intros s v rest H. unfold parse_number in H.
  assert (Hgen : forall neg s1,
             (List.length s1 <= List.length s)%nat ->
             (let (int, s2) := scan_digits s1 in
              match int with
              | Decimal.Nil => None
              | Decimal.D0 (Decimal.D0 _ | Decimal.D1 _ | Decimal.D2 _
                           | Decimal.D3 _ | Decimal.D4 _ | Decimal.D5 _
                           | Decimal.D6 _ | Decimal.D7 _ | Decimal.D8 _
                           | Decimal.D9 _) => None
              | _ =>
                  match scan_fraction s2 with
                  | None => None
                  | Some (frac, s3) =>
                      match scan_exponent s3 with
                      | None => None
                      | Some (exp, s4) =>
                          Some (JNum (literal_number
                                        {| lit_negative := neg; lit_int := int;
                                           lit_frac := frac; lit_exp := exp |}),
                                s4)
                      end
                  end
              end) = Some (v, rest) ->
             (List.length rest < List.length s)%nat).
  { intros neg s1 Hs1 H1.
    destruct (scan_digits s1) as [int s2] eqn:Hint.
    destruct (scan_digits_length _ _ _ Hint) as [_ Hlt].
    assert (Hfinish :
              int <> Decimal.Nil ->
              match scan_fraction s2 with
              | None => None
              | Some (frac, s3) =>
                  match scan_exponent s3 with
                  | None => None
                  | Some (exp, s4) =>
                      Some (JNum (literal_number
                                    {| lit_negative := neg; lit_int := int;
                                       lit_frac := frac; lit_exp := exp |}),
                            s4)
                  end
              end = Some (v, rest) ->
              (List.length rest < List.length s)%nat).
    { intros Hnil H2. specialize (Hlt Hnil).
      destruct (scan_fraction s2) as [[frac s3] |] eqn:Hf; [| discriminate].
      apply scan_fraction_length in Hf.
      destruct (scan_exponent s3) as [[exp s4] |] eqn:He; [| discriminate].
      apply scan_exponent_length in He.
      injection H2 as _ <-. lia. }
    destruct int as [| u | u | u | u | u | u | u | u | u | u];
      try discriminate;
      try (apply Hfinish; [discriminate | exact H1]).
    destruct u; try discriminate; apply Hfinish; try discriminate; exact H1. }
  destruct s as [| c r].
  - apply (Hgen false []); [simpl; lia | exact H].
  - destruct (c =? ch "-")%N.
    + apply (Hgen true r); [simpl; lia | exact H].
    + apply (Hgen false (c :: r)); [lia | exact H].
Qed.

Lemma parse_string_body_length :
  forall s t rest,
    parse_string_body s = Some (t, rest) ->
    (List.length rest < List.length s)%nat.
Proof.
  assert (Hgen : forall n s,
             (List.length s <= n)%nat ->
             forall t rest,
               parse_string_body s = Some (t, rest) ->
               (List.length rest < List.length s)%nat);
    [| intros s; apply (Hgen (List.length s) s); lia].
  induction n as [| n IH]; intros s Hle t rest H.
  - destruct s; [discriminate | simpl in Hle; lia].
  - destruct s as [| c r]; [discriminate |].
    simpl in Hle. cbn [parse_string_body] in H.
    destruct (c =? dquote)%N.
    { injection H as _ <-. simpl. lia. }
    destruct (c =? backslash)%N.
    + destruct r as [| e r1]; [discriminate |].
      destruct (e =? ch "u")%N.
      * destruct r1 as [| h1 [| h2 [| h3 [| h4 r2]]]]; try discriminate.
        destruct (hex4_value h1 h2 h3 h4); [| discriminate].
        destruct (parse_string_body r2) as [[t' rest'] |] eqn:Hr2;
          [| discriminate].
        injection H as _ <-.
        assert (List.length rest' < List.length r2)%nat.
        { apply (IH r2) with (t := t'); [simpl in Hle; lia | exact Hr2]. }
        simpl. lia.
      * destruct (simple_escape e); [| discriminate].
        destruct (parse_string_body r1) as [[t' rest'] |] eqn:Hr1;
          [| discriminate].
        injection H as _ <-.
        assert (List.length rest' < List.length r1)%nat.
        { apply (IH r1) with (t := t'); [simpl in Hle; lia | exact Hr1]. }
        simpl. lia.
    + destruct (c <? 32)%N; [discriminate |].
      destruct (parse_string_body r) as [[t' rest'] |] eqn:Hr; [| discriminate].
      injection H as _ <-.
      assert (List.length rest' < List.length r)%nat.
      { apply (IH r) with (t := t'); [lia | exact Hr]. }
      simpl. lia.
Qed.

Lemma parse_keyword_length :
  forall s v rest,
    parse_keyword s = Some (v, rest) ->
    (List.length rest < List.length s)%nat.
Proof.
  intros s v rest H. unfold parse_keyword in H.
  destruct (strip_prefix (str "true") s) as [r |] eqn:H1.
  { injection H as _ <-. apply strip_prefix_Some in H1. subst s.
    rewrite length_app. simpl. lia. }
  destruct (strip_prefix (str "false") s) as [r |] eqn:H2.
  { injection H as _ <-. apply strip_prefix_Some in H2. subst s.
    rewrite length_app. simpl. lia. }
  destruct (strip_prefix (str "null") s) as [r |] eqn:H3; [| discriminate].
  injection H as _ <-. apply strip_prefix_Some in H3. subst s.
  rewrite length_app. simpl. lia.
Qed.

(** A value that is neither an object, an array nor a string is read
    without recursion. *)
Lemma parse_value_atom_eq :
  forall fuel c t,
    is_json_ws c = false ->
    (c =? ch "{")%N = false -> (c =? ch "[")%N = false ->
    (c =? dquote)%N = false ->
    parse_value (S fuel) (c :: t)
    = match parse_keyword (c :: t) with
      | Some res => Some res
      | None => parse_number (c :: t)
      end.
Proof.
  intros fuel c t Hws H1 H2 H3. cbn [parse_value skip_ws].
  rewrite Hws, H1, H2, H3. reflexivity.
Qed.

Lemma parse_members_quote_only :
  forall fuel c t fs rest,
    is_json_ws c = false ->
    parse_members (S fuel) (c :: t) = Some (fs, rest) -> c = dquote.
Proof.
  intros fuel c t fs rest Hws H. cbn [parse_members skip_ws] in H.
  rewrite Hws in H.
  destruct (N.eqb_spec c dquote); [assumption | discriminate].
Qed.

Lemma parse_value_nil : forall fuel, parse_value fuel [] = None.
Proof. intros [| fuel]; reflexivity. Qed.

Lemma value_bound_step :
  forall fuel,
    elements_bound fuel -> members_bound fuel -> value_bound (S fuel).
Proof.
  intros fuel He Hm s v r H.
  rewrite <- parse_value_skip_ws in H.
  pose proof (skip_ws_length s) as Hskip.
  destruct (skip_ws s) as [| c t] eqn:Hs; [discriminate |].
  pose proof (skip_ws_head _ _ _ Hs) as Hws.
  simpl in Hskip.
  assert (Hagain : forall fuel' res,
             parse_value (S fuel') (c :: t) = res ->
             parse_value (S fuel') s = res).
  { intros fuel' res Hres. rewrite <- parse_value_skip_ws, Hs. exact Hres. }
  destruct (c =? ch "{")%N eqn:H1.
  { apply N.eqb_eq in H1. subst c. rewrite parse_value_object_eq in H.
    pose proof (skip_ws_length t) as Hskip2.
    destruct (skip_ws t) as [| d r'] eqn:Ht; [discriminate |].
    simpl in Hskip2.
    destruct (d =? ch "}")%N eqn:Hd.
    - injection H as <- <-. split; [lia |].
      intros [| fuel'] Hf; [lia |]. apply Hagain.
      rewrite parse_value_object_eq, Ht, Hd. reflexivity.
    - destruct (parse_members fuel t) as [[fs rest] |] eqn:Hmem; [| discriminate].
      injection H as <- <-. destruct (Hm _ _ _ Hmem) as [Hlt Hrep].
      split; [lia |].
      intros [| fuel'] Hf; [lia |]. apply Hagain.
      rewrite parse_value_object_eq, Ht, Hd, (Hrep fuel'); [reflexivity | lia]. }
  destruct (c =? ch "[")%N eqn:H2.
  { apply N.eqb_eq in H2. subst c. rewrite parse_value_array_eq in H.
    pose proof (skip_ws_length t) as Hskip2.
    destruct (skip_ws t) as [| d r'] eqn:Ht; [discriminate |].
    simpl in Hskip2.
    destruct (d =? ch "]")%N eqn:Hd.
    - injection H as <- <-. split; [lia |].
      intros [| fuel'] Hf; [lia |]. apply Hagain.
      rewrite parse_value_array_eq, Ht, Hd. reflexivity.
    - destruct (parse_elements fuel t) as [[vs rest] |] eqn:Hel; [| discriminate].
      injection H as <- <-. destruct (He _ _ _ Hel) as [Hlt Hrep].
      split; [lia |].
      intros [| fuel'] Hf; [lia |]. apply Hagain.
      rewrite parse_value_array_eq, Ht, Hd, (Hrep fuel'); [reflexivity | lia]. }
  destruct (c =? dquote)%N eqn:H3.
  { apply N.eqb_eq in H3. subst c. rewrite parse_value_string_eq in H.
    destruct (parse_string_body t) as [[str' rest] |] eqn:Hbody; [| discriminate].
    injection H as <- <-.
    pose proof (parse_string_body_length _ _ _ Hbody) as Hlt.
    split; [lia |].
    intros [| fuel'] Hf; [lia |]. apply Hagain.
    rewrite parse_value_string_eq, Hbody. reflexivity. }
  rewrite (parse_value_atom_eq fuel c t Hws H1 H2 H3) in H.
  assert (Hlt : (List.length r < List.length (c :: t))%nat).
  { destruct (parse_keyword (c :: t)) as [[v' r'] |] eqn:Hk.
    - injection H as <- <-. apply (parse_keyword_length _ _ _ Hk).
    - apply (parse_number_length _ _ _ H). }
  simpl in Hlt. split; [lia |].
  intros [| fuel'] Hf; [lia |]. apply Hagain.
  rewrite (parse_value_atom_eq fuel' c t Hws H1 H2 H3). exact H.
Qed.

Lemma elements_bound_step :
  forall fuel,
    value_bound fuel -> elements_bound fuel -> elements_bound (S fuel).
Proof.
  intros fuel Hv He s vs r H. rewrite parse_elements_eq in H.
  destruct (parse_value fuel s) as [[v r1] |] eqn:Hval; [| discriminate].
  destruct (Hv _ _ _ Hval) as [Hlt1 Hrep1].
  pose proof (skip_ws_length r1) as Hskip.
  destruct (skip_ws r1) as [| c r'] eqn:Hs; [discriminate |].
  simpl in Hskip.
  destruct (c =? ch ",")%N eqn:Hc.
  - destruct (parse_elements fuel r') as [[vs' rest] |] eqn:Hel; [| discriminate].
    injection H as <- <-. destruct (He _ _ _ Hel) as [Hlt2 Hrep2].
    split; [lia |].
    intros [| fuel'] Hf; [lia |].
    rewrite parse_elements_eq, (Hrep1 fuel'), Hs, Hc, (Hrep2 fuel');
      [reflexivity | lia | lia].
  - destruct (c =? ch "]")%N eqn:Hc2; [| discriminate].
    injection H as <- <-. split; [lia |].
    intros [| fuel'] Hf; [lia |].
    rewrite parse_elements_eq, (Hrep1 fuel'), Hs, Hc, Hc2; [reflexivity | lia].
Qed.

Lemma members_bound_step :
  forall fuel,
    value_bound fuel -> members_bound fuel -> members_bound (S fuel).
Proof.
  intros fuel Hv Hm s fs r H.
  rewrite <- parse_members_skip_ws in H.
  pose proof (skip_ws_length s) as Hskip.
  destruct (skip_ws s) as [| q t] eqn:Hs; [discriminate |].
  pose proof (skip_ws_head _ _ _ Hs) as Hws. simpl in Hskip.
  pose proof (parse_members_quote_only _ _ _ _ _ Hws H) as Hq. subst q.
  assert (Hagain : forall fuel' res,
             parse_members (S fuel') (dquote :: t) = res ->
             parse_members (S fuel') s = res).
  { intros fuel' res Hres. rewrite <- parse_members_skip_ws, Hs. exact Hres. }
  rewrite parse_members_eq in H.
  destruct (parse_string_body t) as [[k r1] |] eqn:Hkey; [| discriminate].
  pose proof (parse_string_body_length _ _ _ Hkey) as Hlt0.
  pose proof (skip_ws_length r1) as Hskip1.
  destruct (skip_ws r1) as [| c r2] eqn:Hs1; [discriminate |].
  simpl in Hskip1.
  destruct (c =? ch ":")%N eqn:Hc; [| discriminate].
  destruct (parse_value fuel r2) as [[v r3] |] eqn:Hval; [| discriminate].
  destruct (Hv _ _ _ Hval) as [Hlt1 Hrep1].
  pose proof (skip_ws_length r3) as Hskip3.
  destruct (skip_ws r3) as [| d r4] eqn:Hs3; [discriminate |].
  simpl in Hskip3.
  destruct (d =? ch ",")%N eqn:Hd.
  - destruct (parse_members fuel r4) as [[fs' rest] |] eqn:Hmem; [| discriminate].
    injection H as <- <-. destruct (Hm _ _ _ Hmem) as [Hlt2 Hrep2].
    split; [lia |].
    intros [| fuel'] Hf; [lia |]. apply Hagain.
    rewrite parse_members_eq, Hkey, Hs1, Hc, (Hrep1 fuel'), Hs3, Hd,
      (Hrep2 fuel'); [reflexivity | lia | lia].
  - destruct (d =? ch "}")%N eqn:Hd2; [| discriminate].
    injection H as <- <-. split; [lia |].
    intros [| fuel'] Hf; [lia |]. apply Hagain.
    rewrite parse_members_eq, Hkey, Hs1, Hc, (Hrep1 fuel'), Hs3, Hd, Hd2;
      [reflexivity | lia].
Qed.

Lemma parse_bounds :
  forall fuel, value_bound fuel /\ elements_bound fuel /\ members_bound fuel.
Proof.
  induction fuel as [| fuel (Hv & He & Hm)].
  - split; [| split]; intros s x r H; discriminate.
  - split; [apply value_bound_step; assumption |].
    split; [apply elements_bound_step | apply members_bound_step]; assumption.
Qed.

(** The fuel of [JSON_parse] is enough: a text that any fuel parses is
    parsed, to the same value, with [parse_fuel]. *)
Lemma parse_fuel_enough :
  forall text fuel v rest,
    parse_value fuel text = Some (v, rest) ->
    parse_value (parse_fuel text) text = Some (v, rest).
Proof.
  intros text fuel v rest H.
  destruct (parse_bounds fuel) as (Hv & _).
  destruct (Hv _ _ _ H) as [_ Hrep]. apply Hrep.
  unfold parse_fuel. lia.
Qed.


(* ================================================================== *)
(** * Strings: trimming twice is trimming once *)
(* ================================================================== *)

Lemma trimStart_suffix :
  forall s, exists pre, s = pre ++ trimStart s.
Proof.
  induction s as [| c s [pre IH]]; simpl.
  - exists []. reflexivity.
  - destruct (is_js_space c).
    + exists (c :: pre). simpl. rewrite <- IH. reflexivity.
    + exists []. reflexivity.
Qed.

Lemma trimStart_head :
  forall s c t, trimStart s = c :: t -> is_js_space c = false.
Proof.
  induction s as [| a s IH]; simpl; intros c t H; [discriminate |].
  destruct (is_js_space a) eqn:Ha; [apply (IH _ _ H) |].
  injection H as <- _. exact Ha.
Qed.

Lemma trimStart_fixed :
  forall s,
    match s with c :: _ => is_js_space c = false | [] => True end ->
    trimStart s = s.
Proof.
  intros [| c s] H; simpl; [reflexivity |]. rewrite H. reflexivity.
Qed.

Lemma trim_idempotent : forall s, trim (trim s) = trim s.
Proof.
  intros s. unfold trim.
  set (a := trimStart s).
  set (b := trimStart (rev a)).
  assert (Hb : trimStart b = b).
  { apply trimStart_fixed. destruct b as [| c t] eqn:Eb; [exact I |].
    apply (trimStart_head (rev a) c t). exact Eb. }
  assert (Hrb : trimStart (rev b) = rev b).
  { apply trimStart_fixed.
    destruct (rev b) as [| c t] eqn:Erb; [exact I |].
    destruct (trimStart_suffix (rev a)) as [pre Hpre].
    fold b in Hpre.
    assert (Ha : a = c :: t ++ rev pre).
    { rewrite <- (rev_involutive a), Hpre, rev_app_distr, Erb. reflexivity. }
    apply (trimStart_head s c (t ++ rev pre)). exact Ha. }
  rewrite Hrb, rev_involutive, Hb. reflexivity.
Qed.

(** The tokens that [parseBulkData] classifies are the cells of the
    rows that are not empty. *)
Lemma cell_tokens_cells :
  forall content,
    cell_tokens content = filter truthy_str (List.concat (csv_rows content)).
Proof.
  intros content. unfold cell_tokens. f_equal.
  rewrite concat_map. f_equal.
  rewrite <- (map_id (csv_rows content)) at 2.
  apply map_ext_in. intros row Hrow.
  unfold csv_rows in Hrow. apply in_map_iff in Hrow.
  destruct Hrow as (line & <- & _).
  rewrite map_map. apply map_ext. intros cell. apply trim_idempotent.
Qed.

(* ================================================================== *)
(** * accessControlService: the validators, further properties *)
(* ================================================================== *)

(** X1.  [isValidSuiNS] accepts no name of fewer than six code units:
    its test [length >= 4] never decides, the accepted names have
    between 6 and 64 code units, and a name whose label is one
    character, such as [a.sui], is rejected. *)
Theorem isValidSuiNS_needs_two_character_label :
  forall s,
    isValidSuiNS s
    = regex_test suiNSRegex s && (List.length s <=? 64)%nat
    /\ (isValidSuiNS s = true -> (6 <= List.length s <= 64)%nat)
    /\ (forall c, isValidSuiNS (c :: str ".sui") = false).
Proof.
  intros s. split; [| split].
  - unfold isValidSuiNS.
    destruct (regex_test suiNSRegex s) eqn:Hr; [| reflexivity].
    apply suiNSRegex_shape in Hr. apply suins_shape_length in Hr.
    assert (H4 : (4 <=? List.length s)%nat = true)
      by (apply Nat.leb_le; lia).
    rewrite H4. reflexivity.
  - intros H. apply isValidSuiNS_shape in H. destruct H as [Hs Hlen].
    apply suins_shape_length in Hs. lia.
  - intros c. apply isValidSuiNS_false. left. intros Hs.
    apply suins_shape_length in Hs. simpl in Hs. lia.
Qed.

Lemma count_at_not_space_at :
  forall l,
    Forall (fun c => not_space_at c = true) l ->
    count_occ N.eq_dec l (ch "@") = 0%nat
    /\ Forall (fun c => is_js_space c = false) l.
Proof.
  induction 1 as [| c l Hc _ [IHn IHs]]; [split; [reflexivity | constructor] |].
  unfold not_space_at in Hc. apply negb_true_iff in Hc.
  apply orb_false_iff in Hc. destruct Hc as [Hsp Hat].
  apply N.eqb_neq in Hat. split.
  - rewrite count_occ_cons_neq by exact Hat. exact IHn.
  - constructor; assumption.
Qed.

(** X2.  An accepted email address holds exactly one at sign and no
    white space, and has at least five code units. *)
Theorem isValidEmail_one_at_sign :
  forall s,
    isValidEmail s = true ->
    count_occ N.eq_dec s (ch "@") = 1%nat
    /\ Forall (fun c => is_js_space c = false) s
    /\ (5 <= List.length s)%nat.
Proof.
  intros s H. apply isValidEmail_shape in H.
  destruct H as (l & d & t & -> & Hl & Hd & Ht & Hall).
  apply Forall_app in Hall. destruct Hall as [Hl2 Hall].
  apply Forall_app in Hall. destruct Hall as [Hd2 Ht2].
  destruct (count_at_not_space_at _ Hl2) as [Cl Sl].
  destruct (count_at_not_space_at _ Hd2) as [Cd Sd].
  destruct (count_at_not_space_at _ Ht2) as [Ct St].
  split; [| split].
  - rewrite !count_occ_app, Cl, Cd, Ct. reflexivity.
  - repeat (apply Forall_app; split); try assumption;
      repeat constructor.
  - rewrite !length_app. destruct l; [congruence |].
    destruct d; [congruence |]. destruct t; [congruence |].
    simpl. lia.
Qed.

(** X3.  The checks of [validateAccessRule] run in a fixed order, and
    the first failure is the one reported: with a known condition
    type, an email list whose first malformed entry is [e] gives the
    error that names [e], whatever the other fields hold. *)
Theorem validateAccessRule_names_first_bad_email :
  forall rule before e after,
    In (conditionType rule) condition_types ->
    allowedEmails rule = Some (before ++ e :: after) ->
    Forall (fun x => isValidEmail x = true) before ->
    isValidEmail e = false ->
    validateAccessRule rule = invalid (str "Invalid email address: " ++ e).
Proof.
  intros rule before e after Hty Hem Hbefore He.
  unfold validateAccessRule.
  apply includes_In in Hty. rewrite Hty. cbn [negb].
  rewrite Hem.
  assert (Hpop : populated (Some (before ++ e :: after)) = true)
    by (destruct before; reflexivity).
  rewrite Hpop. cbn [field_list].
  assert (Hfind : find (fun email => negb (isValidEmail email))
                       (before ++ e :: after) = Some e).
  { clear Hem Hpop. induction Hbefore as [| x l Hx _ IH]; simpl.
    - rewrite He. reflexivity.
    - rewrite Hx. simpl. exact IH. }
  rewrite Hfind. reflexivity.
Qed.

(* ================================================================== *)
(** * accessControlService: parseBulkData, further properties *)
(* ================================================================== *)

Lemma collect_fold_sound :
  forall (sel : jsstring -> bool) (cells : list jsstring)
         (acc : list jsstring) (t : jsstring),
    In t (fold_left (collect sel) cells acc) ->
    In t acc
    \/ (In t (filter truthy_str (map trim cells)) /\ sel t = true).
Proof.
  intros sel cells. induction cells as [| c cells IH]; intros acc t Hin.
  - left. exact Hin.
  - cbn [fold_left] in Hin. apply IH in Hin.
    cbn [map filter].
    destruct Hin as [Hin | [Hin Hsel]].
    + unfold collect in Hin.
      destruct (truthy_str (trim c)) eqn:Htr; cbn [andb] in Hin;
        [| left; exact Hin].
      destruct (sel (trim c)) eqn:Hs; [| left; exact Hin].
      apply push_new_In in Hin. destruct Hin as [Hin | ->];
        [left; exact Hin |].
      right. split; [left; reflexivity | exact Hs].
    + right. split; [| exact Hsel].
      destruct (truthy_str (trim c)); [right |]; exact Hin.
Qed.

Lemma parseBulkData_field_exactly :
  forall (field : ParsedBulkData -> list jsstring) (sel : jsstring -> bool),
    (forall i r c, field (process_cell i r c) = collect sel (field r) c) ->
    field empty_bulk = [] ->
    forall content,
      NoDup (field (parseBulkData content csv))
      /\ forall t,
           In t (field (parseBulkData content csv))
           <-> In t (cell_tokens content) /\ sel t = true.
Proof.
  intros field sel Hstep Hempty content.
  unfold parseBulkData.
  rewrite (fold_rows_field field sel Hstep), with_index_snd, Hempty.
  destruct (collect_fold sel (List.concat (csv_rows content)) [] (NoDup_nil _))
    as (Hnd & Hall & _).
  split; [exact Hnd |]. intros t. split.
  - intros Hin. apply collect_fold_sound in Hin.
    destruct Hin as [[] | Hin]. exact Hin.
  - intros [Hin Hsel]. apply Hall; assumption.
Qed.

(** X4.  [parseBulkData] files every cell of a CSV text where it
    belongs and nowhere else: an array holds a token exactly when a
    cell carries it and it passes the array's test and none of the
    tests that come before (email, then address, then SuiNS), and no
    array holds a token twice. *)
Theorem parseBulkData_classifies :
  forall content,
    NoDup (emails (parseBulkData content csv))
    /\ NoDup (addresses (parseBulkData content csv))
    /\ NoDup (suiNSNames (parseBulkData content csv))
    /\ forall t,
         (In t (emails (parseBulkData content csv))
          <-> In t (cell_tokens content) /\ isValidEmail t = true)
         /\ (In t (addresses (parseBulkData content csv))
             <-> In t (cell_tokens content)
                 /\ isValidEmail t = false /\ isValidSuiAddress t = true)
         /\ (In t (suiNSNames (parseBulkData content csv))
             <-> In t (cell_tokens content)
                 /\ isValidEmail t = false /\ isValidSuiAddress t = false
                 /\ isValidSuiNS t = true).
Proof.
  intros content.
  destruct (parseBulkData_field_exactly emails selects_email
              process_cell_emails eq_refl content) as [Ne He].
  destruct (parseBulkData_field_exactly addresses selects_address
              process_cell_addresses eq_refl content) as [Na Ha].
  destruct (parseBulkData_field_exactly suiNSNames selects_suiNS
              process_cell_suiNSNames eq_refl content) as [Ns Hs].
  repeat (split; [assumption |]).
  intros t. split; [| split].
  - apply He.
  - rewrite Ha. unfold selects_address.
    rewrite andb_true_iff, negb_true_iff. tauto.
  - rewrite Hs. unfold selects_suiNS.
    rewrite !andb_true_iff, !negb_true_iff. tauto.
Qed.




Lemma with_index_bounds :
  forall (A : Type) (l : list A) (i : nat) (x : A),
    In (i, x) (with_index l) -> (i < List.length l)%nat /\ In x l.
Proof.
  intros A l i x Hin. unfold with_index in Hin. split.
  - apply in_combine_l in Hin. apply in_seq in Hin. lia.
  - apply in_combine_r in Hin. exact Hin.
Qed.




Lemma split_aux_app :
  forall (sep : N) (a b cur : jsstring),
    split_aux sep (a ++ sep :: b) cur
    = split_aux sep a cur ++ split_aux sep b [].
Proof.
  intros sep a b. induction a as [| c a IH]; intros cur.
  - cbn [app split_aux]. rewrite N.eqb_refl. reflexivity.
  - cbn [app split_aux]. destruct (c =? sep)%N.
    + rewrite IH. reflexivity.
    + apply IH.
Qed.

Lemma split_aux_no_sep :
  forall (sep : N) (s cur : jsstring),
    ~ In sep s -> split_aux sep s cur = [rev cur ++ s].
Proof.
  intros sep s. induction s as [| c s IH]; intros cur Hno.
  - cbn. rewrite app_nil_r. reflexivity.
  - cbn [split_aux].
    destruct (c =? sep)%N eqn:Hc.
    + apply N.eqb_eq in Hc. exfalso. apply Hno. left. exact Hc.
    + rewrite IH by (intros H; apply Hno; right; exact H).
      cbn [rev]. rewrite <- app_assoc. reflexivity.
Qed.

Lemma csv_rows_app :
  forall a b,
    csv_rows (a ++ line_feed :: b) = csv_rows a ++ csv_rows b.
Proof.
  intros a b. unfold csv_rows, split.
  rewrite split_aux_app, filter_app, map_app. reflexivity.
Qed.

Lemma csv_rows_blank :
  forall line, blank_line line -> csv_rows line = [].
Proof.
  intros line [Hno Hblank]. unfold csv_rows, split.
  rewrite split_aux_no_sep by exact Hno.
  cbn [rev app filter]. rewrite Hblank. reflexivity.
Qed.

(** X6.  Blank lines do not count: a blank line at the head of a CSV
    text, or between two of its lines, changes nothing in the result
    of [parseBulkData].  The row numbers of the errors are therefore
    positions among the lines that are not blank, not line numbers. *)
Theorem parseBulkData_skips_blank_lines :
  forall blank,
    blank_line blank ->
    forall fileType before rest,
      parseBulkData (blank ++ line_feed :: rest) fileType
      = parseBulkData rest fileType
      /\ parseBulkData (before ++ line_feed :: blank ++ line_feed :: rest)
                       fileType
         = parseBulkData (before ++ line_feed :: rest) fileType.
Proof.
  intros blank Hblank fileType before rest.
  destruct fileType; [| split; reflexivity].
  unfold parseBulkData.
  rewrite !csv_rows_app, (csv_rows_blank _ Hblank). split; reflexivity.
Qed.

(** X7.  Entries that [parseBulkData] has filed never fail the format
    checks of [validateAccessRule]: a rule with a known condition
    type, no numeric field, and the three arrays of a parsed CSV text
    as its lists is valid, unless it is a hybrid rule and the text
    held neither an email nor an address. *)
Theorem bulk_entries_pass_validation :
  forall content rule,
    In (conditionType rule) condition_types ->
    allowedEmails rule = Some (emails (parseBulkData content csv)) ->
    allowedAddresses rule = Some (addresses (parseBulkData content csv)) ->
    allowedSuiNS rule = Some (suiNSNames (parseBulkData content csv)) ->
    accessStartTime rule = None -> accessEndTime rule = None ->
    maxAccessDuration rule = None -> maxAccessCount rule = None ->
    (valid (validateAccessRule rule) = false
     <-> conditionType rule = str "hybrid"
         /\ emails (parseBulkData content csv) = []
         /\ addresses (parseBulkData content csv) = []).
Proof.
  intros content rule Hty Hem Had Hns Hs He Hd Hc.
  destruct (parseBulkData_field_exactly emails selects_email
              process_cell_emails eq_refl content) as [_ Hce].
  destruct (parseBulkData_field_exactly addresses selects_address
              process_cell_addresses eq_refl content) as [_ Hca].
  destruct (parseBulkData_field_exactly suiNSNames selects_suiNS
              process_cell_suiNSNames eq_refl content) as [_ Hcs].
  assert (Hset : numeric_fields_set rule).
  { unfold numeric_fields_set. rewrite Hs, He, Hd, Hc. cbn. tauto. }
  rewrite (validateAccessRule_false_iff rule Hset).
  unfold rule_violation, no_condition_family.
  rewrite Hem, Had, Hns, Hs, He, Hd, Hc. cbn [field_list].
  split.
  - intros [H | [H | [H | [H | [H | [H | [H | H]]]]]]].
    + contradiction.
    + apply Exists_exists in H. destruct H as (t & Hin & Hbad).
      apply Hce in Hin. destruct Hin as [_ Hok].
      unfold selects_email in Hok. congruence.
    + apply Exists_exists in H. destruct H as (t & Hin & Hbad).
      apply Hca in Hin. destruct Hin as [_ Hok].
      unfold selects_address in Hok. apply andb_true_iff in Hok.
      destruct Hok as [_ Hok]. congruence.
    + apply Exists_exists in H. destruct H as (t & Hin & Hbad).
      apply Hcs in Hin. destruct Hin as [_ Hok].
      unfold selects_suiNS in Hok. rewrite !andb_true_iff in Hok.
      destruct Hok as [_ Hok].
      apply isValidSuiNS_false in Hbad. congruence.
    + destruct H as (s & e & Hsome & _). discriminate.
    + destruct H as (d & Hsome & _). discriminate.
    + destruct H as (c & Hsome & _). discriminate.
    + tauto.
  - intros (Hh & Hnoe & Hnoa). do 7 right. tauto.
Qed.

(* ================================================================== *)
(** * fileService: requests and replies, further properties *)
(* ================================================================== *)

Lemma get_not_nullish :
  forall v key, (exists x, get v key = Ok x) <-> not_nullish v.
Proof.
  intros v key. unfold not_nullish. split.
  - intros [x Hx]. destruct v; simpl in Hx; try discriminate;
      split; discriminate.
  - intros [Hn Hu]. destruct v; simpl; try congruence; eauto.
Qed.

Lemma lookup_last_app_one :
  forall fs k v key,
    lookup_last (fs ++ [(k, v)]) key
    = if jseqb k key then Some v else lookup_last fs key.
Proof.
  intros fs k v key. induction fs as [| [k0 v0] fs IH].
  - cbn. reflexivity.
  - cbn [app lookup_last]. rewrite IH.
    destruct (jseqb k key); [reflexivity |].
    reflexivity.
Qed.

Lemma jseqb_neq : forall a b, a <> b -> jseqb a b = false.
Proof.
  intros a b H. destruct (jseqb a b) eqn:Heq; [| reflexivity].
  apply jseqb_eq in Heq. contradiction.
Qed.

(** X8.  Every call of the file service makes exactly one request and
    returns: [getUserFiles], [uploadFile] and [downloadSharedFile]
    never throw and never retry, whatever the network does; the file
    that [uploadFile] sends is the encrypted one when encryption data
    is given, and the original otherwise. *)
Theorem fileService_sends_one_request :
  forall (net : Network) (clock : nat -> TimeValue) (token : option jsstring)
         (mode : bool) (file : File) (enc : option EncryptionData)
         (shareId : jsstring) (log : list Request),
    (exists r, getUserFiles net clock token mode log
               = (Ok r, log ++ [files_request token mode]))
    /\ (exists r, uploadFile net file token mode enc log
                  = (Ok r, log ++ [upload_request
                                     match enc with
                                     | Some d => encryptedFile d
                                     | None => file
                                     end token mode]))
    /\ (exists r, downloadSharedFile net shareId token log
                  = (Ok r, log ++ [download_request shareId token])).
Proof.
  intros net clock token mode file enc shareId log. split; [| split].
  - unfold getUserFiles, etry, ebind, fetch, elift, eret, ethrow.
    destruct (net _) as [response | e]; [| eexists; reflexivity].
    destruct (json response) as [d | e]; [| eexists; reflexivity].
    destruct (negb (ok response)).
    + destruct (bind_throw_Error_throws FilesResponse jsval
                  (get d (str "message"))
                  (fun m => js_or m (JStr (str "Failed to fetch files"))))
        as [e He].
      rewrite He. eexists; reflexivity.
    + destruct (backend_files d) as [backendFiles | e];
        [| eexists; reflexivity].
      destruct (negb (isArray backendFiles)); [eexists; reflexivity |].
      destruct (map_exn _ _) as [formatted | e]; eexists; reflexivity.
  - unfold uploadFile, etry, ebind, fetch, elift, eret.
    destruct (net _) as [response | e]; [| eexists; reflexivity].
    destruct (json response) as [result | e]; [| eexists; reflexivity].
    destruct (negb (ok response)).
    + destruct (bind_throw_Error_throws jsval jsval
                  (get result (str "message"))
                  (fun m => js_or m (JStr (str "Upload failed")))) as [e He].
      rewrite He. eexists; reflexivity.
    + destruct enc as [d |]; [| eexists; reflexivity].
      destruct (get result (str "data")) as [x | e];
        [| eexists; reflexivity].
      destruct (truthy x); eexists; reflexivity.
  - unfold downloadSharedFile, etry, ebind, fetch, elift, eret.
    destruct (net _) as [response | e]; [| eexists; reflexivity].
    destruct (negb (ok response)).
    + destruct (bind_throw_Error_throws SharedDownload jsval
                  (get (try_catch (json response) (fun _ => JObj []))
                       (str "message"))
                  (fun m => js_or m
                              (JStr (str "Failed to download shared file"))))
        as [e He].
      rewrite He. eexists; reflexivity.
    + destruct (blob response) as [fileData | e]; eexists; reflexivity.
Qed.

(** X9.  When [uploadFile] is given encryption data and the backend
    answers 2xx with an object under [data], the result is the reply
    with [data.isEncrypted] set to [true] and [data.encryptionKeys] set
    to the given keys, whatever the reply said of them; every other
    property of [data] and of the reply is kept. *)
Theorem uploadFile_marks_encrypted :
  forall (net : Network) (file : File) (token : option jsstring)
         (mode : bool) (d : EncryptionData) (log : list Request)
         (response : Response) (reply : jsval)
         (fs : list (jsstring * jsval)),
    net (upload_request (encryptedFile d) token mode) = Ok response ->
    ok response = true ->
    json response = Ok reply ->
    get reply (str "data") = Ok (JObj fs) ->
    exists result data',
      uploadFile net file token mode (Some d) log
      = (Ok result, log ++ [upload_request (encryptedFile d) token mode])
      /\ get result (str "data") = Ok data'
      /\ get data' (str "isEncrypted") = Ok (JBool true)
      /\ get data' (str "encryptionKeys")
         = Ok (keys_object (data_encryptionKeys d))
      /\ (forall k, k <> str "isEncrypted" -> k <> str "encryptionKeys" ->
                    get data' k = get (JObj fs) k)
      /\ (forall k, k <> str "data" -> get result k = get reply k).
Proof.
  intros net file token mode d log response reply fs Hnet Hok Hjson Hdata.
  unfold uploadFile, etry, ebind, fetch, elift, eret.
  rewrite Hnet, Hjson, Hok, Hdata. cbn [negb truthy].
  assert (Hkey : jseqb (str "data") length_key = false) by reflexivity.
  destruct reply as [| | b | n | s | l | rfs]; cbn [get] in Hdata;
    try discriminate.
  - (* a string has no property [data] *)
    rewrite Hkey in Hdata.
    destruct (index_get s 0 (str "data")); discriminate.
  - (* nor has an array *)
    rewrite Hkey in Hdata.
    assert (Hidx : forall (l0 : list jsval) i,
               index_get l0 i (str "data") = None).
    { induction l0 as [| x l0 IH]; intros i; cbn [index_get];
        [reflexivity |].
      assert (Hne : jseqb (nat_toString i) (str "data") = false).
      { apply jseqb_neq. intros Heq.
        pose proof (to_uint_not_nil i) as Hnil. unfold nat_toString in Heq.
        destruct (N.to_uint i); try contradiction; discriminate Heq. }
      rewrite Hne. apply IH. }
    rewrite Hidx in Hdata. discriminate.
  - eexists.
    exists (JObj (fs ++ [(str "encryptionKeys",
                          keys_object (data_encryptionKeys d));
                         (str "isEncrypted", JBool true)])).
    split; [reflexivity |].
    cbn [assign spread get].
    assert (Hfs : fs ++ [(str "encryptionKeys",
                          keys_object (data_encryptionKeys d));
                         (str "isEncrypted", JBool true)]
                  = (fs ++ [(str "encryptionKeys",
                             keys_object (data_encryptionKeys d))])
                    ++ [(str "isEncrypted", JBool true)])
      by (rewrite <- app_assoc; reflexivity).
    split; [rewrite lookup_last_app_one, jseqb_refl; reflexivity |].
    rewrite Hfs.
    split; [rewrite lookup_last_app_one, jseqb_refl; reflexivity |].
    split; [rewrite !lookup_last_app_one;
            rewrite (jseqb_neq (str "isEncrypted") (str "encryptionKeys"))
              by discriminate;
            rewrite jseqb_refl; reflexivity |].
    split.
    + intros k Hk1 Hk2. rewrite !lookup_last_app_one.
      rewrite (jseqb_neq (str "isEncrypted") k) by congruence.
      rewrite (jseqb_neq (str "encryptionKeys") k) by congruence.
      reflexivity.
    + intros k Hk. rewrite lookup_last_app_one.
      rewrite (jseqb_neq (str "data") k) by congruence. reflexivity.
Qed.



(** X11.  When the reply to [downloadSharedFile] is not 2xx, the body of
    the reply is never read as a file: the result is a failure whose
    error is the reply's [message] when that is a non-empty string, and
    "Failed to download shared file" when the body is not JSON or is an
    object without a message. *)
Theorem downloadSharedFile_reports_server_message :
  forall (net : Network) (shareId : jsstring) (token : option jsstring)
         (log : list Request) (response : Response),
    net (download_request shareId token) = Ok response ->
    ok response = false ->
    exists msg,
      downloadSharedFile net shareId token log
      = (Ok (download_failed msg), log ++ [download_request shareId token])
      /\ (forall e, json response = Throw e ->
                    msg = str "Failed to download shared file")
      /\ (forall fs, json response = Ok (JObj fs) ->
                     lookup_last fs (str "message") = None ->
                     msg = str "Failed to download shared file")
      /\ (forall fs s, json response = Ok (JObj fs) ->
                       lookup_last fs (str "message") = Some (JStr s) ->
                       s <> [] -> msg = s).
Proof.
  intros net shareId token log response Hnet Hok.
  unfold downloadSharedFile, etry, ebind, fetch, elift, eret.
  rewrite Hnet, Hok. cbn [negb].
  destruct (json response) as [d | e] eqn:Hjson; cbn [try_catch].
  - destruct (bind_throw_Error_throws SharedDownload jsval
                (get d (str "message"))
                (fun m => js_or m
                            (JStr (str "Failed to download shared file"))))
      as [e He].
    rewrite He.
    exists (message_or e (str "Failed to download shared file")).
    split; [reflexivity |].
    split; [discriminate |]. split.
    + intros fs Hfs Hnone. injection Hfs as ->.
      cbn [get bind] in He. rewrite Hnone in He.
      cbn in He. injection He as <-. reflexivity.
    + intros fs s Hfs Hsome Hs. injection Hfs as ->.
      cbn [get bind] in He. rewrite Hsome in He.
      unfold js_or in He. cbn [truthy] in He.
      destruct s as [| c s]; [congruence |].
      cbn in He. injection He as <-. reflexivity.
  - eexists. split; [reflexivity |].
    split; [reflexivity |].
    split; [discriminate | discriminate].
Qed.

Lemma filename_match_capture :
  forall h c,
    filename_match h = Some c ->
    c <> [] /\ Forall (fun x => dot x = true) c.
Proof.
  intros h c Hm. pose proof (filename_match_spec h) as Hspec.
  rewrite Hm in Hspec. destruct Hspec as (before & (Hne & Hdot & _) & _).
  split; assumption.
Qed.

(** X12.  A successful result of [downloadSharedFile] is complete: it
    carries the bytes of the reply's body, a file name that is not
    empty and holds no line terminator, a content type that is not
    empty, and a flag.  The caller's test
    [result.fileData && result.filename && result.contentType]
    therefore never fails on a success. *)
Theorem downloadSharedFile_success_is_complete :
  forall (net : Network) (shareId : jsstring) (token : option jsstring)
         (log log' : list Request) (r : SharedDownload),
    downloadSharedFile net shareId token log = (Ok r, log') ->
    dl_success r = true ->
    exists response bytes name type flag,
      net (download_request shareId token) = Ok response
      /\ ok response = true
      /\ blob response = Ok bytes
      /\ r = {| dl_success := true; dl_error := None;
                dl_fileData := Some bytes; dl_filename := Some name;
                dl_contentType := Some type; dl_isEncrypted := Some flag |}
      /\ name <> [] /\ Forall (fun c => dot c = true) name
      /\ type <> [].
Proof.
  intros net shareId token log log' r Hrun Hsucc.
  revert Hrun. unfold downloadSharedFile, etry, ebind, fetch, elift, eret.
  destruct (net (download_request shareId token)) as [response | e] eqn:Hnet.
  2: { intros H. injection H as <- _. discriminate. }
  destruct (ok response) eqn:Hok; cbn [negb].
  2: { destruct (bind_throw_Error_throws SharedDownload jsval
                   (get (try_catch (json response) (fun _ => JObj []))
                        (str "message"))
                   (fun m => js_or m
                               (JStr (str "Failed to download shared file"))))
         as [e He].
       rewrite He. intros H. injection H as <- _. discriminate. }
  destruct (blob response) as [fileData | e] eqn:Hblob.
  2: { intros H. injection H as <- _. discriminate. }
  intros H. injection H as <- _.
  assert (Hdefault : str "shared-file" <> []
                     /\ Forall (fun c => dot c = true) (str "shared-file")).
  { split; [discriminate | repeat constructor]. }
  eexists response, fileData, _, _, _.
  split; [reflexivity |]. split; [exact Hok |]. split; [exact Hblob |].
  split; [reflexivity |].
  split; [| split].
  - destruct (headers_get response (str "Content-Disposition")) as [h |];
      [| apply Hdefault].
    destruct (truthy_str h); [| apply Hdefault].
    destruct (filename_match h) as [c |] eqn:Hm; [| apply Hdefault].
    apply (filename_match_capture _ _ Hm).
  - destruct (headers_get response (str "Content-Disposition")) as [h |];
      [| apply Hdefault].
    destruct (truthy_str h); [| apply Hdefault].
    destruct (filename_match h) as [c |] eqn:Hm; [| apply Hdefault].
    apply (filename_match_capture _ _ Hm).
  - destruct (headers_get response (str "Content-Type")) as [t |];
      [| discriminate].
    destruct t as [| c t]; cbn [truthy_str]; discriminate.
Qed.

Lemma with_index_In :
  forall (A : Type) (l : list A) (x : A),
    In x l -> exists i, In (i, x) (with_index l).
Proof.
  intros A l x. unfold with_index.
  assert (H : forall k, In x l ->
                        exists i, In (i, x) (combine (seq k (List.length l)) l)).
  { induction l as [| a l IH]; intros k Hin; [destruct Hin |].
    cbn [List.length seq combine]. destruct Hin as [-> | Hin].
    - exists k. left. reflexivity.
    - destruct (IH (S k) Hin) as [i Hi]. exists i. right. exact Hi. }
  apply H.
Qed.

Lemma map_exn_Ok :
  forall (A B : Type) (f : A -> exn B) (l : list A) (ys : list B),
    map_exn f l = Ok ys ->
    List.length ys = List.length l
    /\ forall y, In y ys -> exists x, In x l /\ f x = Ok y.
Proof.
  intros A B f l. induction l as [| x l IH]; intros ys H; cbn in H.
  - injection H as <-. split; [reflexivity | intros y []].
  - destruct (f x) as [y |] eqn:Hx; [| discriminate]. cbn in H.
    destruct (map_exn f l) as [ys' |] eqn:Hl; [| discriminate]. cbn in H.
    injection H as <-. destruct (IH _ eq_refl) as [Hlen Hin].
    split; [cbn; rewrite Hlen; reflexivity |].
    intros z [<- | Hz].
    + exists x. split; [left; reflexivity | exact Hx].
    + destruct (Hin _ Hz) as (x' & Hx' & Hfx'). exists x'.
      split; [right; exact Hx' | exact Hfx'].
Qed.

Lemma map_exn_Throw :
  forall (A B : Type) (f : A -> exn B) (l : list A) (e : thrown),
    map_exn f l = Throw e -> exists x, In x l /\ f x = Throw e.
Proof.
  intros A B f l e. induction l as [| x l IH]; intros H; cbn in H.
  - discriminate.
  - destruct (f x) as [y |] eqn:Hx; cbn in H.
    + destruct (map_exn f l) as [ys' |] eqn:Hl; cbn in H; [discriminate |].
      injection H as ->. destruct (IH eq_refl) as (x' & Hx' & Hfx').
      exists x'. split; [right; exact Hx' | exact Hfx'].
    + injection H as ->. exists x. split; [left; reflexivity | exact Hx].
Qed.

Lemma get_or_Ok :
  forall v k1 k2, not_nullish v -> exists x, get_or v k1 k2 = Ok x.
Proof.
  intros v k1 k2 Hv. unfold get_or.
  destruct (proj2 (get_not_nullish v k1) Hv) as [a Ha].
  rewrite Ha. cbn. destruct (truthy a); [eauto |].
  apply get_not_nullish. exact Hv.
Qed.

Lemma format_file_Ok :
  forall now file,
    (exists m, format_file now file = Ok m) <-> not_nullish file.
Proof.
  intros now file. split.
  - intros [m Hm]. unfold format_file, get_or in Hm.
    destruct (get file (str "cid")) as [a |] eqn:Ha; [| discriminate].
    apply (get_not_nullish file (str "cid")). eauto.
  - intros Hv. unfold format_file.
    destruct (get_or_Ok file (str "cid") (str "fileCid") Hv) as [a ->].
    destruct (get_or_Ok file (str "filename") (str "name") Hv) as [b ->].
    destruct (get_or_Ok file (str "fileSize") (str "size") Hv) as [c ->].
    destruct (get_or_Ok file (str "uploadTimestamp") (str "timestamp") Hv)
      as [d ->].
    destruct (proj2 (get_not_nullish file (str "uploader")) Hv) as [u ->].
    destruct (proj2 (get_not_nullish file (str "contentType")) Hv) as [t ->].
    destruct (proj2 (get_not_nullish file (str "isEncrypted")) Hv) as [i ->].
    destruct (proj2 (get_not_nullish file (str "encryptionKeys")) Hv)
      as [k ->].
    cbn. eauto.
Qed.

Lemma format_file_isOwner :
  forall now file m, format_file now file = Ok m -> isOwner m = true.
Proof.
  intros now file m. unfold format_file.
  destruct (get_or file (str "cid") (str "fileCid")); [| discriminate].
  destruct (get_or file (str "filename") (str "name")); [| discriminate].
  destruct (get_or file (str "fileSize") (str "size")); [| discriminate].
  destruct (get_or file (str "uploadTimestamp") (str "timestamp"));
    [| discriminate].
  destruct (get file (str "uploader")); [| discriminate].
  destruct (get file (str "contentType")); [| discriminate].
  destruct (get file (str "isEncrypted")); [| discriminate].
  destruct (get file (str "encryptionKeys")); [| discriminate].
  cbn. intros H. injection H as <-. reflexivity.
Qed.

(** X13.  When the backend answers [getUserFiles] with 2xx and an array
    of files, the call succeeds exactly when no entry of the array is
    [null]; one [null] entry fails the whole list.  On success there
    is one file for each entry, none is dropped, and every file is
    marked as owned by the caller. *)
Theorem getUserFiles_lists_every_entry :
  forall (net : Network) (clock : nat -> TimeValue) (token : option jsstring)
         (mode : bool) (log : list Request) (response : Response)
         (d : jsval) (l : list jsval),
    net (files_request token mode) = Ok response ->
    ok response = true ->
    json response = Ok d ->
    backend_files d = Ok (JArr l) ->
    exists r,
      getUserFiles net clock token mode log
      = (Ok r, log ++ [files_request token mode])
      /\ (files_success r = true <-> Forall not_nullish l)
      /\ (files_success r = true ->
          List.length (files r) = List.length l
          /\ Forall (fun m => isOwner m = true) (files r)).
Proof.
  intros net clock token mode log response d l Hnet Hok Hjson Hfiles.
  unfold getUserFiles, etry, ebind, fetch, elift, eret, ethrow.
  rewrite Hnet, Hjson, Hok, Hfiles. cbn [negb isArray elements].
  destruct (map_exn (fun ix => format_file (clock (fst ix)) (snd ix))
                    (with_index l)) as [formatted | e] eqn:Hmap.
  - eexists. split; [reflexivity |]. cbn.
    destruct (map_exn_Ok _ _ _ _ _ Hmap) as [Hlen Hin].
    split; [| intros _; split].
    + split; [intros _ | reflexivity].
      apply Forall_forall. intros x Hx.
      destruct (with_index_In _ l x Hx) as [i Hix].
      clear Hin.
      assert (Hall : forall ixs ys,
                 map_exn (fun ix => format_file (clock (fst ix)) (snd ix)) ixs
                 = Ok ys ->
                 forall ix, In ix ixs -> not_nullish (snd ix)).
      { induction ixs as [| a ixs IH]; intros ys Hys ix Hix'; [destruct Hix' |].
        cbn in Hys.
        destruct (format_file (clock (fst a)) (snd a)) as [m |] eqn:Hm;
          [| discriminate].
        cbn in Hys. destruct (map_exn _ ixs) as [ys' |] eqn:Hrest;
          [| discriminate].
        destruct Hix' as [<- | Hix'].
        - apply (format_file_Ok (clock (fst a))). eauto.
        - apply (IH _ eq_refl _ Hix'). }
      apply (Hall _ _ Hmap (i, x) Hix).
    + rewrite Hlen. unfold with_index.
      rewrite length_combine, length_seq. lia.
    + apply Forall_forall. intros m Hm.
      destruct (Hin _ Hm) as (ix & _ & Hfmt).
      apply (format_file_isOwner _ _ _ Hfmt).
  - eexists. split; [reflexivity |]. cbn.
    split; [| discriminate].
    split; [discriminate |]. intros Hall. exfalso.
    destruct (map_exn_Throw _ _ _ _ _ Hmap) as ([i x] & Hix & Hthrow).
    apply with_index_bounds in Hix. destruct Hix as [_ Hx].
    rewrite Forall_forall in Hall. specialize (Hall _ Hx).
    destruct (proj2 (format_file_Ok (clock i) x) Hall) as [m Hm].
    cbn [fst snd] in Hthrow. congruence.
Qed.

(* ================================================================== *)
(** * sealEncryptionService: initialisation, keys and envelopes *)
(* ================================================================== *)

Lemma initialize_cases :
  forall env st,
    (isInitialized st = true /\ initialize env st = (Ok tt, st))
    \/ (isInitialized st = false
        /\ exists p, initializationPromise st = Some p
                     /\ initialize env st = (p, st))
    \/ (isInitialized st = false /\ initializationPromise st = None
        /\ initialize env st
           = (Ok tt,
              {| isInitialized := true;
                 initializationPromise := Some (Ok tt);
                 SealLibrary :=
                   Some match import_seal env with
                        | Ok _ => SealModule
                        | Throw _ => MockSeal
                        end |})).
Proof.
  intros env st. unfold initialize.
  destruct (isInitialized st) eqn:Hi; [left; auto |].
  destruct (initializationPromise st) as [p |] eqn:Hp.
  - right. left. split; [reflexivity |]. exists p. auto.
  - right. right. split; [reflexivity |]. split; [reflexivity |].
    unfold _initializeSeal, etry, ebind, elift, set_library, set_initialized,
      set_promise.
    destruct (import_seal env); reflexivity.
Qed.

Lemma encryptFile_state :
  forall env file st, snd (encryptFile env file st) = snd (initialize env st).
Proof.
  intros env file st. unfold encryptFile, etry, ebind, eret, elift.
  destruct (initialize env st) as [[[] | e] st1]; [| reflexivity].
  destruct (negb (isReady st1)); [reflexivity |].
  destruct (arrayBuffer file) as [bytes | e]; [| reflexivity].
  destruct (negb (kp_success (_generateKeyPair env))); [reflexivity |].
  destruct (negb (data_success _)); reflexivity.
Qed.

Lemma decryptFile_state :
  forall env bytes key st,
    snd (decryptFile env bytes key st) = snd (initialize env st).
Proof.
  intros env bytes key st. unfold decryptFile, etry, ebind, eret.
  destruct (initialize env st) as [[[] | e] st1]; [| reflexivity].
  destruct (negb (isReady st1)); [reflexivity |].
  destruct (negb (data_success _)); reflexivity.
Qed.

(** What holds of every state that the service reaches: it is as
    created, or initialised with a library loaded. *)
Lemma reachable_inv :
  forall st,
    reachable st ->
    st = new_service
    \/ (isInitialized st = true /\ SealLibrary st <> None).
Proof.
  assert (Hstep : forall env st,
             st = new_service
             \/ (isInitialized st = true /\ SealLibrary st <> None) ->
             snd (initialize env st) = new_service
             \/ (isInitialized (snd (initialize env st)) = true
                 /\ SealLibrary (snd (initialize env st)) <> None)).
  { intros env st [-> | [Hi Hl]].
    - right. destruct (initialize_cases env new_service)
        as [[H _] | [(_ & p & H & _) | (_ & _ & H)]];
        try discriminate.
      rewrite H. cbn. split; [reflexivity | discriminate].
    - right. destruct (initialize_cases env st)
        as [[_ H] | [(H & _) | (H & _)]]; try congruence.
      rewrite H. cbn. auto. }
  induction 1 as [| env st r st' _ IH Hrun | env file st r st' _ IH Hrun
                  | env bytes key st r st' _ IH Hrun].
  - left. reflexivity.
  - replace st' with (snd (initialize env st)) by (rewrite Hrun; reflexivity).
    apply Hstep. exact IH.
  - replace st' with (snd (encryptFile env file st))
      by (rewrite Hrun; reflexivity).
    rewrite encryptFile_state. apply Hstep. exact IH.
  - replace st' with (snd (decryptFile env bytes key st))
      by (rewrite Hrun; reflexivity).
    rewrite decryptFile_state. apply Hstep. exact IH.
Qed.

(** X14.  [initialize] never rejects and always leaves the service
    ready, in every state that the service can reach: when the Seal
    module cannot be imported the mock library stands in for it, and
    a service that is initialised is left as it is.  [getStatus] then
    reports all three flags as true. *)
Theorem initialize_always_ready :
  forall st,
    reachable st ->
    forall env,
      exists st',
        initialize env st = (Ok tt, st')
        /\ getStatus st'
           = {| status_isInitialized := true; status_isReady := true;
                status_libraryLoaded := true |}
        /\ (isInitialized st = true -> st' = st)
        /\ (isInitialized st = false ->
            SealLibrary st'
            = Some match import_seal env with
                   | Ok _ => SealModule
                   | Throw _ => MockSeal
                   end).
Proof.
  intros st Hreach env.
  destruct (reachable_inv st Hreach) as [-> | [Hi Hl]].
  - destruct (initialize_cases env new_service)
      as [[H _] | [(_ & p & H & _) | (_ & _ & H)]]; try discriminate.
    eexists. split; [exact H |].
    split; [reflexivity |]. split; [discriminate | reflexivity].
  - destruct (initialize_cases env st)
      as [[_ H] | [(H & _) | (H & _)]]; try congruence.
    exists st. split; [exact H |].
    split; [| split; [reflexivity | congruence]].
    unfold getStatus, isReady. rewrite Hi.
    destruct (SealLibrary st); [reflexivity | congruence].
Qed.

(** X15.  A successful result of [encryptFile] has this shape: the two
    keys are the prefixes [seal_public_] and [seal_secret_] before one
    and the same identifier, made of the clock and of random digits;
    the encrypted data is the UTF-8 text of the envelope, which names
    the public key in the clear; and the metadata holds the size of
    the file, the algorithm name and the clock.  The secret key can
    therefore be read off the encrypted data. *)
Theorem encryptFile_success_shape :
  forall (env : Env) (file : File) (st st' : ServiceState)
         (r : EncryptionResult),
    encryptFile env file st = (Ok r, st') ->
    enc_success r = true ->
    exists bytes,
      arrayBuffer file = Ok bytes
      /\ publicKey r = Some (str "seal_public_" ++ keyId env)
      /\ secretKey r = Some (str "seal_secret_" ++ keyId env)
      /\ encryptedData r
         = Some (TextEncoder_encode
                   (envelope_text env bytes (str "seal_public_" ++ keyId env)))
      /\ metadata r
         = Some {| originalSize := file_size file;
                   encryptionAlgorithm := str "Seal-BFV";
                   timestamp := millis (now_result env) |}
      /\ enc_error r = None.
Proof.
  intros env file st st' r Hrun Hsucc.
  revert Hrun. unfold encryptFile, etry, ebind, eret, elift.
  destruct (initialize env st) as [[[] | e] st1].
  2: { intros H. injection H as <- _. discriminate. }
  destruct (isReady st1); cbn [negb].
  2: { intros H. injection H as <- _. discriminate. }
  destruct (arrayBuffer file) as [bytes | e].
  2: { intros H. injection H as <- _. discriminate. }
  destruct (_generateKeyPair_plain env) as (pk & sk & Hkp & Hpk).
  assert (Hkeys : pk = str "seal_public_" ++ keyId env
                  /\ sk = str "seal_secret_" ++ keyId env).
  { unfold _generateKeyPair, try_catch in Hkp. injection Hkp as <- <-.
    split; reflexivity. }
  destruct Hkeys as [Epk Esk].
  rewrite Hkp. cbn [kp_success kp_publicKey kp_secretKey kp_error negb].
  destruct (_encryptData_cases env bytes (Some pk))
    as [(text & Htext & Henc) | (msg & Henc)]; rewrite Henc.
  2: { intros H. injection H as <- _. discriminate. }
  cbn [data_ok data_success data_bytes negb].
  intros H. injection H as <- _.
  exists bytes. cbn.
  split; [reflexivity |]. split; [rewrite Epk; reflexivity |].
  split; [rewrite Esk; reflexivity |].
  split; [| split; reflexivity].
  apply JSON_stringify_checked_Ok in Htext. destruct Htext as [-> Hmax].
  pose proof (stringify_envelope_length env bytes pk) as Hlong.
  assert (Hlen : (N.of_nat (List.length bytes) < 10 ^ 21)%N).
  { change (2 ^ 53 - 1)%N with 9007199254740991%N in Hmax.
    apply N.le_lt_trans with 9007199254740991%N; [lia | reflexivity]. }
  rewrite (stringify_envelope env bytes pk Hpk Hlen), Epk. reflexivity.
Qed.

Lemma ToUint8_num_of_N :
  forall n, ToUint8 (num_of_N n) = byte_of_N n.
Proof.
  intros n. unfold ToUint8, num_of_N, num_of_Z, trunc.
  cbn [inject_Z Qnum Qden]. rewrite Z.quot_1_r.
  unfold byte_of_N.
  replace (Z.to_N (Z.of_N n mod 256)) with (n mod 256)%N
    by (rewrite <- (N2Z.id (n mod 256)), N2Z.inj_mod; reflexivity).
  rewrite N.Div0.mod_mod. reflexivity.
Qed.

Lemma Uint8Array_from_numbers :
  forall ns, Uint8Array_from (JArr (json_numbers ns)) = Ok (map byte_of_N ns).
Proof.
  intros ns. unfold Uint8Array_from, json_numbers.
  assert (H : map_exn ToNumber (map (fun n => JNum (num_of_N n)) ns)
              = Ok (map num_of_N ns)).
  { induction ns as [| n ns IH]; cbn; [reflexivity |].
    cbn in IH. rewrite IH. reflexivity. }
  rewrite H. cbn [bind]. rewrite map_map. f_equal.
  apply map_ext. apply ToUint8_num_of_N.
Qed.

Lemma bare_envelope_ascii :
  forall ns, ascii_text (bare_envelope_text ns).
Proof.
  intros ns. unfold bare_envelope_text, member_text, ascii_text.
  constructor; [reflexivity |]. constructor; [reflexivity |].
  apply Forall_app. split; [repeat constructor |].
  constructor; [reflexivity |]. constructor; [reflexivity |].
  apply Forall_app. split; [| repeat constructor].
  constructor; [reflexivity |]. constructor; [reflexivity |].
  apply Forall_app. split; [| repeat constructor].
  apply plain_is_ascii. apply numbers_text_plain.
Qed.

Lemma parse_bare_envelope :
  forall ns,
    Forall (fun n => (n <= 2 ^ 53)%N) ns ->
    JSON_parse (bare_envelope_text ns)
    = Ok (JObj [(str "encryptedChunks", JArr [JArr (json_numbers ns)])]).
Proof.
  intros ns Hns. unfold JSON_parse.
  set (fuel := (List.length ns + 2)%nat).
  assert (Hparse : parse_value (S (S (S (S fuel)))) (bare_envelope_text ns)
                   = Some (JObj [(str "encryptedChunks",
                                  JArr [JArr (json_numbers ns)])], [])).
  { unfold bare_envelope_text.
    rewrite parse_value_object_eq.
    change (skip_ws (member_text (str "encryptedChunks") ?v ?r))
      with (member_text (str "encryptedChunks") v r).
    unfold member_text at 1. cbv iota beta.
    change ((dquote =? ch "}")%N) with false. cbv iota.
    rewrite (parse_members_last (S (S fuel)) (str "encryptedChunks")
               (ch "[" :: ch "[" :: numbers_text ns ++ [ch "]"; ch "]"])
               (JArr [JArr (json_numbers ns)]) []).
    - reflexivity.
    - apply plain_literal. reflexivity.
    - cbn [app].
      rewrite parse_value_array_eq.
      change (skip_ws (ch "[" :: ?x)) with (ch "[" :: x).
      replace ((ch "[" =? ch "]")%N) with false by reflexivity.
      rewrite parse_elements_eq.
      rewrite <- app_assoc.
      change (numbers_text ns ++ [ch "]"; ch "]"] ++ [ch "}"])
        with (numbers_text ns ++ ch "]" :: [ch "]"; ch "}"]).
      rewrite (parse_value_numbers ns [ch "]"; ch "}"] fuel Hns)
        by (unfold fuel; lia).
      reflexivity. }
  rewrite (parse_fuel_enough _ _ _ _ Hparse). reflexivity.
Qed.

(** X16.  [decryptFile] checks nothing of an envelope but that
    [encryptedChunks[0]] can be turned into bytes: a JSON text that
    holds only that property, with no algorithm, key, size or
    timestamp, decrypts with any key, and each number of the chunk is
    reduced modulo 256. *)
Theorem decryptFile_accepts_bare_chunks :
  forall (st : ServiceState),
    reachable st ->
    forall (ns : list N),
      Forall (fun n => (n <= 2 ^ 53)%N) ns ->
      forall (env : Env) (key : jsstring),
        exists st',
          decryptFile env (TextEncoder_encode (bare_envelope_text ns)) key st
          = (Ok {| dec_success := true;
                   decryptedData := Some (map byte_of_N ns);
                   dec_error := None |}, st').
Proof.
  intros st Hreach ns Hns env key.
  assert (Hinit : exists st', initialize env st = (Ok tt, st')
                              /\ isReady st' = true).
  { destruct (reachable_inv st Hreach) as [-> | [Hi Hl]].
    - apply initialize_new_service.
    - exists st.
      assert (Hr : isReady st = true).
      { unfold isReady. rewrite Hi.
        destruct (SealLibrary st); [reflexivity | congruence]. }
      split; [apply isReady_initialize; exact Hr | exact Hr]. }
  destruct Hinit as (st' & Hinit & Hready).
  exists st'. unfold decryptFile, etry, ebind, eret.
  rewrite Hinit, Hready. cbn [negb].
  assert (Hdec : _decryptData (TextEncoder_encode (bare_envelope_text ns))
                 = data_ok (map byte_of_N ns)).
  { unfold _decryptData.
    rewrite (decode_encode_ascii _ (bare_envelope_ascii ns)).
    rewrite (parse_bare_envelope ns Hns). cbn [bind].
    assert (Hchunks : get (JObj [(str "encryptedChunks",
                                  JArr [JArr (json_numbers ns)])])
                          (str "encryptedChunks")
                      = Ok (JArr [JArr (json_numbers ns)])) by reflexivity.
    assert (Hchunk : get (JArr [JArr (json_numbers ns)]) (str "0")
                     = Ok (JArr (json_numbers ns))) by reflexivity.
    rewrite Hchunks. cbn [bind]. rewrite Hchunk. cbn [bind].
    rewrite Uint8Array_from_numbers. reflexivity. }
  rewrite Hdec. reflexivity.
Qed.

(* ================================================================== *)
(** * UTF-8: decoding what was encoded *)
(* ================================================================== *)























(* ================================================================== *)
(** * encryptionTestUtils: the verdict of the encryption cycle test *)
(* ================================================================== *)

Lemma reachable_initialize :
  forall st env,
    reachable st ->
    exists st', initialize env st = (Ok tt, st') /\ isReady st' = true.
Proof.
  intros st env Hreach.
  destruct (reachable_inv st Hreach) as [-> | [Hi Hl]].
  - apply initialize_new_service.
  - exists st.
    assert (Hr : isReady st = true).
    { unfold isReady. rewrite Hi.
      destruct (SealLibrary st); [reflexivity | congruence]. }
    split; [apply isReady_initialize; exact Hr | exact Hr].
Qed.



(* ================================================================== *)
(** * useSealEncryption: the hook and the service *)
(* ================================================================== *)

Lemma encryptFile_returns :
  forall env file st,
    exists r st',
      encryptFile env file st = (Ok r, st')
      /\ (enc_success r = true \/ exists msg, r = enc_failed msg).
Proof.
  intros env file st. unfold encryptFile, etry, ebind, eret, elift.
  destruct (initialize env st) as [[[] | e] st1].
  2: { eexists. eexists. split; [reflexivity |]. right. eexists. reflexivity. }
  destruct (negb (isReady st1)).
  { eexists. eexists. split; [reflexivity |]. right. eexists. reflexivity. }
  destruct (arrayBuffer file) as [fileData | e].
  2: { eexists. eexists. split; [reflexivity |]. right. eexists. reflexivity. }
  destruct (negb (kp_success (_generateKeyPair env))).
  { eexists. eexists. split; [reflexivity |]. right. eexists. reflexivity. }
  destruct (negb (data_success
                    (_encryptData env fileData
                       (kp_publicKey (_generateKeyPair env))))).
  { eexists. eexists. split; [reflexivity |]. right. eexists. reflexivity. }
  eexists. eexists. split; [reflexivity |]. left. reflexivity.
Qed.

Lemma decryptFile_returns :
  forall env bytes key st,
    exists r st',
      decryptFile env bytes key st = (Ok r, st')
      /\ (dec_success r = true \/ exists msg, r = dec_failed msg).
Proof.
  intros env bytes key st. unfold decryptFile, etry, ebind, eret.
  destruct (initialize env st) as [[[] | e] st1].
  2: { eexists. eexists. split; [reflexivity |]. right. eexists. reflexivity. }
  destruct (negb (isReady st1)).
  { eexists. eexists. split; [reflexivity |]. right. eexists. reflexivity. }
  destruct (negb (data_success (_decryptData bytes))).
  { eexists. eexists. split; [reflexivity |]. right. eexists. reflexivity. }
  eexists. eexists. split; [reflexivity |]. left. reflexivity.
Qed.

Lemma hook_returns_ready :
  forall env state file w,
    state_isReady state = true ->
    exists r st',
      encryptFile env file (service_state w) = (Ok r, st')
      /\ useSealEncryption_encryptFile env state file w
         = (Ok r,
            {| hook_state :=
                 set_encrypting false
                   (set_error
                      (if enc_success r then None
                       else Some (or_default (enc_error r)
                                    (str "Encryption failed")))
                      (hook_state w));
               service_state := st' |}).
Proof.
  intros env state file w Hready.
  destruct (encryptFile_returns env file (service_state w))
    as (r & st' & Hrun & _).
  exists r, st'. split; [exact Hrun |].
  unfold useSealEncryption_encryptFile. rewrite Hready. cbn [negb].
  unfold ebind, efinally, etry, on_service, setState, eret.
  cbn [service_state hook_state]. rewrite Hrun.
  destruct (enc_success r); reflexivity.
Qed.

(** X18.  The [encryptFile] and [decryptFile] of the hook add nothing to
    the results of the service.  With [isReady] false in the state
    that the callback closed over, they return the "not ready" failure
    and touch neither the state nor the service.  Otherwise they
    return exactly what the service returns, never throw (their catch
    blocks are dead code), and leave the hook with the busy flag
    cleared and with [error] null after a success, and the result's
    error, or the default text when that is empty, after a failure. *)
Theorem hook_returns_the_service_result :
  forall (env : Env) (state : EncryptionState) (file : File)
         (bytes : list byte) (key : jsstring) (w : HookWorld),
    (state_isReady state = false ->
     useSealEncryption_encryptFile env state file w
     = (Ok (enc_failed not_ready_message), w)
     /\ useSealEncryption_decryptFile env state bytes key w
        = (Ok (dec_failed not_ready_message), w))
    /\ (state_isReady state = true ->
        (exists r st',
            encryptFile env file (service_state w) = (Ok r, st')
            /\ useSealEncryption_encryptFile env state file w
               = (Ok r,
                  {| hook_state :=
                       set_encrypting false
                         (set_error
                            (if enc_success r then None
                             else Some (or_default (enc_error r)
                                          (str "Encryption failed")))
                            (hook_state w));
                     service_state := st' |}))
        /\ (exists r st',
               decryptFile env bytes key (service_state w) = (Ok r, st')
               /\ useSealEncryption_decryptFile env state bytes key w
                  = (Ok r,
                     {| hook_state :=
                          set_decrypting false
                            (set_error
                               (if dec_success r then None
                                else Some (or_default (dec_error r)
                                             (str "Decryption failed")))
                               (hook_state w));
                        service_state := st' |}))).
Proof.
  intros env state file bytes key w. split.
  - intros Hnot.
    unfold useSealEncryption_encryptFile, useSealEncryption_decryptFile.
    rewrite Hnot. split; reflexivity.
  - intros Hready. split.
    + apply hook_returns_ready. exact Hready.
    + destruct (decryptFile_returns env bytes key (service_state w))
        as (r & st' & Hrun & _).
      exists r, st'. split; [exact Hrun |].
      unfold useSealEncryption_decryptFile. rewrite Hready. cbn [negb].
      unfold ebind, efinally, etry, on_service, setState, eret.
      cbn [service_state hook_state]. rewrite Hrun.
      destruct (dec_success r); reflexivity.
Qed.

(** X19.  [initializeService] does nothing when the state it closed
    over is ready or initialising.  Otherwise, on a service in any
    state it can reach, it ends with [isReady] true, [isInitializing]
    false and [error] null, and with the service ready. *)
Theorem initializeService_makes_ready :
  forall (env : Env) (state : EncryptionState) (w : HookWorld),
    reachable (service_state w) ->
    (state_isReady state = true \/ state_isInitializing state = true ->
     initializeService env state w = (Ok tt, w))
    /\ (state_isReady state = false -> state_isInitializing state = false ->
        exists st',
          initialize env (service_state w) = (Ok tt, st')
          /\ isReady st' = true
          /\ initializeService env state w
             = (Ok tt,
                {| hook_state :=
                     {| state_isInitializing := false;
                        state_isReady := true;
                        state_isEncrypting :=
                          state_isEncrypting (hook_state w);
                        state_isDecrypting :=
                          state_isDecrypting (hook_state w);
                        state_error := None |};
                   service_state := st' |})).
Proof.
  intros env state w Hreach. split.
  - intros H. unfold initializeService.
    destruct H as [-> | ->]; [reflexivity | rewrite orb_true_r; reflexivity].
  - intros Hr Hi.
    destruct (reachable_initialize _ env Hreach) as (st' & Hinit & Hready).
    exists st'. split; [exact Hinit |]. split; [exact Hready |].
    unfold initializeService. rewrite Hr, Hi. cbn [orb].
    unfold ebind, etry, on_service, setState.
    cbn [service_state hook_state]. rewrite Hinit.
    cbn [service_state hook_state state_isEncrypting state_isDecrypting
         state_error]. rewrite Hready. reflexivity.
Qed.

Lemma uploadFile_sends :
  forall net file tok mode enc log,
    exists r,
      uploadFile net file tok mode enc log
      = (Ok r, log ++ [upload_request
                         match enc with
                         | Some d => encryptedFile d
                         | None => file
                         end tok mode]).
Proof.
  intros net file tok mode enc log.
  unfold uploadFile, etry, ebind, fetch, elift, eret.
  destruct (net _) as [response | e]; [| eexists; reflexivity].
  destruct (json response) as [result | e]; [| eexists; reflexivity].
  destruct (negb (ok response)).
  - destruct (bind_throw_Error_throws jsval jsval
                (get result (str "message"))
                (fun m => js_or m (JStr (str "Upload failed")))) as [e He].
    rewrite He. eexists; reflexivity.
  - destruct enc as [d |]; [| eexists; reflexivity].
    destruct (get result (str "data")) as [x | e];
      [| eexists; reflexivity].
    destruct (truthy x); eexists; reflexivity.
Qed.

(** Past its authentication check, [uploadSingleFile] sends one
    request, with the file that the encryption attempt left. *)
Lemma uploadSingleFile_sends :
  forall ctx net attachedFile log,
    useTestMode ctx = true \/ isAuthenticated ctx = true ->
    exists r,
      uploadSingleFile ctx net attachedFile log
      = (Ok r,
         log ++ [upload_request
                   match encryption_data (prepare_upload ctx attachedFile) with
                   | Some d => encryptedFile d
                   | None => af_file attachedFile
                   end (token ctx) (useTestMode ctx)]).
Proof.
  intros ctx net attachedFile log Hauth. unfold uploadSingleFile.
  assert (Hgate : negb (useTestMode ctx) && negb (isAuthenticated ctx) = false).
  { destruct Hauth as [-> | ->]; [reflexivity | apply andb_false_r]. }
  rewrite Hgate.
  destruct (uploadFile_sends net (af_file attachedFile) (token ctx)
              (useTestMode ctx)
              (encryption_data (prepare_upload ctx attachedFile)) log)
    as [reply Hup].
  unfold etry, ebind, elift, eret. rewrite Hup.
  destruct (get reply (str "success")) as [success |]; cbn [bind];
    [| eexists; reflexivity].
  destruct (truthy success); cbn [negb]; [eexists; reflexivity |].
  destruct (bind_throw_Error_throws jsval jsval
              (get reply (str "message"))
              (fun m => js_or m (JStr (str "Upload failed")))) as [e He].
  rewrite He. eexists; reflexivity.
Qed.

Lemma encryptFile_success_envelope :
  forall env file bytes st st' r,
    arrayBuffer file = Ok bytes ->
    encryptFile env file st = (Ok r, st') ->
    enc_success r = true ->
    exists text pk,
      JSON_stringify_checked (encryptionMetadata env bytes (Some pk)) = Ok text
      /\ Forall (fun c => plain_char c = true) pk
      /\ encryptedData r = Some (TextEncoder_encode text).
Proof.
  intros env file bytes st st' r Hfile Hrun Hsucc.
  revert Hrun. unfold encryptFile, etry, ebind, eret, elift.
  destruct (initialize env st) as [[[] | e] st1].
  2: { intros H. injection H as <- _. discriminate. }
  destruct (isReady st1); cbn [negb].
  2: { intros H. injection H as <- _. discriminate. }
  rewrite Hfile.
  destruct (_generateKeyPair_plain env) as (pk & sk & Hkp & Hpk).
  rewrite Hkp. cbn [kp_success kp_publicKey kp_secretKey kp_error negb].
  destruct (_encryptData_cases env bytes (Some pk))
    as [(text & Htext & Henc) | (msg & Henc)]; rewrite Henc.
  2: { intros H. injection H as <- _. discriminate. }
  cbn [data_ok data_success data_bytes negb].
  intros H. injection H as <- _.
  exists text, pk. split; [exact Htext |]. split; [exact Hpk | reflexivity].
Qed.

Lemma decryptFile_envelope :
  forall env bytes text (pk : jsstring) env' key st,
    Forall (fun c => plain_char c = true) pk ->
    JSON_stringify_checked (encryptionMetadata env bytes (Some pk)) = Ok text ->
    reachable st ->
    exists st',
      decryptFile env' (TextEncoder_encode text) key st
      = (Ok {| dec_success := true; decryptedData := Some bytes;
               dec_error := None |}, st').
Proof.
  intros env bytes text pk env' key st Hpk Htext Hreach.
  destruct (reachable_initialize st env' Hreach) as (st' & Hinit & Hready).
  exists st'. unfold decryptFile, etry, ebind, eret.
  rewrite Hinit, Hready.
  rewrite (_decryptData_envelope env bytes pk text Hpk Htext).
  reflexivity.
Qed.

(** X20.  What [uploadSingleFile] uploads, in a component that encrypts
    through the hook and the service: past the authentication check it
    sends one request, and the file of that request is either the
    original file, or a file named [<name>.encrypted] of type
    application/octet-stream whose bytes [decryptFile] turns back into
    the bytes of the original, with any key and on any service.  With
    [isReady] false in the hook's state it is the original. *)
Theorem upload_is_original_or_decryptable :
  forall (mode authenticated : bool) (tok : option jsstring) (env : Env)
         (state : EncryptionState) (w : HookWorld) (net : Network)
         (attachedFile : AttachedFile) (bytes : list byte)
         (log : list Request),
    mode = true \/ authenticated = true ->
    arrayBuffer (af_file attachedFile) = Ok bytes ->
    exists result file,
      uploadSingleFile (component_context mode authenticated tok env state w)
                       net attachedFile log
      = (Ok result, log ++ [upload_request file tok mode])
      /\ (file = af_file attachedFile
          \/ (state_isReady state = true
              /\ file_name file
                 = file_name (af_file attachedFile) ++ str ".encrypted"
              /\ file_type file = octet_stream
              /\ exists encrypted,
                   arrayBuffer file = Ok encrypted
                   /\ file_size file = N.of_nat (List.length encrypted)
                   /\ forall env' key st,
                        reachable st ->
                        exists st',
                          decryptFile env' encrypted key st
                          = (Ok {| dec_success := true;
                                   decryptedData := Some bytes;
                                   dec_error := None |}, st')))
      /\ (state_isReady state = false -> file = af_file attachedFile).
Proof.
  intros mode authenticated tok env state w net attachedFile bytes log
         Hauth Hfile.
  set (ctx := component_context mode authenticated tok env state w).
  destruct (uploadSingleFile_sends ctx net attachedFile log Hauth)
    as [result Hrun].
  exists result. eexists. split; [exact Hrun |].
  unfold prepare_upload, ctx, component_context.
  cbn [encryptionState_isReady hook_encryptFile].
  destruct (state_isReady state) eqn:Hready.
  2: { cbn. split; [left; reflexivity | reflexivity]. }
  split; [| discriminate].
  destruct (hook_returns_ready env state (af_file attachedFile) w Hready)
    as (r & st' & Hservice & Hhook).
  rewrite Hhook. cbn [fst bind try_catch].
  destruct (enc_success r) eqn:Hsucc; [| left; reflexivity].
  right. split; [reflexivity |].
  destruct (encryptFile_success_envelope _ _ _ _ _ _ Hfile Hservice Hsucc)
    as (text & pk & Htext & Hpk & Hdata).
  cbn. rewrite Hdata. cbn [blob_bytes].
  split; [reflexivity |]. split; [reflexivity |].
  exists (TextEncoder_encode text).
  split; [reflexivity |]. split; [reflexivity |].
  intros env' key st Hreach.
  apply (decryptFile_envelope env bytes text pk env' key st Hpk Htext Hreach).
Qed.

(* ================================================================== *)
(** * accessControlService: the calls of the backend *)
(* ================================================================== *)









(** X22.  A share link that [validateShareLink] reports as valid never
    has an [accessGranted] that is [undefined], [null], 0 or empty:
    the result holds the reply's [data.accessGranted] when that is
    truthy, and [false] in every other case, a reply without [data]
    among them. *)
Theorem validateShareLink_grants_or_refuses :
  forall (net : ApiNetwork) (shareId : jsstring) (log log' : list ApiRequest)
         (r : ApiResult),
    validateShareLink net shareId log = (Ok r, log') ->
    api_success r = true ->
    exists fields granted,
      api_data r = Some (JObj fields)
      /\ lookup_last fields (str "accessGranted") = Some granted
      /\ (granted = JBool false \/ truthy granted = true).
Proof.
  intros net shareId log log' r Hrun Hsucc.
  revert Hrun.
  unfold validateShareLink, etry, ebind, api_fetch, elift, eret.
  destruct (net _) as [response | e].
  2: { intros H. injection H as <- _. discriminate. }
  destruct (json response) as [d | e].
  2: { intros H. injection H as <- _. discriminate. }
  destruct (negb (ok response)).
  { destruct (bind_throw_Error_throws ApiResult jsval
                (get d (str "message"))
                (fun m => js_or m
                            (JStr (str "Failed to validate share link"))))
      as [e He].
    rewrite He. intros H. injection H as <- _. discriminate. }
  destruct (data_field d (str "fileCid")) as [c |]; cbn [bind].
  2: { intros H. injection H as <- _. discriminate. }
  destruct (data_field d (str "accessGranted")) as [g |]; cbn [bind].
  2: { intros H. injection H as <- _. discriminate. }
  destruct (data_field d (str "filename")) as [n |]; cbn [bind].
  2: { intros H. injection H as <- _. discriminate. }
  destruct (data_field d (str "fileSize")) as [z |]; cbn [bind].
  2: { intros H. injection H as <- _. discriminate. }
  destruct (data_field d (str "contentType")) as [t |]; cbn [bind].
  2: { intros H. injection H as <- _. discriminate. }
  destruct (data_field d (str "isEncrypted")) as [i |]; cbn [bind].
  2: { intros H. injection H as <- _. discriminate. }
  destruct (get d (str "message")) as [m |]; cbn [bind].
  2: { intros H. injection H as <- _. discriminate. }
  intros H. injection H as <- _.
  eexists _, (js_or g (JBool false)). split; [reflexivity |].
  split; [reflexivity |].
  unfold js_or. destruct (truthy g) eqn:Hg; [right; exact Hg | left; reflexivity].
Qed.

(* ================================================================== *)
(** * fileService: downloadFile *)
(* ================================================================== *)


(* ================================================================== *)
(** * FileUpload: the upload of the queue *)
(* ================================================================== *)

(** The entries of a queue are settled, but for those with the
    identifier [id]. *)
Lemma settled_but_start :
  forall id l,
    Forall (fun f => q_uploading f = false) l ->
    Forall (fun f => jseqb (af_id (queued f)) id = false ->
                     q_uploading f = false) l.
Proof.
  intros id l H. apply Forall_impl with (2 := H). auto.
Qed.

Lemma settled_but_change :
  forall id change l,
    (forall f, queued (change f) = queued f) ->
    Forall (fun f => jseqb (af_id (queued f)) id = false ->
                     q_uploading f = false) l ->
    Forall (fun f => jseqb (af_id (queued f)) id = false ->
                     q_uploading f = false) (change_file id change l).
Proof.
  intros id change l Hq H. unfold change_file. apply Forall_map.
  apply Forall_impl with (2 := H). intros f Hf.
  destruct (jseqb (af_id (queued f)) id) eqn:Hid.
  - rewrite Hq, Hid. discriminate.
  - intros _. apply Hf. reflexivity.
Qed.

Lemma settled_but_done :
  forall id uploaded result l,
    Forall (fun f => jseqb (af_id (queued f)) id = false ->
                     q_uploading f = false) l ->
    Forall (fun f => q_uploading f = false)
           (change_file id (mark_done uploaded result) l).
Proof.
  intros id uploaded result l H. unfold change_file. apply Forall_map.
  apply Forall_impl with (2 := H). intros f Hf.
  destruct (jseqb (af_id (queued f)) id) eqn:Hid.
  - reflexivity.
  - apply Hf. reflexivity.
Qed.

Lemma change_file_settles :
  forall id uploaded result l,
    Forall (fun f => q_uploading f = false) l ->
    Forall (fun f => q_uploading f = false)
           (change_file id (mark_done uploaded result)
              (change_file id mark_uploading l)).
Proof.
  intros id uploaded result l H. apply settled_but_done.
  apply settled_but_change; [reflexivity |].
  apply settled_but_start. exact H.
Qed.

Lemma call_back_returns :
  forall callback argument r,
    returns callback -> call_back callback argument r = (Ok tt, r).
Proof.
  intros callback argument r H. unfold call_back.
  destruct callback as [f |]; [| reflexivity].
  unfold elift. rewrite (H argument). reflexivity.
Qed.

(** One turn of the loop, with callbacks that return. *)
Lemma upload_attached_step :
  forall props ctx net q r,
    returns (onUploadSuccess props) -> returns (onUploadError props) ->
    exists r',
      upload_attached props ctx net q r = (Ok tt, r')
      /\ globalUploading r' = globalUploading r
      /\ toasts r' = toasts r
      /\ (Forall (fun f => q_uploading f = false) (attachedFiles r) ->
          Forall (fun f => q_uploading f = false) (attachedFiles r'))
      /\ successCount r' + errorCount r'
         = successCount r + errorCount r + List.length (pending [q])
      /\ (useTestMode ctx = true \/ isAuthenticated ctx = true ->
          List.length (run_requests r')
          = List.length (run_requests r) + List.length (pending [q]))
      /\ (useTestMode ctx = false -> isAuthenticated ctx = false ->
          run_requests r' = run_requests r
          /\ successCount r' = successCount r).
Proof.
  intros props ctx net q r Hs He. unfold upload_attached, pending.
  cbn [filter].
  destruct (truthy (q_uploaded q)); cbn [negb List.length].
  { exists r. split; [reflexivity |]. repeat split; auto; lia. }
  unfold ebind at 1. unfold setAttachedFiles at 1.
  set (r1 := {| run_requests := run_requests r;
                attachedFiles :=
                  change_file (af_id (queued q)) mark_uploading
                              (attachedFiles r);
                globalUploading := globalUploading r;
                toasts := toasts r;
                successCount := successCount r;
                errorCount := errorCount r |}).
  unfold etry, ebind, on_requests.
  change (run_requests r1) with (run_requests r).
  destruct (uploadSingleFile ctx net (queued q) (run_requests r))
    as [[result | e] log] eqn:Hup.
  - (* the upload returned *)
    assert (Hlog : useTestMode ctx = true \/ isAuthenticated ctx = true ->
                   List.length log = List.length (run_requests r) + 1).
    { intros Hgate.
      destruct (uploadSingleFile_sends ctx net (queued q) (run_requests r)
                  Hgate) as [x Hx].
      rewrite Hx in Hup. injection Hup as _ <-.
      rewrite length_app. reflexivity. }
    assert (Hclosed : useTestMode ctx = false -> isAuthenticated ctx = false ->
                      False).
    { intros Hm Ha. unfold uploadSingleFile in Hup. rewrite Hm, Ha in Hup.
      discriminate. }
    unfold elift.
    destruct (get result (str "success")) as [success | e] eqn:Hget.
    + unfold setAttachedFiles.
      destruct (truthy success) eqn:Htruthy.
      * unfold count_success, set_counts.
        rewrite call_back_returns by exact Hs.
        eexists. split; [reflexivity |].
        cbn [globalUploading toasts attachedFiles successCount errorCount
             run_requests r1].
        split; [reflexivity |]. split; [reflexivity |].
        split; [apply change_file_settles |].
        split; [lia |]. split; [exact Hlog |].
        intros Hm Ha. destruct (Hclosed Hm Ha).
      * unfold count_error, set_counts.
        cbn [run_requests attachedFiles globalUploading toasts successCount
             errorCount].
        destruct (get result (str "message")) as [message | e] eqn:Hmsg.
        -- rewrite call_back_returns by exact He.
           eexists. split; [reflexivity |].
           cbn [globalUploading toasts attachedFiles successCount errorCount
                run_requests r1].
           split; [reflexivity |]. split; [reflexivity |].
           split; [apply change_file_settles |].
           split; [lia |]. split; [exact Hlog |].
           intros Hm Ha. destruct (Hclosed Hm Ha).
        -- (* the message can be read where the success could *)
           exfalso.
           assert (Hobj : not_nullish result)
             by (apply (get_not_nullish result (str "success")); eauto).
           destruct (proj2 (get_not_nullish result (str "message")) Hobj)
             as [m Hm].
           congruence.
    + unfold count_error, set_counts, setAttachedFiles.
      rewrite call_back_returns by exact He.
      eexists. split; [reflexivity |].
      cbn [globalUploading toasts attachedFiles successCount errorCount
           run_requests r1].
      split; [reflexivity |]. split; [reflexivity |].
      split; [apply change_file_settles |].
      split; [lia |]. split; [exact Hlog |].
      intros Hm Ha. destruct (Hclosed Hm Ha).
  - (* the upload threw: the authentication check *)
    assert (Hgate : useTestMode ctx = false /\ isAuthenticated ctx = false
                    /\ log = run_requests r).
    { destruct (useTestMode ctx) eqn:Hm.
      - destruct (uploadSingleFile_sends ctx net (queued q) (run_requests r)
                    (or_introl Hm)) as [x Hx].
        rewrite Hx in Hup. discriminate.
      - destruct (isAuthenticated ctx) eqn:Ha.
        + destruct (uploadSingleFile_sends ctx net (queued q) (run_requests r)
                      (or_intror Ha)) as [x Hx].
          rewrite Hx in Hup. discriminate.
        + unfold uploadSingleFile in Hup. rewrite Hm, Ha in Hup.
          injection Hup as _ <-. auto. }
    destruct Hgate as (Hm & Ha & ->).
    unfold count_error, set_counts, setAttachedFiles.
    rewrite call_back_returns by exact He.
    eexists. split; [reflexivity |].
    cbn [globalUploading toasts attachedFiles successCount errorCount
         run_requests r1].
    split; [reflexivity |]. split; [reflexivity |].
    split; [apply change_file_settles |].
    split; [lia |]. split.
    + intros [H | H]; congruence.
    + intros _ _. split; reflexivity.
Qed.

Lemma upload_loop :
  forall props ctx net,
    returns (onUploadSuccess props) -> returns (onUploadError props) ->
    forall snapshot r,
    exists r',
      for_each snapshot (upload_attached props ctx net) r = (Ok tt, r')
      /\ globalUploading r' = globalUploading r
      /\ toasts r' = toasts r
      /\ (Forall (fun f => q_uploading f = false) (attachedFiles r) ->
          Forall (fun f => q_uploading f = false) (attachedFiles r'))
      /\ successCount r' + errorCount r'
         = successCount r + errorCount r + List.length (pending snapshot)
      /\ (useTestMode ctx = true \/ isAuthenticated ctx = true ->
          List.length (run_requests r')
          = List.length (run_requests r) + List.length (pending snapshot))
      /\ (useTestMode ctx = false -> isAuthenticated ctx = false ->
          run_requests r' = run_requests r
          /\ successCount r' = successCount r).
Proof.
  intros props ctx net Hs He snapshot.
  induction snapshot as [| q snapshot IH]; intros r.
  - exists r. cbn. repeat split; auto; lia.
  - destruct (upload_attached_step props ctx net q r Hs He)
      as (r1 & Hrun1 & Hg1 & Ht1 & Hu1 & Hc1 & Ho1 & Hx1).
    destruct (IH r1) as (r2 & Hrun2 & Hg2 & Ht2 & Hu2 & Hc2 & Ho2 & Hx2).
    exists r2. cbn [for_each]. unfold ebind. rewrite Hrun1.
    split; [exact Hrun2 |].
    assert (Hlen : List.length (pending (q :: snapshot))
                   = (List.length (pending [q])
                      + List.length (pending snapshot))%nat).
    { unfold pending. cbn [filter].
      destruct (negb (truthy (q_uploaded q))); reflexivity. }
    split; [congruence |]. split; [congruence |].
    split; [auto |]. split; [lia |]. split.
    + intros Hgate. rewrite (Ho2 Hgate), (Ho1 Hgate). lia.
    + intros Hm Ha. destruct (Hx1 Hm Ha) as [E1 E2].
      destruct (Hx2 Hm Ha) as [E3 E4]. split; congruence.
Qed.

(** X24.  [handleUploadAll] on an empty queue only shows the toast "No
    files to upload".  On a queue that is not empty, and with
    callbacks that return, it ends with [globalUploading] false and
    with no file left in the uploading state; every file that was not
    yet uploaded is counted once, as a success or as an error, and the
    two toasts tell the counts.  Signed in or in test mode it sends
    one request for each such file and none for the files already
    uploaded; signed out and outside test mode it sends nothing and
    counts every such file as an error. *)
Theorem handleUploadAll_counts_every_pending_file :
  forall (props : FileUploadProps) (ctx : UploadContext) (net : Network)
         (snapshot : list QueuedFile) (r : UploadRun),
    returns (onUploadSuccess props) -> returns (onUploadError props) ->
    handleUploadAll props ctx net [] r
    = (Ok tt,
       {| run_requests := run_requests r; attachedFiles := attachedFiles r;
          globalUploading := globalUploading r;
          toasts := toasts r ++ [toast_error (str "No files to upload")];
          successCount := successCount r; errorCount := errorCount r |})
    /\ (snapshot <> [] ->
        exists r',
          handleUploadAll props ctx net snapshot r = (Ok tt, r')
          /\ globalUploading r' = false
          /\ (Forall (fun f => q_uploading f = false) (attachedFiles r) ->
              Forall (fun f => q_uploading f = false) (attachedFiles r'))
          /\ successCount r' + errorCount r' = List.length (pending snapshot)
          /\ (useTestMode ctx = true \/ isAuthenticated ctx = true ->
              List.length (run_requests r')
              = List.length (run_requests r) + List.length (pending snapshot))
          /\ (useTestMode ctx = false -> isAuthenticated ctx = false ->
              run_requests r' = run_requests r /\ successCount r' = 0)
          /\ toasts r'
             = toasts r
               ++ (if (0 <? successCount r')%nat
                   then [toast_success
                           (file_count_text "Successfully uploaded "
                                            (successCount r'))]
                   else [])
               ++ (if (0 <? errorCount r')%nat
                   then [toast_error
                           (file_count_text "Failed to upload "
                                            (errorCount r'))]
                   else [])).
Proof.
  intros props ctx net snapshot r Hs He. split; [reflexivity |].
  intros Hne. unfold handleUploadAll.
  destruct snapshot as [| q rest]; [congruence |].
  cbn [List.length Nat.eqb].
  unfold ebind at 1. unfold setGlobalUploading at 1.
  unfold ebind at 1. unfold set_counts at 1.
  cbn [run_requests attachedFiles globalUploading toasts successCount
       errorCount].
  set (r0 := {| run_requests := run_requests r;
                attachedFiles := attachedFiles r;
                globalUploading := true; toasts := toasts r;
                successCount := 0; errorCount := 0 |}).
  destruct (upload_loop props ctx net Hs He (q :: rest) r0)
    as (r1 & Hrun & Hg & Ht & Hu & Hc & Ho & Hx).
  unfold ebind at 1. rewrite Hrun.
  unfold ebind at 1. unfold setGlobalUploading at 1.
  cbn [run_requests attachedFiles globalUploading toasts successCount
       errorCount r0] in *.
  unfold ebind, toast, eret.
  destruct (0 <? successCount r1)%nat eqn:Hsc;
    destruct (0 <? errorCount r1)%nat eqn:Hec;
    cbn [run_requests attachedFiles globalUploading toasts successCount
         errorCount];
    rewrite ?Hec;
    (eexists; split; [reflexivity |];
     cbn [run_requests attachedFiles globalUploading toasts successCount
          errorCount];
     rewrite ?Hsc, ?Hec, Ht;
     split; [reflexivity |]; split; [exact Hu |]; split; [lia |];
     split; [exact Ho |]; split; [exact Hx |];
     rewrite <- ?app_assoc, ?app_nil_r; reflexivity).
Qed.

Lemma change_file_done_marks :
  forall id uploaded result l,
    Forall (fun f =>
              jseqb (af_id (queued f)) id = true ->
              q_uploaded f = uploaded /\ q_uploadResult f = Some result)
           (change_file id (mark_done uploaded result) l).
Proof.
  intros id uploaded result l. unfold change_file. apply Forall_map.
  apply Forall_forall. intros f _.
  destruct (jseqb (af_id (queued f)) id) eqn:Hid.
  - intros _. split; reflexivity.
  - intros H. congruence.
Qed.

(** X25.  A success callback that throws turns a stored file into a
    failed one.  When the upload of the only pending file succeeds and
    [onUploadSuccess] throws on the result, [handleUploadAll] counts
    the file twice, once as a success and once as an error, shows both
    toasts, and marks the file as not uploaded with the callback's
    error as its result, so that the next run uploads it again. *)
Theorem throwing_callback_counts_twice :
  forall (props : FileUploadProps) (ctx : UploadContext) (net : Network)
         (q : QueuedFile) (r : UploadRun) (result success : jsval)
         (log' : list Request) (callback : jsval -> exn unit) (e : thrown),
    truthy (q_uploaded q) = false ->
    uploadSingleFile ctx net (queued q) (run_requests r) = (Ok result, log') ->
    get result (str "success") = Ok success ->
    truthy success = true ->
    onUploadSuccess props = Some callback ->
    callback result = Throw e ->
    returns (onUploadError props) ->
    exists r',
      handleUploadAll props ctx net [q] r = (Ok tt, r')
      /\ successCount r' = 1 /\ errorCount r' = 1
      /\ run_requests r' = log'
      /\ Forall (fun f =>
                   jseqb (af_id (queued f)) (af_id (queued q)) = true ->
                   q_uploaded f = JBool false
                   /\ q_uploadResult f
                      = Some (failure_object
                                (message_or e (str "Upload failed"))))
                (attachedFiles r')
      /\ toasts r'
         = toasts r
           ++ [ toast_success (str "Successfully uploaded 1 file(s)");
                toast_error (str "Failed to upload 1 file(s)") ].
Proof.
  intros props ctx net q r result success log' callback e
         Hpending Hup Hget Htruthy Hcb Hthrow Herr.
  unfold handleUploadAll. cbn [List.length Nat.eqb for_each].
  unfold upload_attached. rewrite Hpending.
  unfold ebind, etry, setGlobalUploading, set_counts, setAttachedFiles,
    on_requests, elift, count_success, count_error, set_counts, eret.
  cbn [run_requests attachedFiles globalUploading toasts successCount
       errorCount].
  rewrite Hup, Hget, Htruthy.
  cbn [run_requests attachedFiles globalUploading toasts successCount
       errorCount].
  rewrite Hcb. unfold call_back at 1. unfold elift. rewrite Hthrow.
  cbn [run_requests attachedFiles globalUploading toasts successCount
       errorCount].
  rewrite call_back_returns by exact Herr.
  cbn [run_requests attachedFiles globalUploading toasts successCount
       errorCount Nat.ltb Nat.leb].
  unfold toast.
  cbn [run_requests attachedFiles globalUploading toasts successCount
       errorCount Nat.ltb Nat.leb].
  eexists. split; [reflexivity |].
  cbn [run_requests attachedFiles globalUploading toasts successCount
       errorCount].
  split; [reflexivity |]. split; [reflexivity |]. split; [reflexivity |].
  split.
  - apply change_file_done_marks.
  - rewrite <- app_assoc. reflexivity.
Qed.

(* ================================================================== *)
(** * accessControlService: parseBulkData and the ends of lines *)
(* ================================================================== *)

Lemma trimStart_snoc :
  forall (l : jsstring) (w : N),
    is_js_space w = true ->
    trimStart (l ++ [w])
    = match trimStart l with
      | [] => []
      | _ => trimStart l ++ [w]
      end.
Proof.
  intros l w Hw. induction l as [| c l IH].
  - cbn. rewrite Hw. reflexivity.
  - cbn [app trimStart]. destruct (is_js_space c); [exact IH | reflexivity].
Qed.

Lemma trim_snoc :
  forall (l : jsstring) (w : N),
    is_js_space w = true -> trim (l ++ [w]) = trim l.
Proof.
  intros l w Hw. unfold trim. rewrite (trimStart_snoc l w Hw).
  destruct (trimStart l) as [| c r]; [reflexivity |].
  rewrite rev_unit. cbn [trimStart]. rewrite Hw. reflexivity.
Qed.

Lemma split_aux_snoc :
  forall (sep w : N),
    w <> sep ->
    forall (s cur : jsstring),
      exists init l,
        split_aux sep s cur = init ++ [l]
        /\ split_aux sep (s ++ [w]) cur = init ++ [l ++ [w]].
Proof.
  intros sep w Hne s. induction s as [| c s IH]; intros cur.
  - exists [], (rev cur). cbn [app split_aux].
    apply N.eqb_neq in Hne. rewrite Hne. split; reflexivity.
  - cbn [app split_aux]. destruct (c =? sep)%N.
    + destruct (IH []) as (init & l & H1 & H2).
      exists (rev cur :: init), l. rewrite H1, H2. split; reflexivity.
    + apply IH.
Qed.

Lemma cells_snoc :
  forall (line : jsstring) (w : N),
    is_js_space w = true ->
    map trim (split (ch ",") (line ++ [w])) = map trim (split (ch ",") line).
Proof.
  intros line w Hw.
  assert (Hne : w <> ch ",") by (intros ->; discriminate).
  unfold split.
  destruct (split_aux_snoc (ch ",") w Hne line []) as (init & l & H1 & H2).
  rewrite H1, H2, !map_app. cbn [map]. rewrite (trim_snoc l w Hw).
  reflexivity.
Qed.

Lemma csv_rows_snoc :
  forall (content : jsstring) (w : N),
    is_js_space w = true -> w <> line_feed ->
    csv_rows (content ++ [w]) = csv_rows content.
Proof.
  intros content w Hw Hne. unfold csv_rows, split.
  destruct (split_aux_snoc line_feed w Hne content [])
    as (init & l & H1 & H2).
  rewrite H1, H2, !filter_app, !map_app. f_equal.
  cbn [filter]. rewrite (trim_snoc l w Hw).
  destruct (truthy_str (trim l)); [| reflexivity].
  cbn [map]. f_equal. apply cells_snoc. exact Hw.
Qed.

(** X26.  White space at the end of a line does not count: a white
    space character other than the line feed, written before a line
    feed or at the end of the text, changes nothing in the result of
    [parseBulkData].  A text whose lines end with a carriage return
    and a line feed is therefore read as the text whose lines end with
    the line feed alone. *)
Theorem parseBulkData_ignores_carriage_returns :
  forall w,
    is_js_space w = true -> w <> line_feed ->
    forall fileType before rest,
      parseBulkData (before ++ w :: line_feed :: rest) fileType
      = parseBulkData (before ++ line_feed :: rest) fileType
      /\ parseBulkData (before ++ [w]) fileType
         = parseBulkData before fileType.
Proof.
  intros w Hw Hne fileType before rest.
  destruct fileType; [| split; reflexivity].
  unfold parseBulkData. split.
  - change (before ++ w :: line_feed :: rest)
      with (before ++ [w] ++ line_feed :: rest).
    rewrite app_assoc, !csv_rows_app, (csv_rows_snoc before w Hw Hne).
    reflexivity.
  - rewrite (csv_rows_snoc before w Hw Hne). reflexivity.
Qed.

(* ================================================================== *)
(** * encryptionTestUtils: the status test *)
(* ================================================================== *)

(** X27.  [testEncryptionServiceStatus] reports a service that is
    ready, in every state that the service can reach: it returns
    [success: true] with the message "Encryption service is ready" and
    a status whose three flags are true, and leaves the service ready.
    Its answer "Encryption service is not ready" and its catch block
    are never reached. *)
Theorem testEncryptionServiceStatus_reports_ready :
  forall st,
    reachable st ->
    forall env,
      exists st',
        testEncryptionServiceStatus env st
        = (Ok {| check_success := true;
                 check_status :=
                   {| status_isInitialized := true; status_isReady := true;
                      status_libraryLoaded := true |};
                 check_message := str "Encryption service is ready" |}, st')
        /\ isReady st' = true
        /\ (isInitialized st = true -> st' = st).
Proof.
  intros st Hreach env.
  assert (Hstatus : forall s,
             isInitialized s = true -> SealLibrary s <> None ->
             getStatus s
             = {| status_isInitialized := true; status_isReady := true;
                  status_libraryLoaded := true |}
             /\ isReady s = true).
  { intros s Hi Hl. unfold getStatus, isReady. rewrite Hi.
    destruct (SealLibrary s); [split; reflexivity | congruence]. }
  unfold testEncryptionServiceStatus, etry, ebind, eret.
  destruct (reachable_inv st Hreach) as [-> | [Hi Hl]].
  - cbn [getStatus status_isInitialized new_service isInitialized negb].
    destruct (initialize_cases env new_service)
      as [[H _] | [(_ & p & H & _) | (_ & _ & H)]]; try discriminate.
    rewrite H.
    eexists. split; [reflexivity |]. split; [reflexivity | discriminate].
  - cbn [getStatus status_isInitialized]. rewrite Hi. cbn [negb].
    destruct (Hstatus st Hi Hl) as [Hs Hr].
    exists st. rewrite Hs. cbn [status_isReady].
    split; [reflexivity |]. split; [exact Hr | reflexivity].
Qed.

End Services.

(* ================================================================== *)
(** * The properties at concrete inputs *)
(* ================================================================== *)

(** The validator of the SDK writes addresses with hexadecimal digits
    and the [x] of the prefix. *)
Lemma sdk_address_alphabet :
  forall s, sdk_isValidSuiAddress s = true -> forallb is_address_char s = true.
Proof.
  assert (Hhex : forall l, forallb is_hex l = true ->
                           forallb is_address_char l = true).
  { intros l H. rewrite forallb_forall in *. intros c Hc.
    unfold is_address_char. rewrite (H c Hc). reflexivity. }
  intros s H. unfold sdk_isValidSuiAddress in H.
  destruct s as [| z [| x r]];
    try (apply andb_true_iff in H; destruct H as [H _]; apply Hhex; exact H).
  destruct ((z =? ch "0")%N) eqn:Hz; cbn [andb] in H.
  - destruct ((x =? ch "x") || (x =? ch "X"))%N eqn:Hx.
    + apply andb_true_iff in H. destruct H as [H _].
      apply N.eqb_eq in Hz. subst z.
      cbn [forallb]. rewrite (Hhex r H), andb_true_r.
      unfold is_address_char at 2. rewrite <- orb_assoc, Hx, orb_true_r.
      reflexivity.
    + apply andb_true_iff in H. destruct H as [H _]. apply Hhex. exact H.
  - apply andb_true_iff in H. destruct H as [H _]. apply Hhex. exact H.
Qed.

(** The round trip of C1 on a file of seven bytes that end with a code
    point of four bytes, decrypted by the same service and by a fresh
    one. *)
Lemma decrypt_after_encrypt_sample :
  match encryptFile ideal_engine sample_env sample_file new_service with
  | (Ok r, st1) =>
      enc_success r = true
      /\ exists encrypted,
           encryptedData r = Some encrypted
           /\ (exists st3,
                  decryptFile ideal_engine sample_env encrypted
                    (str "not the key") st1
                  = (Ok {| dec_success := true;
                           decryptedData := Some sample_data;
                           dec_error := None |}, st3))
           /\ (exists st3,
                  decryptFile ideal_engine sample_env encrypted [] new_service
                  = (Ok {| dec_success := true;
                           decryptedData := Some sample_data;
                           dec_error := None |}, st3))
  | (Throw _, _) => False
  end.
Proof.
  destruct (encryptFile ideal_engine sample_env sample_file new_service)
    as [[r | e] st1] eqn:Hrun.
  - assert (Hsucc : enc_success r = true).
    { vm_compute in Hrun. injection Hrun as <- _. reflexivity. }
    split; [exact Hsucc |].
    destruct (decrypt_after_encrypt ideal_engine sample_env sample_file
                sample_data new_service st1 r eq_refl Hrun Hsucc)
      as (Hready & encrypted & Hdata & Hdec).
    exists encrypted. split; [exact Hdata |]. split.
    + apply Hdec. left. exact Hready.
    + apply Hdec. right. reflexivity.
  - vm_compute in Hrun. discriminate.
Defined.

(** The key identifier starts with the clock in base 36. *)
Example toString36_sample :
  toString36 1700000000000 = str "loyw3v28"
  /\ toString36 0 = str "0" /\ toString36 35 = str "z"
  /\ toString36 36 = str "10".
Proof. repeat split; reflexivity. Qed.

(** C2 does not hold as the specification words it: the rule names
    one SuiNS name, [a_b.sui], of seven characters and with the
    suffix, so that none of the listed
    violations holds of it, and [validateAccessRule] still returns
    [valid: false]. *)
Lemma validateAccessRule_rejects_unlisted_name :
  ~ listed_violation sdk_isValidSuiAddress underscore_rule
  /\ valid (validateAccessRule sdk_isValidSuiAddress underscore_rule) = false.
Proof.
  split; [| reflexivity].
  unfold listed_violation, underscore_rule, no_condition_family.
  cbn [conditionType allowedEmails allowedAddresses allowedSuiNS
       accessStartTime accessEndTime maxAccessDuration maxAccessCount
       field_list].
  intros [H | [H | [H | [H | [H | [H | [H | H]]]]]]].
  - apply H. right. left. reflexivity.
  - inversion H.
  - inversion H.
  - inversion H as [? ? Hname | ? ? Htail]; subst.
    + destruct Hname as [Hshort | [Hlong | Hsuffix]].
      * vm_compute in Hshort. lia.
      * vm_compute in Hlong. lia.
      * apply Hsuffix. exists (str "a_b"). reflexivity.
    + inversion Htail.
  - destruct H as (s & e & Hs & _). discriminate.
  - destruct H as (d & Hd & _). discriminate.
  - destruct H as (c & Hc & _). discriminate.
  - destruct H as [Hty _]. vm_compute in Hty. discriminate.
Qed.

(** C2, as it holds of the code, on a hybrid rule whose window ends
    before it starts. *)
Lemma validateAccessRule_characterised_sample :
  numeric_fields_set reversed_window_rule
  /\ valid (validateAccessRule sdk_isValidSuiAddress reversed_window_rule)
     = false.
Proof.
  assert (Hset : numeric_fields_set reversed_window_rule)
    by (repeat split; reflexivity).
  split; [exact Hset |].
  apply (proj1 (validateAccessRule_characterised sdk_isValidSuiAddress
                  reversed_window_rule Hset)).
  do 4 right. left.
  exists (num_of_Z 2000), (num_of_Z 1000). repeat split; reflexivity.
Defined.

(** A duration of zero passes the validation, although the message of
    the duration check reads "must be positive": the check is guarded
    by the truthiness of the field. *)
Example validateAccessRule_accepts_zero_duration :
  validateAccessRule sdk_isValidSuiAddress zero_duration_rule
  = {| valid := true; validation_error := None |}.
Proof. reflexivity. Qed.

(** C3 does not hold as the specification words it.  Signed out and
    outside the test mode, [uploadSingleFile] throws before any
    request is sent; and signed
    in, with an adapter that is not ready, the result carries
    [isEncrypted] when the backend's reply does. *)
Lemma uploadSingleFile_without_fallback :
  uploadSingleFile ideal_engine signed_out_context
    (fun _ => Ok flagged_response) sample_attached []
  = (Throw (ErrorObj (str "Please log in to upload files")), [])
  /\ exists result,
       uploadSingleFile ideal_engine signed_in_context
         (fun _ => Ok flagged_response) sample_attached []
       = (Ok result,
          [upload_request sample_file (Some (str "jwt")) false])
       /\ bind (get ideal_engine result (str "data"))
               (fun d => get ideal_engine d (str "isEncrypted"))
          = Ok (JBool true).
Proof.
  split; [reflexivity |].
  exists flagged_reply. split; reflexivity.
Qed.

(** C3, as it holds of the code, in the signed-in context with an
    adapter that is not ready. *)
Lemma uploadSingleFile_falls_back_sample :
  exists result,
    uploadSingleFile ideal_engine signed_in_context
      (fun _ => Ok flagged_response) sample_attached []
    = (Ok result, [] ++ [upload_request sample_file (Some (str "jwt")) false])
    /\ ((exists response,
            (fun _ : Request => Ok flagged_response)
              (upload_request sample_file (Some (str "jwt")) false)
            = Ok response
            /\ ok response = true /\ json response = Ok result)
        \/ exists msg, result = failure_object msg).
Proof.
  apply (uploadSingleFile_falls_back ideal_engine signed_in_context
           (fun _ => Ok flagged_response) sample_attached []).
  - right. reflexivity.
  - left. reflexivity.
Defined.

(** C5 at a backend that answers with the scenario's body. *)
Lemma getUserFiles_normalizes_scenario_sample :
  exists f log',
    getUserFiles ideal_engine (fun _ => Ok scenario_response)
      (fun _ => time_value 1700000000000 eq_refl) (Some (str "jwt")) false []
    = (Ok {| files_success := true; files := [f]; files_message := None |},
       log')
    /\ cid f = JStr (str "x")
    /\ filename f = JStr (str "a.txt")
    /\ fileSize f = JNum (num_of_Z 10)
    /\ isOwner f = true.
Proof.
  apply (getUserFiles_normalizes_scenario ideal_engine
           (fun _ => Ok scenario_response)
           (fun _ => time_value 1700000000000 eq_refl)
           (Some (str "jwt")) false [] scenario_response);
    reflexivity.
Defined.

(** C8 on a text that names an email, a SuiNS name and an address
    twice each. *)
Lemma parseBulkData_deduplicates_sample :
  occurrences (str "a@b.co")
    (emails (parseBulkData sdk_isValidSuiAddress sample_csv csv)) = 1%nat
  /\ occurrences sample_address
       (addresses (parseBulkData sdk_isValidSuiAddress sample_csv csv)) = 1%nat
  /\ occurrences (str "ab.sui")
       (suiNSNames (parseBulkData sdk_isValidSuiAddress sample_csv csv)) = 1%nat.
Proof.
  assert (Htwice : forall t,
             t = str "a@b.co" \/ t = sample_address \/ t = str "ab.sui" ->
             (2 <= occurrences t (cell_tokens sample_csv))%nat).
  { intros t [-> | [-> | ->]]; vm_compute; repeat constructor. }
  split; [| split].
  - apply (proj1 (parseBulkData_deduplicates sdk_isValidSuiAddress
                    sdk_address_alphabet sample_csv (str "a@b.co")
                    (Htwice _ (or_introl eq_refl)))).
    vm_compute. reflexivity.
  - apply (proj1 (proj2 (parseBulkData_deduplicates sdk_isValidSuiAddress
                    sdk_address_alphabet sample_csv sample_address
                    (Htwice _ (or_intror (or_introl eq_refl)))))).
    vm_compute. reflexivity.
  - apply (proj2 (proj2 (parseBulkData_deduplicates sdk_isValidSuiAddress
                    sdk_address_alphabet sample_csv (str "ab.sui")
                    (Htwice _ (or_intror (or_intror eq_refl)))))).
    vm_compute. reflexivity.
Defined.

(** C10 on a download whose header names two files: the greedy group
    runs to the last quote. *)
Lemma downloadSharedFile_filename_and_flag_sample :
  match downloadSharedFile ideal_engine (fun _ => Ok sample_download)
          (str "abc") None [] with
  | (Ok r, _) =>
      dl_success r = true
      /\ dl_filename r
         = Some (str "a.txt" ++ [dquote] ++ str "; x=" ++ [dquote] ++ str "b")
      /\ dl_isEncrypted r = Some true
  | (Throw _, _) => False
  end.
Proof.
  destruct (downloadSharedFile ideal_engine (fun _ => Ok sample_download)
              (str "abc") None []) as [[r | e] log'] eqn:Hrun.
  - assert (Hsucc : dl_success r = true).
    { vm_compute in Hrun. injection Hrun as <- _. reflexivity. }
    split; [exact Hsucc |].
    destruct (downloadSharedFile_filename_and_flag ideal_engine _ _ _ _ _ _
                Hrun Hsucc) as (response & Hnet & Hname & _ & Hflag & _).
    injection Hnet as <-. split.
    + apply (Hname sample_disposition); [reflexivity |].
      pose proof (filename_match_spec sample_disposition) as Hspec.
      vm_compute filename_match in Hspec. exact Hspec.
    + apply Hflag. reflexivity.
  - vm_compute in Hrun. discriminate.
Defined.

(** X2 on the address [a@b.co]. *)
Lemma isValidEmail_one_at_sign_sample :
  count_occ N.eq_dec (str "a@b.co") (ch "@") = 1%nat
  /\ Forall (fun c => is_js_space c = false) (str "a@b.co")
  /\ (5 <= List.length (str "a@b.co"))%nat.
Proof.
  apply (isValidEmail_one_at_sign (str "a@b.co")). reflexivity.
Defined.

(** X3 on a list whose second and third entries are malformed: the
    error names the second. *)
Lemma validateAccessRule_names_first_bad_email_sample :
  validateAccessRule sdk_isValidSuiAddress bad_email_rule
  = invalid (str "Invalid email address: " ++ str "nobody").
Proof.
  apply (validateAccessRule_names_first_bad_email sdk_isValidSuiAddress
           bad_email_rule [str "a@b.co"] (str "nobody") [str "x@"]).
  - left. reflexivity.
  - reflexivity.
  - repeat constructor.
  - reflexivity.
Defined.

(** X6 with a line of two spaces. *)
Lemma parseBulkData_skips_blank_lines_sample :
  parseBulkData sdk_isValidSuiAddress
    (str "  " ++ line_feed :: str "ab.sui") csv
  = parseBulkData sdk_isValidSuiAddress (str "ab.sui") csv
  /\ parseBulkData sdk_isValidSuiAddress
       (str "a@b.co" ++ line_feed :: str "  " ++ line_feed :: str "ab.sui") csv
     = parseBulkData sdk_isValidSuiAddress
         (str "a@b.co" ++ line_feed :: str "ab.sui") csv.
Proof.
  apply (parseBulkData_skips_blank_lines sdk_isValidSuiAddress (str "  ")).
  split; [| reflexivity].
  intros [H | [H | []]]; discriminate.
Defined.

(** X7 on the entries of [sample_csv] in a hybrid rule. *)
Lemma bulk_entries_pass_validation_sample :
  valid (validateAccessRule sdk_isValidSuiAddress bulk_rule) = false
  <-> conditionType bulk_rule = str "hybrid"
      /\ emails (parseBulkData sdk_isValidSuiAddress sample_csv csv) = []
      /\ addresses (parseBulkData sdk_isValidSuiAddress sample_csv csv) = [].
Proof.
  apply (bulk_entries_pass_validation sdk_isValidSuiAddress sample_csv
           bulk_rule).
  - do 3 right. left. reflexivity.
  - vm_compute. reflexivity.
  - vm_compute. reflexivity.
  - vm_compute. reflexivity.
  - reflexivity.
  - reflexivity.
  - reflexivity.
  - reflexivity.
Defined.

(** X9 at a backend whose reply says [isEncrypted: true] and names no
    keys. *)
Lemma uploadFile_marks_encrypted_sample :
  exists result data',
    uploadFile ideal_engine (fun _ => Ok flagged_response) sample_file
      (Some (str "jwt")) false (Some sample_encryption) []
    = (Ok result,
       [] ++ [upload_request (encryptedFile sample_encryption)
                (Some (str "jwt")) false])
    /\ get ideal_engine result (str "data") = Ok data'
    /\ get ideal_engine data' (str "isEncrypted") = Ok (JBool true)
    /\ get ideal_engine data' (str "encryptionKeys")
       = Ok (keys_object (data_encryptionKeys sample_encryption))
    /\ get ideal_engine data' (str "fileCid") = Ok (JStr (str "x")).
Proof.
  destruct (uploadFile_marks_encrypted ideal_engine
              (fun _ => Ok flagged_response) sample_file (Some (str "jwt"))
              false sample_encryption [] flagged_response flagged_reply
              [ (str "fileCid", JStr (str "x"));
                (str "isEncrypted", JBool true) ]
              eq_refl eq_refl eq_refl eq_refl)
    as (result & data' & Hrun & Hdata & Hflag & Hkeys & Hrest & _).
  exists result, data'. repeat (split; [assumption |]).
  rewrite Hrest; [reflexivity | discriminate | discriminate].
Defined.


(** X11 at a reply 403 that says "Share link expired". *)
Lemma downloadSharedFile_reports_server_message_sample :
  downloadSharedFile ideal_engine (fun _ => Ok refused_download)
    (str "abc") None []
  = (Ok (download_failed (str "Share link expired")),
     [] ++ [download_request (str "abc") None]).
Proof.
  destruct (downloadSharedFile_reports_server_message ideal_engine
              (fun _ => Ok refused_download) (str "abc") None []
              refused_download eq_refl eq_refl)
    as (msg & Hrun & _ & _ & Hmsg).
  rewrite Hrun.
  rewrite (Hmsg _ (str "Share link expired") eq_refl eq_refl);
    [reflexivity | discriminate].
Defined.

(** X12 on the download of [sample_download]. *)
Lemma downloadSharedFile_success_is_complete_sample :
  match downloadSharedFile ideal_engine (fun _ => Ok sample_download)
          (str "abc") (Some (str "jwt")) [] with
  | (Ok r, _) =>
      dl_fileData r = Some sample_data
      /\ exists name type,
           dl_filename r = Some name /\ name <> []
           /\ dl_contentType r = Some type /\ type <> []
  | (Throw _, _) => False
  end.
Proof.
  destruct (downloadSharedFile ideal_engine (fun _ => Ok sample_download)
              (str "abc") (Some (str "jwt")) [])
    as [[r | e] log'] eqn:Hrun.
  - assert (Hsucc : dl_success r = true).
    { vm_compute in Hrun. injection Hrun as <- _. reflexivity. }
    destruct (downloadSharedFile_success_is_complete ideal_engine _ _ _ _ _ _
                Hrun Hsucc)
      as (response & bytes & name & type & flag & Hnet & _ & Hblob & Hr
          & Hname & _ & Htype).
    injection Hnet as <-. injection Hblob as <-. rewrite Hr.
    split; [reflexivity |]. exists name, type. repeat split; assumption.
  - vm_compute in Hrun. discriminate.
Defined.

(** X13 at the backend of the specification's scenario. *)
Lemma getUserFiles_lists_every_entry_sample :
  exists r,
    getUserFiles ideal_engine (fun _ => Ok scenario_response)
      (fun _ => time_value 1700000000000 eq_refl) (Some (str "jwt")) false []
    = (Ok r, [] ++ [files_request (Some (str "jwt")) false])
    /\ files_success r = true
    /\ List.length (files r) = 1%nat.
Proof.
  destruct (getUserFiles_lists_every_entry ideal_engine
              (fun _ => Ok scenario_response)
              (fun _ => time_value 1700000000000 eq_refl)
              (Some (str "jwt")) false [] scenario_response
              scenario_list_body
              [ JObj [ (str "fileCid", JStr (str "x"));
                       (str "name", JStr (str "a.txt"));
                       (str "size", JNum (num_of_Z 10)) ] ]
              eq_refl eq_refl eq_refl eq_refl)
    as (r & Hrun & Hiff & Hall).
  assert (Hsucc : files_success r = true).
  { apply Hiff. repeat constructor; discriminate. }
  exists r. split; [exact Hrun |]. split; [exact Hsucc |].
  exact (proj1 (Hall Hsucc)).
Defined.

(** X14 on a new service whose Seal module fails to load. *)
Lemma initialize_always_ready_sample :
  exists st',
    initialize sample_env new_service = (Ok tt, st')
    /\ getStatus st'
       = {| status_isInitialized := true; status_isReady := true;
            status_libraryLoaded := true |}
    /\ SealLibrary st' = Some MockSeal.
Proof.
  destruct (initialize_always_ready ideal_engine new_service
              (reach_new ideal_engine) sample_env)
    as (st' & Hrun & Hstatus & _ & Hlib).
  exists st'. split; [exact Hrun |]. split; [exact Hstatus |].
  exact (Hlib eq_refl).
Defined.

(** X15 on the encryption of [sample_file]. *)
Lemma encryptFile_success_shape_sample :
  match encryptFile ideal_engine sample_env sample_file new_service with
  | (Ok r, _) =>
      publicKey r = Some (str "seal_public_" ++ keyId sample_env)
      /\ secretKey r = Some (str "seal_secret_" ++ keyId sample_env)
      /\ encryptedData r
         = Some (TextEncoder_encode
                   (envelope_text sample_env sample_data
                      (str "seal_public_" ++ keyId sample_env)))
  | (Throw _, _) => False
  end.
Proof.
  destruct (encryptFile ideal_engine sample_env sample_file new_service)
    as [[r | e] st'] eqn:Hrun.
  - assert (Hsucc : enc_success r = true).
    { vm_compute in Hrun. injection Hrun as <- _. reflexivity. }
    destruct (encryptFile_success_shape ideal_engine _ _ _ _ _ Hrun Hsucc)
      as (bytes & Hbytes & Hpk & Hsk & Hdata & _).
    injection Hbytes as <-. repeat split; assumption.
  - vm_compute in Hrun. discriminate.
Defined.

(** X16 on a chunk of three numbers, the last of which is 300. *)
Lemma decryptFile_accepts_bare_chunks_sample :
  exists st',
    decryptFile ideal_engine sample_env
      (TextEncoder_encode (bare_envelope_text [72; 105; 300]%N))
      (str "no key") new_service
    = (Ok {| dec_success := true;
             decryptedData := Some (map byte_of_N [72; 105; 300]%N);
             dec_error := None |}, st').
Proof.
  apply (decryptFile_accepts_bare_chunks ideal_engine new_service
           (reach_new ideal_engine) [72; 105; 300]%N).
  repeat (constructor; [apply N.leb_le; reflexivity |]). constructor.
Defined.


(** X19 on a component that has just been mounted. *)
Lemma initializeService_makes_ready_sample :
  exists st',
    initializeService sample_env initial_state mounted
    = (Ok tt, {| hook_state := ready_state; service_state := st' |})
    /\ isReady st' = true.
Proof.
  destruct (proj2 (initializeService_makes_ready ideal_engine sample_env
                     initial_state mounted (reach_new ideal_engine))
              eq_refl eq_refl)
    as (st' & _ & Hready & Hrun).
  exists st'. split; [exact Hrun | exact Hready].
Defined.

(** X20 for a signed-in user whose hook is ready. *)
Lemma upload_is_original_or_decryptable_sample :
  exists result file,
    uploadSingleFile ideal_engine
      (component_context ideal_engine false true (Some (str "jwt"))
         sample_env ready_state mounted)
      (fun _ => Ok flagged_response) sample_attached []
    = (Ok result, [] ++ [upload_request file (Some (str "jwt")) false])
    /\ (file = sample_file
        \/ file_name file = str "note.txt" ++ str ".encrypted").
Proof.
  destruct (upload_is_original_or_decryptable ideal_engine false true
              (Some (str "jwt")) sample_env ready_state mounted
              (fun _ => Ok flagged_response) sample_attached sample_data []
              (or_intror eq_refl) eq_refl)
    as (result & file & Hrun & [Hfile | (_ & Hname & _)] & _);
    exists result, file; (split; [exact Hrun |]).
  - left. exact Hfile.
  - right. exact Hname.
Defined.

(** X22 at a reply 200 without [data]. *)
Lemma validateShareLink_grants_or_refuses_sample :
  match validateShareLink ideal_engine (fun _ => Ok bare_share_reply)
          (str "abc") [] with
  | (Ok r, _) =>
      exists fields granted,
        api_data r = Some (JObj fields)
        /\ lookup_last fields (str "accessGranted") = Some granted
        /\ (granted = JBool false \/ truthy granted = true)
  | (Throw _, _) => False
  end.
Proof.
  destruct (validateShareLink ideal_engine (fun _ => Ok bare_share_reply)
              (str "abc") []) as [[r | e] log'] eqn:Hrun.
  - assert (Hsucc : api_success r = true).
    { vm_compute in Hrun. injection Hrun as <- _. reflexivity. }
    exact (validateShareLink_grants_or_refuses ideal_engine _ _ _ _ _
             Hrun Hsucc).
  - vm_compute in Hrun. discriminate.
Defined.

(** X24 on a queue of two files, one of which is stored already, in a
    component without callbacks. *)
Lemma handleUploadAll_counts_every_pending_file_sample :
  exists r',
    handleUploadAll ideal_engine no_callbacks signed_in_context
      (fun _ => Ok flagged_response) [fresh_file; stored_file]
      (run_of [fresh_file; stored_file])
    = (Ok tt, r')
    /\ globalUploading r' = false
    /\ (successCount r' + errorCount r' = 1)%nat
    /\ List.length (run_requests r') = 1%nat.
Proof.
  destruct (proj2 (handleUploadAll_counts_every_pending_file ideal_engine
                     no_callbacks signed_in_context
                     (fun _ => Ok flagged_response)
                     [fresh_file; stored_file]
                     (run_of [fresh_file; stored_file]) I I)
              ltac:(discriminate))
    as (r' & Hrun & Hglobal & _ & Hcount & Hsent & _).
  exists r'. split; [exact Hrun |]. split; [exact Hglobal |].
  split; [exact Hcount |]. exact (Hsent (or_intror eq_refl)).
Defined.

(** X25 on a queue of one file, in a component whose success callback
    throws. *)
Lemma throwing_callback_counts_twice_sample :
  exists r',
    handleUploadAll ideal_engine throwing_callbacks signed_in_context
      (fun _ => Ok flagged_response) [fresh_file] (run_of [fresh_file])
    = (Ok tt, r')
    /\ successCount r' = 1%nat /\ errorCount r' = 1%nat
    /\ toasts r'
       = [ toast_success (str "Successfully uploaded 1 file(s)");
           toast_error (str "Failed to upload 1 file(s)") ].
Proof.
  destruct (throwing_callback_counts_twice ideal_engine throwing_callbacks
              signed_in_context (fun _ => Ok flagged_response) fresh_file
              (run_of [fresh_file]) flagged_reply (JBool true)
              [upload_request sample_file (Some (str "jwt")) false]
              failing_refresh (ErrorObj (str "refresh failed"))
              eq_refl eq_refl eq_refl eq_refl eq_refl eq_refl I)
    as (r' & Hrun & Hs & He & _ & _ & Htoasts).
  exists r'. repeat (split; [assumption |]). exact Htoasts.
Defined.

(** X26 on a text of two lines, the first of which ends with a
    carriage return. *)
Lemma parseBulkData_ignores_carriage_returns_sample :
  parseBulkData sdk_isValidSuiAddress
    (str "a@b.co" ++ carriage_return :: line_feed :: str "ab.sui") csv
  = parseBulkData sdk_isValidSuiAddress
      (str "a@b.co" ++ line_feed :: str "ab.sui") csv
  /\ parseBulkData sdk_isValidSuiAddress (str "a@b.co" ++ [carriage_return])
       csv
     = parseBulkData sdk_isValidSuiAddress (str "a@b.co") csv.
Proof.
  apply (parseBulkData_ignores_carriage_returns sdk_isValidSuiAddress
           carriage_return).
  - reflexivity.
  - discriminate.
Defined.

(** X27 on a new service whose Seal module fails to load. *)
Lemma testEncryptionServiceStatus_reports_ready_sample :
  exists st',
    testEncryptionServiceStatus sample_env new_service
    = (Ok {| check_success := true;
             check_status :=
               {| status_isInitialized := true; status_isReady := true;
                  status_libraryLoaded := true |};
             check_message := str "Encryption service is ready" |}, st')
    /\ SealLibrary st' = Some MockSeal.
Proof.
  destruct (testEncryptionServiceStatus_reports_ready ideal_engine
              new_service (reach_new ideal_engine) sample_env)
    as (st' & Hrun & _ & _).
  exists st'. split; [exact Hrun |].
  vm_compute in Hrun. injection Hrun as <-. reflexivity.
Defined.
